(** * EmailWorker2TG: the HTML-to-MarkdownV2 transducer and the chunker

    A shallow embedding of the worker that forwards inbound e-mail to a
    Telegram chat: [escapeMarkdownV2], [splitAndPush], the chunking loop and
    the delivery loop of [sendSplitMessage], the [ElementHandler] callbacks
    driven by HTMLRewriter, and the [email] entry point; then the request
    body [sendAttachment] builds, and the escaper, the splitting, the
    delivery loop and the entry point of the earlier versions.

    Conventions.
    - A JavaScript string is a list of code units; code units are taken in
      the 8-bit range ([ascii]).  [length] is the JS [.length].
    - JavaScript values that may be [null]/[undefined] are [option]s; the
      truthiness test of the source is written out ([truthy]).
    - Module-scoped mutable state ([linksList]) and the handler object's
      fields are threaded explicitly.
    - The promises of the platform ([fetch], [response.json()], the text of
      [transform]) are taken to resolve: every request is answered, with
      [ok] or with a description. *)

From Stdlib Require Import String Ascii List Arith Lia Bool ZArith.
From Stdlib Require DecimalString.
Import ListNotations.

(** ** JavaScript string primitives used by the worker *)

Module JsString.

Definition str := list ascii.

Definition lit (s : string) : str := list_ascii_of_string s.

(** [text.substring(i, j)] for [i <= j]; both ends clamp to the length. *)
Definition substring (i j : nat) (s : str) : str :=
  firstn (j - i) (skipn i s).

(** ['c'.repeat(n)] *)
Definition repeat_char (c : ascii) (n : nat) : str := repeat c n.

(** [a === b] on strings. *)
Fixpoint eqb_str (a b : str) : bool :=
  match a, b with
  | [], [] => true
  | x :: a', y :: b' => Ascii.eqb x y && eqb_str a' b'
  | _, _ => false
  end.

(** [list.includes(x)] on an array of string literals. *)
Definition includes (l : list str) (x : str) : bool := existsb (eqb_str x) l.

(** [toLowerCase] on one code unit of the 8-bit range: the capital letters
    are [A]..[Z] and, in Latin-1, [192]..[222] without the sign [215]; each
    has its small letter 32 places further on. *)
Definition lower_char (c : ascii) : ascii :=
  let n := nat_of_ascii c in
  if ((65 <=? n) && (n <=? 90))
     || ((192 <=? n) && (n <=? 222) && negb (n =? 215))
  then ascii_of_nat (n + 32)
  else c.

Definition toLowerCase (s : str) : str := map lower_char s.

(** White space of [String.prototype.trim] in the 8-bit range:
    TAB, LF, VT, FF, CR, SPACE and NBSP. *)
Definition is_space (c : ascii) : bool :=
  let n := nat_of_ascii c in
  ((9 <=? n) && (n <=? 13)) || (n =? 32) || (n =? 160).

Fixpoint trimStart (s : str) : str :=
  match s with
  | c :: r => if is_space c then trimStart r else s
  | [] => []
  end.

Definition trim (s : str) : str := rev (trimStart (rev (trimStart s))).

(** [array.join(sep)] *)
Fixpoint join (sep : str) (l : list str) : str :=
  match l with
  | [] => []
  | [x] => x
  | x :: rest => x ++ sep ++ join sep rest
  end.

(** A string is falsy exactly when it is empty; [null] is falsy. *)
Definition truthy (o : option str) : bool :=
  match o with
  | Some (_ :: _) => true
  | _ => false
  end.

End JsString.

Import JsString.

(** ** The markup escaper *)

Module Escaper.

(** The character class of [charsToEscape]. *)
Definition charsToEscape : str := lit "_*[]()~`>#+-=|{}.!".

Definition reserved (c : ascii) : bool :=
  existsb (Ascii.eqb c) charsToEscape.

Definition backslash : ascii := "\"%char.

(** The negative look-behind [(?<!\\)]: the code unit before the
    candidate, in the INPUT, is not a backslash. *)
Definition not_after_backslash (prev : option ascii) : bool :=
  match prev with
  | Some p => negb (Ascii.eqb p backslash)
  | None => true
  end.

(** [text.replace(charsToEscape, '\\$&')] with the [g] flag: a left to
    right scan; [prev] is the input code unit before the current one. *)
Fixpoint replace_from (prev : option ascii) (text : str) : str :=
  match text with
  | [] => []
  | c :: rest =>
      if reserved c && not_after_backslash prev
      then backslash :: c :: replace_from (Some c) rest
      else c :: replace_from (Some c) rest
  end.

Definition escapeMarkdownV2 (text : str) : str := replace_from None text.

(** [inserted s t]: [t] is [s] with a backslash inserted in front of some
    of its reserved characters, and nothing else changed. *)
Inductive inserted : str -> str -> Prop :=
| ins_nil : inserted [] []
| ins_keep c s t : inserted s t -> inserted (c :: s) (c :: t)
| ins_esc c s t :
    reserved c = true -> inserted s t ->
    inserted (c :: s) (backslash :: c :: t).

(** Every reserved character of [t] has a backslash right before it;
    [prev] is the character in front of [t]. *)
Fixpoint guarded (prev : option ascii) (t : str) : bool :=
  match t with
  | [] => true
  | c :: r =>
      negb (reserved c && not_after_backslash prev) && guarded (Some c) r
  end.

(** The character a look-behind sees behind [s], when [prev] stands in
    front of [s]. *)
Definition last_char (prev : option ascii) (s : str) : option ascii :=
  match rev s with
  | c :: _ => Some c
  | [] => prev
  end.

End Escaper.

Import Escaper.

(** ** The chunker / reinserter: the first half of [sendSplitMessage] *)

Module Chunker.

Definition MAX_TELEGRAM_MESSAGE_LENGTH : nat := 3500.

Abbreviation MAX := MAX_TELEGRAM_MESSAGE_LENGTH.

(** An entry of [linksList]: [{ desc, link }]. *)
Record descriptor : Type := { desc : str; link : str }.

Definition hash : ascii := "#"%char.

(** ['#'.repeat(15)], the placeholder the transducer writes. *)
Definition marker : str := repeat_char hash 15.

(** [text.split(linkReplacer)] with [linkReplacer = /#{15}/]: the matches
    are the leftmost non-overlapping runs of fifteen [#].  The scan keeps
    the fragment read so far in [cur] and the number [k < 15] of [#] read
    since the fragment's last other character; the fifteenth [#] closes
    the fragment, any other character returns the pending [#] to it. *)
Fixpoint split_scan (cur : str) (k : nat) (text : str) : list str :=
  match text with
  | [] => [cur ++ repeat_char hash k]
  | c :: rest =>
      if Ascii.eqb c hash
      then if k =? 14
           then cur :: split_scan [] 0 rest
           else split_scan cur (S k) rest
      else split_scan (cur ++ repeat_char hash k ++ [c]) 0 rest
  end.

Definition split_linkReplacer (text : str) : list str := split_scan [] 0 text.

(** The number of matches the scan finds in [text], and the number of [#]
    it is left with, when it starts with [k] pending. *)
Fixpoint hits (k : nat) (text : str) : nat :=
  match text with
  | [] => 0
  | c :: rest =>
      if Ascii.eqb c hash
      then if k =? 14 then S (hits 0 rest) else hits (S k) rest
      else hits 0 rest
  end.

Fixpoint pend (k : nat) (text : str) : nat :=
  match text with
  | [] => k
  | c :: rest =>
      if Ascii.eqb c hash
      then if k =? 14 then pend 0 rest else pend (S k) rest
      else pend 0 rest
  end.

(** The number of placeholder markers of a text, as the split sees them. *)
Definition count_markers (text : str) : nat :=
  length (split_linkReplacer text) - 1.

(** [splitAndPush(arr, text)]: the [for] loop with its index [i]; [fuel]
    bounds the number of iterations (see [splitAndPush_fuel]). *)
Fixpoint splitAndPush_loop (fuel i : nat) (arr : list str) (text : str)
  : list str * str :=
  match fuel with
  | 0 => (arr, [])
  | S fuel' =>
      if i <? length text then
        let chunk := substring i (i + MAX) text in
        if length chunk <? MAX then (arr, chunk)
        else splitAndPush_loop fuel' (i + MAX) (arr ++ [chunk]) text
      else (arr, [])
  end.

(** Returns the array after the pushes and the returned remainder. *)
Definition splitAndPush (arr : list str) (text : str) : list str * str :=
  splitAndPush_loop (S (length text)) 0 arr text.

(** [` [${link.desc}](${link.link}) `] *)
Definition linkEntity (l : descriptor) : str :=
  lit " [" ++ desc l ++ lit "](" ++ link l ++ lit ") ".

(** The variables of the chunking loop, with the module's [linksList]. *)
Record loop_state : Type :=
  { chunks : list str; builder : str; linksList : list descriptor }.

(** [builder += t; if (builder.length > MAX) builder = splitAndPush(chunks,
    builder)], on the pair of [chunks] and [builder]. *)
Definition add_fragment (cb : list str * str) (t : str) : list str * str :=
  let builder1 := snd cb ++ t in
  if MAX <? length builder1
  then splitAndPush (fst cb) builder1
  else (fst cb, builder1).

(** The body of [if (link)]: flush the builder when the entity would not
    fit behind it, then append the entity whole. *)
Definition add_link (cb : list str * str) (l : descriptor) : list str * str :=
  let e := linkEntity l in
  let cb1 :=
    if MAX <? length (snd cb) + length e
    then (fst cb ++ [snd cb], [])
    else cb in
  (fst cb1, snd cb1 ++ e).

(** One round of [for (let t of splits)]; [linksList.shift()] is
    [undefined] on the empty queue, and a descriptor is always truthy. *)
Definition iteration (s : loop_state) (t : str) : loop_state :=
  let cb := add_fragment (chunks s, builder s) t in
  match linksList s with
  | [] => {| chunks := fst cb; builder := snd cb; linksList := [] |}
  | l :: rest =>
      let cb' := add_link cb l in
      {| chunks := fst cb'; builder := snd cb'; linksList := rest |}
  end.

(** [if (builder.length > 0) chunks.push(builder)] *)
Definition flush (s : loop_state) : list str :=
  if 0 <? length (builder s) then chunks s ++ [builder s] else chunks s.

Definition chunk_loop (text : str) (q : list descriptor) : loop_state :=
  fold_left iteration (split_linkReplacer text)
    {| chunks := []; builder := []; linksList := q |}.

(** The Segments [sendSplitMessage(text, env)] goes on to deliver when
    [linksList] holds [q]. *)
Definition segments (text : str) (q : list descriptor) : list str :=
  flush (chunk_loop text q).

(** [linksList] when the loop is over. *)
Definition queue_after (text : str) (q : list descriptor) : list descriptor :=
  linksList (chunk_loop text q).

(** The fully rendered stream: fragments with the entities between them. *)
Fixpoint rendered (frs : list str) (q : list descriptor) : str :=
  match frs with
  | [] => []
  | t :: r =>
      t ++ match q with
           | [] => rendered r []
           | l :: q' => linkEntity l ++ rendered r q'
           end
  end.

(** What the rendered stream holds in front of the entity of [q]'s
    [i]-th descriptor. *)
Fixpoint rendered_before (frs : list str) (q : list descriptor) (i : nat)
  : str :=
  match frs, q with
  | t :: r, l :: q' =>
      match i with
      | 0 => t
      | S j => t ++ linkEntity l ++ rendered_before r q' j
      end
  | _, _ => []
  end.

(** *** Notions the properties are stated with *)

(** A Segment that respects the limit. *)
Definition short (p : str) : Prop := length p <= MAX.

(** What the loop has rendered so far. *)
Definition stream (s : loop_state) : str := concat (chunks s) ++ builder s.

(** [located cs w e]: one Segment of [cs] holds [e] whole, and [w] is all
    the text the Segments spell out in front of it. *)
Definition located (cs : list str) (w e : str) : Prop :=
  exists cs1 pre post cs2,
    cs = cs1 ++ (pre ++ e ++ post) :: cs2 /\ concat cs1 ++ pre = w.

(** [pending cs b w e]: [e] is still in the builder [b], inside its first
    [MAX] characters. *)
Definition pending (cs : list str) (b w e : str) : Prop :=
  exists pre post,
    b = pre ++ e ++ post /\ concat cs ++ pre = w /\ length pre + length e <= MAX.

(** [severed cs w e]: a Segment of [cs] starts where [e] starts, behind the
    text [w], and ends after the first [MAX] characters of [e]. *)
Definition severed (cs : list str) (w e : str) : Prop :=
  exists cs1 cs2, cs = cs1 ++ firstn MAX e :: cs2 /\ concat cs1 = w.

Definition placed (cb : list str * str) (w e : str) : Prop :=
  located (fst cb) w e \/ pending (fst cb) (snd cb) w e.

Definition placed_in (s : loop_state) (w e : str) : Prop :=
  placed (chunks s, builder s) w e.

(** A text is harmless when, read behind at most one pending [#], it
    completes no marker and leaves at most one [#] pending; it is marking
    when it completes exactly one. *)
Definition harmless (w : str) : Prop :=
  forall k, k <= 1 -> hits k w = 0 /\ pend k w <= 1.

Definition marking (w : str) : Prop :=
  forall k, k <= 1 -> hits k w = 1 /\ pend k w <= 1.

End Chunker.

Import Chunker.

(** ** The HTML transducer: [ElementHandler] and the rewriter that drives it *)

Module ElementHandler.

(** The fields of the handler object; [herf] and [src] hold what
    [getAttribute] returned, [None] for [null]. *)
Record this : Type :=
  { tag : str; herf : option str; src : option str; nestedInA : bool }.

(** [constructor()] *)
Definition constructor : this :=
  {| tag := []; herf := Some []; src := Some []; nestedInA := false |}.

(** The element handed to [element(element)]: the tag name and the
    attributes as HTMLRewriter reports them. *)
Record Element : Type := { tagName : str; attributes : list (str * str) }.

Definition getAttribute (el : Element) (name : str) : option str :=
  match find (fun kv => eqb_str (fst kv) name) (attributes el) with
  | Some kv => Some (snd kv)
  | None => None
  end.

(** What the callback asked of the element: [element.remove()], nothing at
    all, or [element.removeAndKeepContent()]. *)
Inductive action : Type := Remove | Untouched | RemoveAndKeepContent.

Definition removed_tags : list str :=
  map lit ["style"; "script"; "meta"; "xml"; "head"]%string.

Definition media_tags : list str :=
  map lit ["img"; "video"; "iframe"; "audio"]%string.

Definition inline_tags : list str :=
  map lit ["span"; "strong"; "em"; "b"; "i"; "del"; "ins"; "sub"; "sup"; "a"]%string.

(** [element(element)]: the handler afterwards, what was asked of the
    element, and whether [element.onEndTag] registered the callback. *)
Definition element (h : this) (el : Element) : this * action * bool :=
  let name := toLowerCase (tagName el) in
  if includes removed_tags name then (h, Remove, false)
  else if includes [lit "br"] name then (h, Untouched, false)
  else
    let h1 :=
      {| tag := name; herf := herf h; src := src h; nestedInA := nestedInA h |} in
    let '(h2, registered) :=
      if eqb_str (tagName el) (lit "a")
      then ({| tag := tag h1; herf := getAttribute el (lit "href");
               src := src h1; nestedInA := true |}, true)
      else (h1, false) in
    let h3 :=
      if includes media_tags name
      then {| tag := tag h2; herf := herf h2;
              src := getAttribute el (lit "src"); nestedInA := nestedInA h2 |}
      else h2 in
    (h3, RemoveAndKeepContent, registered).

(** The callback given to [element.onEndTag]. *)
Definition onEndTag (h : this) : this :=
  {| tag := tag h; herf := herf h; src := src h; nestedInA := false |}.

(** A text chunk handed to [text(text)]. *)
Record Text : Type := { text_ : str; lastInTextNode : bool }.

(** What the callback asked of the chunk: [text.replace(content)] if any,
    and the content of [text.after]. *)
Record mutation : Type := { replaced : option str; after : str }.

Definition value (o : option str) : str :=
  match o with
  | Some s => s
  | None => []
  end.

Definition newline_char : ascii := "010"%char.

Definition newline : str := [newline_char].

Section Text.

(** [decode] of the html-entities package. *)
Variable decode : str -> str.

(** [text(text)]: the handler and [linksList] afterwards, and what was
    asked of the chunk. *)
Definition text (h : this) (linksList : list descriptor) (t : Text)
  : this * list descriptor * mutation :=
  let aft := if eqb_str (tag h) (lit "td") then lit " " else [] in
  if eqb_str (tag h) (lit "a") && truthy (herf h) then
    let trimmed := trim (escapeMarkdownV2 (decode (text_ t))) in
    let d := match trimmed with
             | [] => lit "link\-\>"
             | _ :: _ => trimmed
             end in
    ({| tag := tag h; herf := Some []; src := src h; nestedInA := nestedInA h |},
     linksList ++ [{| desc := d; link := value (herf h) |}],
     {| replaced := Some marker; after := aft |})
  else if includes media_tags (tag h) && negb (nestedInA h) then
    if lastInTextNode t && truthy (src h) then
      ({| tag := []; herf := herf h; src := src h; nestedInA := nestedInA h |},
       linksList ++ [{| desc := tag h; link := value (src h) |}],
       {| replaced := Some marker; after := aft |})
    else (h, linksList, {| replaced := None; after := aft |})
  else if includes inline_tags (tag h) then
    (h, linksList,
     {| replaced := Some (escapeMarkdownV2 (decode (text_ t))); after := aft |})
  else
    (h, linksList,
     {| replaced := Some (escapeMarkdownV2 (decode (text_ t)) ++ newline);
        after := aft |}).

End Text.

(** No link is pending: the handler holds no target and is inside an
    anchor, so neither the anchor branch nor the media branch of [text]
    is taken. *)
Definition unlinked (h : this) : Prop :=
  truthy (herf h) = false /\ nestedInA h = true.

End ElementHandler.

(** *** HTMLRewriter

    The rewriter is a library of the platform; it is modelled by what it
    does with the tokens of a document, in document order:
    - [on('*', handler)] calls [element] at every start tag and [text] at
      every chunk of text inside an element; text outside every element,
      the doctype and stray end tags are copied to the output;
    - [DocumentHandler.comments] removes every comment;
    - [element.remove()] suppresses the output of the element and of all
      its content, [element.removeAndKeepContent()] suppresses its tags
      only, an untouched element keeps its tags;
    - a replaced chunk is written as its replacement, any other chunk as
      its source text, followed by the content of [text.after].
    Whether the callbacks still run for the content of a removed element
    is left open: [fires_in_removed] decides it, and every statement below
    holds for both answers. *)

Module HTMLRewriter.

Import ElementHandler.

Inductive token : Type :=
| StartTag (el : Element) (source : str) (void : bool)
| EndTag (source : str)
| TextChunk (t : Text)
| Comment (source : str)
| Doctype (source : str).

(** An open element: whether its content is removed, whether its tags are
    kept, whether it has an end tag callback. *)
Record frame : Type :=
  { content_removed : bool; tags_kept : bool; end_callback : bool }.

Record state : Type :=
  { handler : ElementHandler.this;
    linksList : list descriptor;
    stack : list frame;
    output : str }.

Definition start (q : list descriptor) : state :=
  {| handler := constructor; linksList := q; stack := []; output := [] |}.

Definition emitting (st : list frame) : bool :=
  forallb (fun f => negb (content_removed f)) st.

(** What one token does: the new handler, queue and stack, the source text
    that is copied to the output and the text the callbacks wrote. *)
Record effect : Type :=
  { handler' : ElementHandler.this;
    linksList' : list descriptor;
    stack' : list frame;
    copied : str;
    written : str }.

Section Rewrite.

Variable fires_in_removed : bool.
Variable decode : str -> str.

Definition react (s : state) (tok : token) : effect :=
  let emit := emitting (stack s) in
  let idle st :=
    {| handler' := handler s; linksList' := linksList s; stack' := st;
       copied := []; written := [] |} in
  match tok with
  | StartTag el source void =>
      if emit || fires_in_removed then
        let '(h, act, registered) := element (handler s) el in
        let f := {| content_removed := match act with Remove => true | _ => false end;
                    tags_kept := match act with Untouched => true | _ => false end;
                    end_callback := registered |} in
        {| handler' := h; linksList' := linksList s;
           stack' := if void then stack s else f :: stack s;
           copied := if emit && tags_kept f then source else [];
           written := [] |}
      else
        idle (if void then stack s
              else {| content_removed := false; tags_kept := false;
                      end_callback := false |} :: stack s)
  | EndTag source =>
      match stack s with
      | [] =>
          {| handler' := handler s; linksList' := linksList s; stack' := [];
             copied := source; written := [] |}
      | f :: rest =>
          {| handler' := if end_callback f then onEndTag (handler s)
                         else handler s;
             linksList' := linksList s;
             stack' := rest;
             copied := if emit && tags_kept f then source else [];
             written := [] |}
      end
  | TextChunk t =>
      match stack s with
      | [] =>
          {| handler' := handler s; linksList' := linksList s; stack' := [];
             copied := text_ t; written := [] |}
      | _ :: _ =>
          if emit || fires_in_removed then
            let '(h, q, m) := text decode (handler s) (linksList s) t in
            {| handler' := h; linksList' := q; stack' := stack s;
               copied := if emit
                         then match replaced m with
                              | Some _ => []
                              | None => text_ t
                              end
                         else [];
               written := if emit
                          then value (replaced m) ++ after m
                          else [] |}
          else idle (stack s)
      end
  | Comment _ => idle (stack s)
  | Doctype source =>
      {| handler' := handler s; linksList' := linksList s; stack' := stack s;
         copied := if emit then source else []; written := [] |}
  end.

Definition step (s : state) (tok : token) : state :=
  let e := react s tok in
  {| handler := handler' e; linksList := linksList' e; stack := stack' e;
     output := output s ++ copied e ++ written e |}.

(** [rewriterInstance.transform(...)] over the tokens of the document. *)
Definition transform (toks : list token) (s : state) : state :=
  fold_left step toks s.

(** A step is quiet when the source text it copies has no [#] in it and it
    queues no descriptor while the output is suppressed. *)
Definition hash_free (s : str) : bool :=
  forallb (fun c => negb (Ascii.eqb c hash)) s.

Definition quiet_step (s : state) (tok : token) : bool :=
  let e := react s tok in
  hash_free (copied e)
  && (emitting (stack s) || (length (linksList' e) =? length (linksList s))).

Fixpoint quiet (s : state) (toks : list token) : bool :=
  match toks with
  | [] => true
  | tok :: rest => quiet_step s tok && quiet (step s tok) rest
  end.

(** The tokens close every element they open, and no other. *)
Fixpoint nested (depth : nat) (toks : list token) : bool :=
  match toks with
  | [] => depth =? 0
  | StartTag _ _ void :: rest => nested (if void then depth else S depth) rest
  | EndTag _ :: rest =>
      match depth with
      | 0 => false
      | S d => nested d rest
      end
  | _ :: rest => nested depth rest
  end.

Definition is_text (tok : token) : bool :=
  match tok with
  | TextChunk _ => true
  | _ => false
  end.

(** The source text of a token. *)
Definition source_of (tok : token) : str :=
  match tok with
  | StartTag _ s _ | EndTag s | Comment s | Doctype s => s
  | TextChunk t => text_ t
  end.

(** What [text] writes for a chunk of ordinary inline text. *)
Definition escaped_text (t : Text) : str :=
  escapeMarkdownV2 (decode (text_ t)).

(** No start tag among the tokens is reported with the tag name [a]. *)
Definition no_anchor (toks : list token) : bool :=
  forallb (fun tok => match tok with
                      | StartTag el _ _ => negb (eqb_str (tagName el) (lit "a"))
                      | _ => true
                      end) toks.

(** [plain_piece tok p]: [p] is what a token adds to the output when no
    chunk is turned into a link.  A chunk of text adds its decoded and
    escaped text, followed by a line feed unless the element is an inline
    one, and then by a space in a [<td>]; any other token adds its source
    text; where the output is suppressed, and for a tag that is dropped,
    nothing is added. *)
Definition plain_piece (tok : token) (p : str) : Prop :=
  p = []
  \/ match tok with
     | TextChunk t =>
         exists suffix,
           In suffix [[]; newline; newline ++ lit " "]
           /\ p = escaped_text t ++ suffix
     | _ => p = source_of tok
     end.

End Rewrite.

(** Markers and descriptors are in step: the output holds as many markers
    as the queue holds descriptors, and does not end inside a run of [#]
    that could complete one. *)
Definition in_step (s : state) : Prop :=
  hits 0 (output s) = length (linksList s) /\ pend 0 (output s) <= 1.

End HTMLRewriter.

(** ** The worker: [processHtml], the delivery loop and [email] *)

Module Worker.

Import ElementHandler.

(** A call either returns or throws an [Error] with a message. *)
Inductive outcome (A : Type) : Type :=
| Returned (a : A)
| Thrown (message : str).

Arguments Returned {A} a.
Arguments Thrown {A} message.

(** The parsed body of Telegram's answer to one request: [ok] with
    [result.message_id], or not [ok] with a [description]. *)
Inductive response : Type :=
| Ok (message_id : Z)
| NotOk (description : str).

(** A request the worker made: a [sendMessage] payload or a
    [sendDocument] upload. *)
Inductive request : Type :=
| SendMessage (text : str) (reply_to_message_id : option Z)
| SendDocument (filename : str) (reply_to_message_id : Z).

(** What the worker's calls read and change: the module's [linksList] and
    the requests made so far. *)
Record world : Type := { linksList : list descriptor; sent : list request }.

(** Code that reads and changes the world and may throw. *)
Definition M (A : Type) : Type := world -> outcome A * world.

Definition ret {A : Type} (a : A) : M A := fun w => (Returned a, w).

Definition throw {A : Type} (message : str) : M A :=
  fun w => (Thrown message, w).

Definition bind {A B : Type} (m : M A) (k : A -> M B) : M B :=
  fun w =>
    match m w with
    | (Returned a, w') => k a w'
    | (Thrown e, w') => (Thrown e, w')
    end.

(** [try { m } catch (error) { handler(error.message) }] *)
Definition try_catch {A : Type} (m : M A) (handler : str -> M A) : M A :=
  fun w =>
    match m w with
    | (Returned a, w') => (Returned a, w')
    | (Thrown e, w') => handler e w'
    end.

Declare Scope worker_scope.
Delimit Scope worker_scope with worker.
Notation "x <- m ;; k" := (bind m (fun x => k))
  (at level 61, m at next level, right associativity) : worker_scope.
Notation "m ;;; k" := (bind m (fun _ => k))
  (at level 61, right associativity) : worker_scope.

Local Open Scope worker_scope.

(** The e-mail as postal-mime hands it over; a property that may be
    [undefined] is an [option]. *)
Record Address : Type := { name : option str; address : str }.

Record Attachment : Type := { filename : str; mimeType : str }.

Record Email : Type :=
  { from : option Address;
    to : option (list Address);
    subject : option str;
    date : option str;
    html : option str;
    text : option str;
    attachments : list Attachment }.

(** [lastMessageId] is truthy when it is neither [null] nor [0]. *)
Definition truthy_id (id : option Z) : bool :=
  match id with
  | Some z => negb (Z.eqb z 0)
  | None => false
  end.

(** The identifier a truthy [lastMessageId] holds. *)
Definition id_of (id : option Z) : Z :=
  match id with
  | Some z => z
  | None => 0%Z
  end.

(** [s || fallback] on strings. *)
Definition or_else (s fallback : str) : str :=
  match s with
  | [] => fallback
  | _ :: _ => s
  end.

(** *** The clean-up replacements that end [processHtml] *)

Fixpoint starts_with (p s : str) : bool :=
  match p, s with
  | [], _ => true
  | x :: p', y :: s' => Ascii.eqb x y && starts_with p' s'
  | _ :: _, [] => false
  end.

(** The characters the [.] of a regular expression does not match. *)
Definition is_line_terminator (c : ascii) : bool :=
  let n := nat_of_ascii c in (n =? 10) || (n =? 13).

(** The part of [s] in front of its first line terminator. *)
Fixpoint line_of (s : str) : str :=
  match s with
  | [] => []
  | c :: r => if is_line_terminator c then [] else c :: line_of r
  end.

(** The length of the longest prefix of [s] that ends with [c]. *)
Fixpoint upto_last (c : ascii) (s : str) : option nat :=
  match s with
  | [] => None
  | x :: r =>
      match upto_last c r with
      | Some n => Some (S n)
      | None => if Ascii.eqb x c then Some 1 else None
      end
  end.

(** The length of the match of [/<!doctype.*>\n?/i] at the start of [s]:
    the greedy [.*] runs to the last [>] of the line. *)
Definition doctype_match (s : str) : option nat :=
  if starts_with (lit "<!doctype") (toLowerCase s) then
    let rest := skipn 9 s in
    match upto_last ">"%char (line_of rest) with
    | Some n =>
        Some (9 + n + match skipn n rest with
                      | c :: _ => if Ascii.eqb c "010"%char then 1 else 0
                      | [] => 0
                      end)
    | None => None
    end
  else None.

(** [text.replace(/<!doctype.*>\n?/i, '')]: the first match is removed. *)
Fixpoint replace_doctype (s : str) : str :=
  match s with
  | [] => []
  | c :: r =>
      match doctype_match s with
      | Some n => skipn n s
      | None => c :: replace_doctype r
      end
  end.

(** [replaceAll(/[\u200B\u200C\u200D\uFEFF\u2060\u00A0\u034F]/g, '')]:
    of these code units only [\u00A0] lies in the 8-bit range. *)
Definition remove_invisible (s : str) : str :=
  filter (fun c => negb (nat_of_ascii c =? 160)) s.

(** [text.replaceAll(re, replacement)] for a pattern given as a matcher of
    prefixes: the matches are taken from left to right and do not overlap;
    [skip] counts the characters of the current match still to pass. *)
Fixpoint replace_all (matcher : str -> option nat) (replacement : str)
         (skip : nat) (s : str) : str :=
  match s with
  | [] => []
  | c :: r =>
      match skip with
      | S k => replace_all matcher replacement k r
      | 0 =>
          match matcher s with
          | Some (S n) => replacement ++ replace_all matcher replacement n r
          | _ => c :: replace_all matcher replacement 0 r
          end
      end
  end.

(** The length of the match of [/<\s*br\s*\/?>/] at the start of [s]. *)
Definition br_match (s : str) : option nat :=
  match s with
  | c :: r =>
      if Ascii.eqb c "<"%char then
        let r1 := trimStart r in
        if starts_with (lit "br") r1 then
          let r2 := trimStart (skipn 2 r1) in
          let r3 := match r2 with
                    | x :: r' => if Ascii.eqb x "/"%char then r' else r2
                    | [] => r2
                    end in
          match r3 with
          | x :: r4 =>
              if Ascii.eqb x ">"%char then Some (length s - length r4)
              else None
          | [] => None
          end
        else None
      else None
  | [] => None
  end.

(** The white space [s] starts with. *)
Fixpoint spaces_of (s : str) : str :=
  match s with
  | [] => []
  | c :: r => if is_space c then c :: spaces_of r else []
  end.

(** The length of the match of [/(\s*\n){2,}/] at the start of [s]: the
    white space [s] starts with, up to its last line feed, when it holds
    two line feeds or more. *)
Definition blank_lines_match (s : str) : option nat :=
  let ws := spaces_of s in
  if 2 <=? count_occ ascii_dec ws "010"%char
  then upto_last "010"%char ws
  else None.

Definition tidy (s : str) : str :=
  replace_all blank_lines_match newline 0
    (replace_all br_match newline 0
       (remove_invisible (replace_doctype s))).

Section Platform.

(** Telegram: the answer to the request made when [n] requests were made
    before it.  [await fetch] and [response.json()] are taken to resolve. *)
Variable respond : nat -> response.

(** [decode] of html-entities; the tokens HTMLRewriter reads off a
    document and whether it runs callbacks inside removed elements; and
    [new Date(d).toLocaleString('zh-CN', ...)]. *)
Variable decode : str -> str.
Variable tokens_of : str -> list HTMLRewriter.token.
Variable fires_in_removed : bool.
Variable toLocaleString : str -> str.

(** The literals of the message templates that are written in Chinese or
    with an emoji: the banner line, the stand-ins for a missing sender,
    recipient, subject and body, and the separator of the fallback. *)
Variable banner unknown_sender unknown_recipient no_subject no_content
         body_error : str.

(** The message of the [TypeError] of [undefined.replace(...)]. *)
Variable type_error : str.

(** The second half of [sendSplitMessage]: one request per Segment, each a
    reply to the one before.  A refusal of the first Segment throws, a
    later one returns the last identifier. *)
Fixpoint deliver (chunks : list str) (lastMessageId : option Z)
  : M (option Z) :=
  match chunks with
  | [] => ret lastMessageId
  | chunk :: rest =>
      fun w =>
        let payload :=
          SendMessage chunk
            (if truthy_id lastMessageId then lastMessageId else None) in
        let w' := {| linksList := linksList w; sent := sent w ++ [payload] |} in
        match respond (length (sent w)) with
        | NotOk description =>
            match lastMessageId with
            | None => (Thrown description, w')
            | Some id => (Returned (Some id), w')
            end
        | Ok id => deliver rest (Some id) w'
        end
  end.

Definition sendSplitMessage (text : str) : M (option Z) :=
  fun w =>
    deliver (segments text (linksList w)) None
      {| linksList := queue_after text (linksList w); sent := sent w |}.

(** [sendAttachment]: one upload; a failure is logged only. *)
Definition sendAttachment (a : Attachment) (replyToMessageId : Z) : M unit :=
  fun w =>
    (Returned tt,
     {| linksList := linksList w;
        sent := sent w ++ [SendDocument (filename a) replyToMessageId] |}).

Fixpoint sendAttachments (l : list Attachment) (replyToMessageId : Z) : M unit :=
  match l with
  | [] => ret tt
  | a :: rest =>
      sendAttachment a replyToMessageId ;;; sendAttachments rest replyToMessageId
  end.

(** [processHtml(html)]: a fresh [ElementHandler], the shared
    [linksList]. *)
Definition processHtml (html : str) : M str :=
  fun w =>
    let s := HTMLRewriter.transform fires_in_removed decode (tokens_of html)
               (HTMLRewriter.start (linksList w)) in
    (Returned (tidy (HTMLRewriter.output s)),
     {| linksList := HTMLRewriter.linksList s; sent := sent w |}).

Definition show_address (a : Address) : str :=
  escapeMarkdownV2 (value (name a)) ++ lit " <`" ++ address a ++ lit "`\>".

(** The header lines both messages share. *)
Record header : Type :=
  { h_from : str; h_to : str; h_subject : str; h_date : option str }.

Definition header_of (p : Email) (subject_text : str) : header :=
  {| h_from := match from p with
               | Some a => show_address a
               | None => unknown_sender
               end;
     h_to := match to p with
             | Some l => join (lit ", ") (map show_address l)
             | None => unknown_recipient
             end;
     h_subject := or_else (escapeMarkdownV2 subject_text) no_subject;
     h_date := match date p with
               | Some ((_ :: _) as d) => Some (toLocaleString d)
               | _ => None
               end |}.

Definition header_lines (h : header) : str :=
  banner ++ newline ++ lit "**" ++ h_subject h ++ lit "**" ++ newline
  ++ lit "**From:** " ++ h_from h ++ newline
  ++ lit "**To:** " ++ h_to h
  ++ match h_date h with
     | Some ((_ :: _) as d) =>
         newline ++ lit "**Date:** " ++ escapeMarkdownV2 d
     | _ => []
     end
  ++ newline.

Definition fullMessageText (h : header) (separate escaped : str) : str :=
  header_lines h ++ lit "\-\-\-" ++ separate ++ lit "\-\-\-" ++ newline
  ++ escaped ++ newline ++ lit "      ".

Definition fallbackText (h : header) (message : str) : str :=
  newline ++ header_lines h ++ body_error ++ newline
  ++ escapeMarkdownV2 message ++ newline.

(** The [try] block of [email]. *)
Definition main (p : Email) (h : header) : M unit :=
  body <- match html p, text p with
          | Some ((_ :: _) as x), _ =>
              escaped <- processHtml x ;; ret (escaped, lit "html")
          | _, Some ((_ :: _) as x) =>
              ret (escapeMarkdownV2 (decode x), lit "text")
          | _, _ => ret ([], lit "\=\=\=\=")
          end ;;
  firstMessageId <-
    sendSplitMessage
      (fullMessageText h (snd body) (or_else (fst body) no_content)) ;;
  if (0 <? length (attachments p)) && truthy_id firstMessageId
  then sendAttachments (attachments p) (id_of firstMessageId)
  else ret tt.

(** [email(message, env, ctx)], given what [parser.parse(message.raw)]
    came to. *)
Definition email (parsed : outcome Email) : M unit :=
  match parsed with
  | Thrown e => throw e
  | Returned p =>
      match subject p with
      | None => throw type_error
      | Some s =>
          let h := header_of p s in
          try_catch (main p h)
            (fun message =>
               sendSplitMessage (fallbackText h message) ;;; ret tt)
      end
  end.

End Platform.

End Worker.

(** ** Sample inputs *)

Module Samples.

(** *** Descriptors *)

(** A descriptor whose target is a URL of 3510 characters: its entity has
    3517 characters. *)
Definition long_link : descriptor :=
  {| desc := lit "a"; link := lit "http://a/?" ++ repeat_char "a"%char 3500 |}.

Definition short_link : descriptor :=
  {| desc := lit "site"; link := lit "http://a/" |}.

(** *** Tokens and documents *)

Definition attr (name value : string) : str * str := (lit name, lit value).

Definition element_of (name : string) (attrs : list (str * str))
  : ElementHandler.Element :=
  {| ElementHandler.tagName := lit name; ElementHandler.attributes := attrs |}.

Definition open_tag (name : string) (attrs : list (str * str))
  : HTMLRewriter.token :=
  HTMLRewriter.StartTag (element_of name attrs) (lit "<" ++ lit name ++ lit ">")
    false.

Definition void_tag (name : string) (attrs : list (str * str))
  : HTMLRewriter.token :=
  HTMLRewriter.StartTag (element_of name attrs) (lit "<" ++ lit name ++ lit ">")
    true.

Definition close_tag (name : string) : HTMLRewriter.token :=
  HTMLRewriter.EndTag (lit "</" ++ lit name ++ lit ">").

Definition text_of (s : string) (last : bool) : ElementHandler.Text :=
  {| ElementHandler.text_ := lit s; ElementHandler.lastInTextNode := last |}.

Definition chunk (s : string) (last : bool) : HTMLRewriter.token :=
  HTMLRewriter.TextChunk (text_of s last).

(** [<!DOCTYPE html><p>C# &amp; more <a href='http://a/'>site</a>
    <img src='cid:logo'> tail</p>], each text node ending with an empty
    last chunk. *)
Definition sample_document : list HTMLRewriter.token :=
  [HTMLRewriter.Doctype (lit "<!DOCTYPE html>");
   open_tag "p" [];
   chunk "C# & more " false; chunk "" true;
   open_tag "a" [attr "href" "http://a/"];
   chunk "site" false; chunk "" true;
   close_tag "a";
   void_tag "img" [attr "src" "cid:logo"];
   chunk " tail" false; chunk "" true;
   close_tag "p"].

(** [<p><br title='###############'></p>] *)
Definition titled_break : list HTMLRewriter.token :=
  [open_tag "p" [];
   HTMLRewriter.StartTag (element_of "br" [attr "title" "###############"])
     (lit "<br title='###############'>") true;
   close_tag "p"].

(** [<video>###############</video>], the text in one chunk. *)
Definition video_text (last : bool) : list HTMLRewriter.token :=
  [open_tag "video" []; chunk "###############" last; close_tag "video"].

(** [<!DOCTYPE html><a href='...'>x</a><br>] on one line, the target being
    the long URL of [long_link], and the tokens of this document. *)
Definition one_line_html : str :=
  lit "<!DOCTYPE html><a href='" ++ link long_link ++ lit "'>x</a><br>".

Definition one_line_tokens : list HTMLRewriter.token :=
  [HTMLRewriter.Doctype (lit "<!DOCTYPE html>");
   HTMLRewriter.StartTag
     {| ElementHandler.tagName := lit "a";
        ElementHandler.attributes := [(lit "href", link long_link)] |}
     (lit "<a href='" ++ link long_link ++ lit "'>") false;
   chunk "x" false; chunk "" true;
   close_tag "a";
   void_tag "br" []].

(** [<head><a href='http://a/'>x</a></head>] *)
Definition head_link : list HTMLRewriter.token :=
  [open_tag "head" [];
   open_tag "a" [attr "href" "http://a/"];
   chunk "x" false; chunk "" true;
   close_tag "a";
   close_tag "head"].

(** [<a name='outer'><a name='inner'></a><img src='cid:logo'>C# notes</a>] *)
Definition nested_anchors : list HTMLRewriter.token :=
  [open_tag "a" [attr "name" "outer"];
   open_tag "a" [attr "name" "inner"];
   close_tag "a";
   void_tag "img" [attr "src" "cid:logo"];
   chunk "C# notes" false; chunk "" true;
   close_tag "a"].

(** [C# <b>notes</b><td>1.5</td><br>], what the anchor
    [<a name='top'>...</a>] of the examples holds. *)
Definition untargeted_content : list HTMLRewriter.token :=
  [chunk "C# " false; chunk "" true;
   open_tag "b" []; chunk "notes" false; chunk "" true; close_tag "b";
   open_tag "td" []; chunk "1.5" false; chunk "" true; close_tag "td";
   void_tag "br" []].

(** *** Mails and Telegrams *)

(** A short plain-text mail, and the same mail with [one_line_html] for
    its body. *)
Definition plain_mail : Worker.Email :=
  {| Worker.from :=
       Some {| Worker.name := Some (lit "Ann");
               Worker.address := lit "ann@example.org" |};
     Worker.to :=
       Some [{| Worker.name := None; Worker.address := lit "bob@example.org" |}];
     Worker.subject := Some (lit "Hi!");
     Worker.date := None;
     Worker.html := None;
     Worker.text := Some (lit "Hello Bob.");
     Worker.attachments := [] |}.

Definition linked_mail : Worker.Email :=
  {| Worker.from := Worker.from plain_mail;
     Worker.to := Worker.to plain_mail;
     Worker.subject := Worker.subject plain_mail;
     Worker.date := None;
     Worker.html := Some one_line_html;
     Worker.text := None;
     Worker.attachments := [] |}.

(** A Telegram that refuses every request and one that accepts every
    request. *)
Definition refuse_all (n : nat) : Worker.response :=
  Worker.NotOk (lit "Bad Request: chat not found").

Definition accept_all (n : nat) : Worker.response :=
  Worker.Ok (Z.of_nat (S n)).

Definition no_requests : Worker.world :=
  {| Worker.linksList := []; Worker.sent := [] |}.

(** The handler with HTMLRewriter reading [tokens] off the body, entities
    decoded by the identity, and the literals of the templates written in
    ASCII. *)
Definition email_on (tokens : list HTMLRewriter.token)
           (respond : nat -> Worker.response)
  : Worker.outcome Worker.Email -> Worker.M unit :=
  Worker.email respond (fun s => s) (fun _ => tokens) false
    (fun s => s) (lit "New mail") (lit "unknown sender")
    (lit "unknown recipient") (lit "(no subject)") (lit "(no content)")
    (lit "(body error)") (lit "TypeError").

Definition email_with (respond : nat -> Worker.response)
  : Worker.outcome Worker.Email -> Worker.M unit :=
  email_on [] respond.

(** The lengths of the texts of the requests made. *)
Definition text_lengths (l : list Worker.request) : list nat :=
  map (fun r => match r with
                | Worker.SendMessage t _ => length t
                | Worker.SendDocument _ _ => 0
                end) l.

(** *** Further Telegrams and worlds *)

(** A Telegram that accepts the first request and refuses every other. *)
Definition refuse_second (n : nat) : Worker.response :=
  match n with
  | 0 => Worker.Ok 7
  | S _ => Worker.NotOk (lit "Too Many Requests")
  end.

(** No request made yet, and the long link left in the queue. *)
Definition crowded : Worker.world :=
  {| Worker.linksList := [long_link]; Worker.sent := [] |}.

(** A plain-text mail with two attachments. *)
Definition report_mail : Worker.Email :=
  {| Worker.from := Worker.from plain_mail;
     Worker.to := Worker.to plain_mail;
     Worker.subject := Some (lit "Report");
     Worker.date := None;
     Worker.html := None;
     Worker.text := Some (lit "See attached.");
     Worker.attachments :=
       [{| Worker.filename := lit "q1.pdf";
           Worker.mimeType := lit "application/pdf" |};
        {| Worker.filename := lit "q1.csv";
           Worker.mimeType := lit "text/csv" |}] |}.

(** A mail that came without a [Subject] header. *)
Definition untitled_mail : Worker.Email :=
  {| Worker.from := Worker.from plain_mail;
     Worker.to := Worker.to plain_mail;
     Worker.subject := None;
     Worker.date := None;
     Worker.html := None;
     Worker.text := Some (lit "Hello Bob.");
     Worker.attachments := [] |}.

(** A mail with an HTML body. *)
Definition offer_mail : Worker.Email :=
  {| Worker.from := Worker.from plain_mail;
     Worker.to := Worker.to plain_mail;
     Worker.subject := Some (lit "Offer");
     Worker.date := None;
     Worker.html := Some (lit "<!DOCTYPE html><p>...</p>");
     Worker.text := None;
     Worker.attachments := [] |}.

End Samples.

Import Samples.

(** ** The requests of a delivery *)

Module ReplyChain.

Import Worker.

(** The payload of the request for [chunk] when [lastMessageId] holds
    [prev]: [reply_to_message_id] is set when [lastMessageId] is truthy. *)
Definition payload (chunk : str) (prev : option Z) : request :=
  SendMessage chunk (if truthy_id prev then prev else None).

(** The requests for [chunks], in order, when [lastMessageId] starts as
    [prev] and Telegram answers the requests with the identifiers [ids]. *)
Definition payloads_from (prev : option Z) (chunks : list str) (ids : list Z)
  : list request :=
  map (fun cp => payload (fst cp) (snd cp))
    (combine chunks (prev :: map Some ids)).

Definition payloads (chunks : list str) (ids : list Z) : list request :=
  payloads_from None chunks ids.

(** Telegram accepts the requests it receives when [n] requests were made
    before, and gives their messages the identifiers [ids]. *)
Definition accepted (respond : nat -> response) (n : nat) (ids : list Z)
  : Prop :=
  forall i id, nth_error ids i = Some id -> respond (n + i) = Ok id.

(** The uploads of [sendAttachment] for the attachments [l], all replies
    to the message [id]. *)
Definition uploads (l : list Attachment) (id : Z) : list request :=
  map (fun a => SendDocument (filename a) id) l.

(** The texts of the [sendMessage] requests among [l]. *)
Fixpoint message_texts (l : list request) : list str :=
  match l with
  | [] => []
  | SendMessage t _ :: r => t :: message_texts r
  | SendDocument _ _ :: r => message_texts r
  end.

End ReplyChain.

Import ReplyChain.

(** ** Blank lines *)

Module Lines.

(** A scan for blank lines: [blank_free after_lf s] holds when [s] has no
    two line feeds with nothing but white space between them; [after_lf]
    tells that the scan stands behind a line feed and white space. *)
Fixpoint blank_free (after_lf : bool) (s : str) : bool :=
  match s with
  | [] => true
  | c :: r =>
      if Ascii.eqb c ElementHandler.newline_char
      then negb after_lf && blank_free true r
      else if is_space c then blank_free after_lf r
      else blank_free false r
  end.

End Lines.

Import Lines.

(** ** The upload of an attachment: the request body of [sendAttachment] *)

Module Multipart.

Import Worker.

(** A [Uint8Array] is the list of its bytes. *)
Definition Uint8Array : Type := list Byte.byte.

(** [new TextEncoder().encode(s)], UTF-8: a code unit below 128 is one
    byte, a code unit from 128 to 255 is two. *)
Definition encode_unit (c : ascii) : Uint8Array :=
  let n := nat_of_ascii c in
  if n <? 128 then [byte_of_ascii c]
  else [byte_of_ascii (ascii_of_nat (192 + n / 64));
        byte_of_ascii (ascii_of_nat (128 + n mod 64))].

Definition encode (s : str) : Uint8Array := flat_map encode_unit s.

(** [new Uint8Array(n)]: [n] zero bytes. *)
Definition zeros (n : nat) : Uint8Array := repeat Byte.x00 n.

(** [target.set(source, offset)]: a [RangeError] ([None]) when the source
    does not fit behind the offset, else the target with the source
    written over the bytes from [offset] on. *)
Definition set (target source : Uint8Array) (offset : nat)
  : option Uint8Array :=
  if offset + length source <=? length target
  then Some (firstn offset target ++ source
             ++ skipn (offset + length source) target)
  else None.

Definition CRLF : str := ["013"%char; "010"%char].

Definition quoted (s : str) : str := ["034"%char] ++ s ++ ["034"%char].

(** [`${replyToMessageId}`] for an integer. *)
Definition number_toString (z : Z) : str :=
  lit (DecimalString.NilZero.string_of_int (Z.to_int z)).

(** [`----WorkerBoundary${Math.random().toString(16)}`], given the digits
    of the random number. *)
Definition boundary (random : str) : str := lit "----WorkerBoundary" ++ random.

Section Body.

Variable random : str.
Variable CHAT_ID : str.
Variable replyToMessageId : Z.
Variable attachment : Attachment.

(** The two entries of [parts]. *)
Definition parts : list str :=
  [lit "--" ++ boundary random ++ CRLF
   ++ lit "Content-Disposition: form-data; name=" ++ quoted (lit "chat_id")
   ++ CRLF ++ CRLF ++ CHAT_ID ++ CRLF;
   lit "--" ++ boundary random ++ CRLF
   ++ lit "Content-Disposition: form-data; name="
   ++ quoted (lit "reply_to_message_id")
   ++ CRLF ++ CRLF ++ number_toString replyToMessageId ++ CRLF].

Definition filePartHeader : str :=
  lit "--" ++ boundary random ++ CRLF
  ++ lit "Content-Disposition: form-data; name=" ++ quoted (lit "document")
  ++ lit "; filename=" ++ quoted (filename attachment) ++ CRLF
  ++ lit "Content-Type: " ++ mimeType attachment ++ CRLF ++ CRLF.

Definition filePartFooter : str :=
  CRLF ++ lit "--" ++ boundary random ++ lit "--" ++ CRLF.

Definition headerBytes : Uint8Array := encode (join [] parts).

Definition fileHeaderBytes : Uint8Array := encode filePartHeader.

Definition fileFooterBytes : Uint8Array := encode filePartFooter.

(** The body [sendAttachment] posts for an attachment whose content is
    [attachmentData]: a buffer of [bodyLength] zero bytes, filled by four
    calls of [set] at the running [offset]. *)
Definition requestBody (attachmentData : Uint8Array) : option Uint8Array :=
  let bodyLength :=
    length headerBytes + length fileHeaderBytes + length attachmentData
    + length fileFooterBytes in
  let requestBody := zeros bodyLength in
  let offset := 0 in
  match set requestBody headerBytes offset with
  | None => None
  | Some requestBody =>
      let offset := offset + length headerBytes in
      match set requestBody fileHeaderBytes offset with
      | None => None
      | Some requestBody =>
          let offset := offset + length fileHeaderBytes in
          match set requestBody attachmentData offset with
          | None => None
          | Some requestBody =>
              let offset := offset + length attachmentData in
              set requestBody fileFooterBytes offset
          end
      end
  end.

(** The [Content-Type] header of the request. *)
Definition contentType : str :=
  lit "multipart/form-data; boundary=" ++ boundary random.

End Body.

End Multipart.

(** ** The earlier versions of the worker

    [worker.js] and the version before it share [escapeMarkdownV2] without
    the look-behind, a [sendSplitMessage] that cuts the text by length
    alone, and a delivery loop that never throws. *)

Module Legacy.

Import Worker.

(** [text.replace(/[_*\[\]()~`>#+\-=|{}.!]/g, '\\$&')] *)
Definition escapeMarkdownV2 (text : str) : str :=
  flat_map (fun c => if reserved c then [backslash; c] else [c]) text.

(** The [for] loop of the splitting, with its index [i]; [fuel] bounds the
    number of rounds. *)
Fixpoint push_loop (fuel i : nat) (chunks : list str) (text : str)
  : list str :=
  match fuel with
  | 0 => chunks
  | S fuel' =>
      if i <? length text
      then push_loop fuel' (i + MAX) (chunks ++ [substring i (i + MAX) text])
             text
      else chunks
  end.

(** [chunks] when the splitting is over. *)
Definition chunks_of (text : str) : list str :=
  if length text <=? MAX then [text]
  else push_loop (S (length text)) 0 [] text.

Section Platform.

Variable respond : nat -> response.

(** The delivery loop: a refusal returns [lastMessageId], be it [null]. *)
Fixpoint deliver (chunks : list str) (lastMessageId : option Z)
  : M (option Z) :=
  match chunks with
  | [] => ret lastMessageId
  | chunk :: rest =>
      fun w =>
        let payload :=
          SendMessage chunk
            (if truthy_id lastMessageId then lastMessageId else None) in
        let w' := {| linksList := linksList w; sent := sent w ++ [payload] |} in
        match respond (length (sent w)) with
        | NotOk description => (Returned lastMessageId, w')
        | Ok id => deliver rest (Some id) w'
        end
  end.

Definition sendSplitMessage (text : str) : M (option Z) :=
  deliver (chunks_of text) None.

(** *** The entry point of the first version

    It parses inside the [try] block, sends the text body, or else the HTML
    body, escaped as it is, and its [catch] block only logs. *)

Variable decode : str -> str.
Variable banner unknown_sender unknown_recipient no_subject no_content : str.

Definition show_address (a : Address) : str :=
  escapeMarkdownV2 (ElementHandler.value (name a))
  ++ lit " <`" ++ address a ++ lit "`\>".

(** [a || b] on strings that may be [undefined]. *)
Definition or_string (a : option str) (b : str) : str :=
  if truthy a then ElementHandler.value a else b.

Definition fullMessageText (p : Email) : str :=
  let from := match from p with
              | Some a => show_address a
              | None => unknown_sender
              end in
  let to := match to p with
            | Some l => join (lit ", ") (map show_address l)
            | None => unknown_recipient
            end in
  let subject := or_string (subject p) no_subject in
  let body := or_string (text p) (or_string (html p) no_content) in
  let body := decode body in
  ElementHandler.newline ++ banner ++ ElementHandler.newline
  ++ lit "**" ++ subject ++ lit "**" ++ ElementHandler.newline
  ++ lit "**From:** " ++ from ++ ElementHandler.newline
  ++ lit "**To:** " ++ to ++ ElementHandler.newline
  ++ lit "\-\-\-" ++ ElementHandler.newline
  ++ escapeMarkdownV2 body ++ ElementHandler.newline ++ lit "      ".

Definition email (parsed : outcome Email) : M unit :=
  try_catch
    (match parsed with
     | Thrown e => throw e
     | Returned p =>
         bind (sendSplitMessage (fullMessageText p))
           (fun firstMessageId =>
              if (0 <? length (attachments p)) && truthy_id firstMessageId
              then sendAttachments (attachments p) (id_of firstMessageId)
              else ret tt)
     end)
    (fun _ => ret tt).

End Platform.

End Legacy.

(** * Properties *)

(** ** Strings *)

Module JsStringFacts.

Lemma eqb_str_eq (a : str) : forall b, eqb_str a b = true <-> a = b.
Proof.
  induction a as [|x a IH]; intros [|y b]; cbn [eqb_str];
    try (split; [discriminate|discriminate]); [tauto|].
  rewrite andb_true_iff, Ascii.eqb_eq, IH. split.
  - intros [-> ->]. reflexivity.
  - intros E. injection E as -> ->. auto.
Qed.

Lemma includes_In (l : list str) (x : str) : includes l x = true <-> In x l.
Proof.
  unfold includes. rewrite existsb_exists. split.
  - intros (y & Hy & E). apply eqb_str_eq in E. now subst.
  - intros H. exists x. split; [exact H|]. now apply eqb_str_eq.
Qed.

End JsStringFacts.

Import JsStringFacts.

(** ** The markup escaper *)

Module EscaperFacts.

Lemma backslash_not_reserved : reserved backslash = false.
Proof. reflexivity. Qed.

Lemma after_backslash : not_after_backslash (Some backslash) = false.
Proof. reflexivity. Qed.

#[global] Arguments reserved : simpl never.
#[global] Arguments not_after_backslash : simpl never.

(** An escaped pair is a fixed point of the scan, whatever precedes it. *)
Lemma replace_from_pair (prev : option ascii) (c : ascii) (t : str) :
  replace_from prev (backslash :: c :: t) =
  backslash :: c :: replace_from (Some c) t.
Proof.
  cbn [replace_from]. rewrite backslash_not_reserved, after_backslash.
  cbn [andb]. now rewrite andb_false_r.
Qed.

Lemma replace_from_idem (s : str) :
  forall prev, replace_from prev (replace_from prev s) = replace_from prev s.
Proof.
  induction s as [|c r IH]; intros prev; [reflexivity|].
  cbn [replace_from].
  destruct (reserved c && not_after_backslash prev) eqn:E.
  - rewrite replace_from_pair. now rewrite IH.
  - cbn [replace_from]. rewrite E. now rewrite IH.
Qed.

Lemma replace_from_inserted (s : str) :
  forall prev, inserted s (replace_from prev s).
Proof.
  induction s as [|c r IH]; intros prev; cbn [replace_from]; [constructor|].
  destruct (reserved c && not_after_backslash prev) eqn:E.
  - apply andb_prop in E. destruct E as [E _]. now apply ins_esc.
  - now apply ins_keep.
Qed.

Lemma last_char_cons (prev : option ascii) (c : ascii) (s : str) :
  last_char prev (c :: s) = last_char (Some c) s.
Proof.
  unfold last_char. cbn [rev].
  destruct (rev s) as [|d l]; reflexivity.
Qed.

(** The scan of a concatenation: the look-behind of the second part sees
    the last character of the first. *)
Lemma replace_from_app (s1 s2 : str) :
  forall prev,
    replace_from prev (s1 ++ s2) =
    replace_from prev s1 ++ replace_from (last_char prev s1) s2.
Proof.
  induction s1 as [|c r IH]; intros prev; [reflexivity|].
  rewrite last_char_cons. cbn [app replace_from]. rewrite IH.
  destruct (reserved c && not_after_backslash prev); reflexivity.
Qed.

Lemma replace_from_guarded (s : str) :
  forall prev, guarded prev (replace_from prev s) = true.
Proof.
  induction s as [|c r IH]; intros prev; [reflexivity|].
  cbn [replace_from].
  destruct (reserved c && not_after_backslash prev) eqn:E; cbn [guarded].
  - rewrite backslash_not_reserved, after_backslash, IH.
    cbn [andb negb]. now rewrite andb_false_r.
  - now rewrite E, IH.
Qed.

End EscaperFacts.

Import EscaperFacts.

(** C4: [escapeMarkdownV2] is idempotent; a reserved character that already
    follows a backslash in the input is left as it is; and the output is the
    input with backslashes inserted in front of reserved characters only, so
    no other character is modified. *)
Theorem escapeMarkdownV2_idempotent :
  forall s : str,
    escapeMarkdownV2 (escapeMarkdownV2 s) = escapeMarkdownV2 s
    /\ (forall (s1 s2 : str) (c : ascii),
          escapeMarkdownV2 (s1 ++ backslash :: c :: s2) =
          escapeMarkdownV2 s1 ++ backslash :: c :: replace_from (Some c) s2)
    /\ inserted s (escapeMarkdownV2 s).
Proof.
  intros s. split; [apply replace_from_idem|]. split.
  - intros s1 s2 c. unfold escapeMarkdownV2.
    now rewrite replace_from_app, replace_from_pair.
  - apply replace_from_inserted.
Qed.

(** ** The chunker / reinserter *)

Module ChunkerFacts.

Lemma MAX_pos : 0 < MAX.
Proof. unfold MAX_TELEGRAM_MESSAGE_LENGTH. lia. Qed.

#[global] Opaque MAX_TELEGRAM_MESSAGE_LENGTH.

(** *** [split] *)

Lemma split_scan_length (text : str) :
  forall cur k, 1 <= length (split_scan cur k text).
Proof.
  induction text as [|c r IH]; intros cur k; cbn [split_scan].
  - simpl. lia.
  - destruct (Ascii.eqb c hash); [destruct (k =? 14)|]; cbn [length];
      try apply IH; lia.
Qed.

Lemma split_nonempty (text : str) : 1 <= length (split_linkReplacer text).
Proof. apply split_scan_length. Qed.

(** Joining the fragments with the marker gives the text back. *)
Lemma split_scan_join (text : str) :
  forall cur k,
    join marker (split_scan cur k text) = cur ++ repeat_char hash k ++ text.
Proof.
  induction text as [|c r IH]; intros cur k; cbn [split_scan].
  - cbn [join]. now rewrite app_nil_r.
  - destruct (Ascii.eqb c hash) eqn:Ec.
    + apply Ascii.eqb_eq in Ec. subst c.
      assert (R : forall n, repeat_char hash n ++ hash :: r =
                            repeat_char hash (S n) ++ r).
      { intros n. unfold repeat_char.
        change (hash :: r) with ([hash] ++ r).
        now rewrite app_assoc, <- repeat_cons. }
      destruct (k =? 14) eqn:Ek.
      * apply Nat.eqb_eq in Ek. subst k.
        pose proof (split_scan_length r [] 0) as L.
        destruct (split_scan [] 0 r) as [|f fs] eqn:E; [simpl in L; lia|].
        change (join marker (cur :: f :: fs))
          with (cur ++ marker ++ join marker (f :: fs)).
        rewrite <- E, IH, R. reflexivity.
      * now rewrite IH, R.
    + rewrite IH. cbn [repeat_char repeat app].
      now rewrite <- !app_assoc.
Qed.

Lemma split_join (text : str) : join marker (split_linkReplacer text) = text.
Proof. apply split_scan_join. Qed.

Lemma split_scan_hits (text : str) :
  forall cur k, length (split_scan cur k text) = S (hits k text).
Proof.
  induction text as [|c r IH]; intros cur k; cbn [split_scan hits].
  - reflexivity.
  - destruct (Ascii.eqb c hash); [destruct (k =? 14)|]; cbn [length];
      now rewrite IH.
Qed.

Lemma count_markers_hits (text : str) : count_markers text = hits 0 text.
Proof.
  unfold count_markers, split_linkReplacer. rewrite split_scan_hits. lia.
Qed.

Lemma hits_app (s1 s2 : str) :
  forall k, hits k (s1 ++ s2) = hits k s1 + hits (pend k s1) s2.
Proof.
  induction s1 as [|c r IH]; intros k; cbn [app hits pend]; [reflexivity|].
  destruct (Ascii.eqb c hash); [destruct (k =? 14)|]; rewrite IH; lia.
Qed.

Lemma pend_app (s1 s2 : str) :
  forall k, pend k (s1 ++ s2) = pend (pend k s1) s2.
Proof.
  induction s1 as [|c r IH]; intros k; cbn [app pend]; [reflexivity|].
  destruct (Ascii.eqb c hash); [destruct (k =? 14)|]; now rewrite IH.
Qed.

Lemma harmless_nil : harmless [].
Proof. intros k Hk. cbn. lia. Qed.

Lemma harmless_app (w1 w2 : str) :
  harmless w1 -> harmless w2 -> harmless (w1 ++ w2).
Proof.
  intros H1 H2 k Hk. rewrite hits_app, pend_app.
  destruct (H1 k Hk) as [A B]. destruct (H2 _ B) as [C D]. lia.
Qed.

Lemma marking_app (w1 w2 : str) :
  marking w1 -> harmless w2 -> marking (w1 ++ w2).
Proof.
  intros H1 H2 k Hk. rewrite hits_app, pend_app.
  destruct (H1 k Hk) as [A B]. destruct (H2 _ B) as [C D]. lia.
Qed.

Lemma marker_marking : marking marker.
Proof.
  intros k Hk. destruct k as [|[|k]]; [split; vm_compute; lia ..|lia].
Qed.

Lemma guarded_scan (g : str) :
  forall prev k,
    guarded prev g = true ->
    k <= 1 ->
    (k = 1 -> not_after_backslash prev = true) ->
    hits k g = 0 /\ pend k g <= 1.
Proof.
  induction g as [|c r IH]; intros prev k G Hk Hp; cbn [hits pend].
  - lia.
  - cbn [guarded] in G. apply andb_prop in G. destruct G as [G1 G2].
    destruct (Ascii.eqb c hash) eqn:Ec.
    + apply Ascii.eqb_eq in Ec. subst c.
      assert (R : reserved hash = true) by reflexivity.
      rewrite R in G1. cbn [andb] in G1. apply negb_true_iff in G1.
      assert (k = 0) as -> by (destruct k as [|[|k]]; [reflexivity| |lia];
                               rewrite Hp in G1; [discriminate|reflexivity]).
      cbn [Nat.eqb]. apply (IH (Some hash) 1 G2); [lia|reflexivity].
    + apply (IH (Some c) 0 G2); lia.
Qed.

Lemma escaped_harmless (x : str) : harmless (escapeMarkdownV2 x).
Proof.
  intros k Hk. apply guarded_scan with (prev := None); auto.
  apply replace_from_guarded.
Qed.

(** *** [splitAndPush] *)

Lemma firstn_short (A : Type) (n : nat) (l : list A) :
  length (firstn n l) < n -> firstn n l = l.
Proof.
  intros H. rewrite length_firstn in H.
  apply firstn_all2. lia.
Qed.

Lemma splitAndPush_loop_spec (text : str) (fuel : nat) :
  forall i arr,
    length text < i + fuel ->
    exists ps rem,
      splitAndPush_loop fuel i arr text = (arr ++ ps, rem)
      /\ concat ps ++ rem = skipn i text
      /\ Forall (fun p => length p = MAX) ps
      /\ length rem < MAX.
Proof.
  pose proof MAX_pos as HM.
  induction fuel as [|f IH]; intros i arr Hf; cbn [splitAndPush_loop].
  - exists [], []. rewrite app_nil_r. repeat split; auto.
    simpl. symmetry. apply skipn_all2. lia.
  - destruct (i <? length text) eqn:Ei.
    + apply Nat.ltb_lt in Ei.
      unfold substring. replace (i + MAX - i) with MAX by lia.
      destruct (length (firstn MAX (skipn i text)) <? MAX) eqn:El.
      * apply Nat.ltb_lt in El.
        exists [], (firstn MAX (skipn i text)).
        rewrite app_nil_r. repeat split; auto.
        simpl. now apply firstn_short.
      * apply Nat.ltb_ge in El.
        destruct (IH (i + MAX) (arr ++ [firstn MAX (skipn i text)]))
          as (ps & rem & E & Hc & Hp & Hr); [lia|].
        exists (firstn MAX (skipn i text) :: ps), rem.
        rewrite <- app_assoc in E. split; [exact E|].
        repeat split; auto.
        -- cbn [concat]. rewrite <- app_assoc, Hc.
           rewrite Nat.add_comm, <- skipn_skipn.
           apply firstn_skipn.
        -- constructor; auto.
           rewrite length_firstn in *. lia.
    + apply Nat.ltb_ge in Ei.
      exists [], []. rewrite app_nil_r. repeat split; auto.
      simpl. symmetry. now apply skipn_all2.
Qed.

(** The loop never stops for want of fuel: any larger bound gives the
    result of [splitAndPush]. *)
Lemma splitAndPush_fuel (arr : list str) (text : str) (fuel : nat) :
  length text < fuel ->
  splitAndPush_loop fuel 0 arr text = splitAndPush arr text.
Proof.
  pose proof MAX_pos as HM. unfold splitAndPush.
  assert (G : forall f1 f2 i a,
             length text < i + f1 -> length text < i + f2 ->
             splitAndPush_loop f1 i a text = splitAndPush_loop f2 i a text).
  { induction f1 as [|f1 IH]; intros f2 i a H1 H2.
    - destruct f2 as [|f2]; [reflexivity|]. cbn [splitAndPush_loop].
      destruct (i <? length text) eqn:E; [|reflexivity].
      apply Nat.ltb_lt in E. lia.
    - destruct f2 as [|f2]; cbn [splitAndPush_loop].
      + destruct (i <? length text) eqn:E; [|reflexivity].
        apply Nat.ltb_lt in E. lia.
      + destruct (i <? length text) eqn:E; [|reflexivity].
        destruct (length (substring i (i + MAX) text) <? MAX);
          [reflexivity|].
        apply IH; lia. }
  intros H. apply G; lia.
Qed.

Lemma splitAndPush_spec (arr : list str) (text : str) :
  exists ps rem,
    splitAndPush arr text = (arr ++ ps, rem)
    /\ concat ps ++ rem = text
    /\ Forall (fun p => length p = MAX) ps
    /\ length rem < MAX.
Proof.
  unfold splitAndPush.
  destruct (splitAndPush_loop_spec text (S (length text)) 0 arr)
    as (ps & rem & E & Hc & Hp & Hr); [lia|].
  exists ps, rem. repeat split; auto.
Qed.

(** *** One round of the loop *)

Lemma add_fragment_spec (cs : list str) (b t : str) :
  exists ps b',
    add_fragment (cs, b) t = (cs ++ ps, b')
    /\ concat ps ++ b' = b ++ t
    /\ Forall (fun p => length p = MAX) ps
    /\ length b' <= MAX
    /\ (length (b ++ t) <= MAX -> ps = []).
Proof.
  unfold add_fragment. cbn [fst snd].
  destruct (MAX <? length (b ++ t)) eqn:E.
  - apply Nat.ltb_lt in E.
    destruct (splitAndPush_spec cs (b ++ t)) as (ps & r & H & Hc & Hp & Hr).
    exists ps, r. repeat split; auto; lia.
  - apply Nat.ltb_ge in E. exists [], (b ++ t).
    rewrite app_nil_r. repeat split; auto.
Qed.

Lemma add_link_spec (cs : list str) (b : str) (l : descriptor) :
  length b <= MAX ->
  exists ps b0,
    add_link (cs, b) l = (cs ++ ps, b0 ++ linkEntity l)
    /\ concat ps ++ b0 = b
    /\ Forall short ps
    /\ (length (b0 ++ linkEntity l) <= MAX \/ b0 = []).
Proof.
  intros Hb. unfold add_link. cbn [fst snd].
  destruct (MAX <? length b + length (linkEntity l)) eqn:E.
  - exists [b], []. cbn [concat app]. rewrite !app_nil_r.
    repeat split; auto.
  - apply Nat.ltb_ge in E. exists [], b. rewrite app_nil_r.
    repeat split; auto. left. rewrite length_app. lia.
Qed.

Lemma linkEntity_nonempty (l : descriptor) : 0 < length (linkEntity l).
Proof. unfold linkEntity. cbn. lia. Qed.

Lemma Forall_exact_short (ps : list str) :
  Forall (fun p => length p = MAX) ps -> Forall short ps.
Proof.
  apply Forall_impl. intros p H. unfold short. lia.
Qed.

Lemma iteration_linksList (s : loop_state) (t : str) :
  linksList (iteration s t) = tl (linksList s).
Proof. unfold iteration. destruct (linksList s); reflexivity. Qed.

Lemma fold_linksList (frs : list str) :
  forall s,
    linksList (fold_left iteration frs s) = skipn (length frs) (linksList s).
Proof.
  induction frs as [|t r IH]; intros s; [reflexivity|].
  cbn [fold_left length]. rewrite IH, iteration_linksList.
  destruct (linksList s); [now rewrite skipn_nil|reflexivity].
Qed.

(** Finished Segments never exceed [MAX], whatever the queue holds. *)
Lemma iteration_chunks_short (s : loop_state) (t : str) :
  Forall short (chunks s) -> Forall short (chunks (iteration s t)).
Proof.
  intros H. unfold iteration.
  destruct (add_fragment_spec (chunks s) (builder s) t)
    as (ps & b' & E & _ & Hp & Hb & _).
  rewrite E. cbn [fst snd].
  assert (H1 : Forall short (chunks s ++ ps)).
  { apply Forall_app. split; [exact H|now apply Forall_exact_short]. }
  destruct (linksList s) as [|l rest]; cbn [chunks]; [exact H1|].
  destruct (add_link_spec (chunks s ++ ps) b' l Hb)
    as (qs & b0 & E' & _ & Hq & _).
  rewrite E'. cbn [fst]. apply Forall_app. now split.
Qed.

Lemma fold_chunks_short (frs : list str) :
  forall s,
    Forall short (chunks s) ->
    Forall short (chunks (fold_left iteration frs s)).
Proof.
  induction frs as [|t r IH]; intros s H; [exact H|].
  cbn [fold_left]. apply IH. now apply iteration_chunks_short.
Qed.

(** The builder a round leaves behind is short unless the round appended
    an entity that is itself longer than [MAX]. *)
Lemma iteration_builder_short (s : loop_state) (t : str) :
  (forall l, hd_error (linksList s) = Some l -> short (linkEntity l)) ->
  short (builder (iteration s t)).
Proof.
  intros H. unfold iteration.
  destruct (add_fragment_spec (chunks s) (builder s) t)
    as (ps & b' & E & _ & _ & Hb & _).
  rewrite E. cbn [fst snd].
  destruct (linksList s) as [|l rest]; cbn [builder]; [exact Hb|].
  destruct (add_link_spec (chunks s ++ ps) b' l Hb)
    as (qs & b0 & E' & _ & _ & [Hs|Hs]).
  - rewrite E'. exact Hs.
  - rewrite E', Hs. apply H. reflexivity.
Qed.

Lemma flush_short (s : loop_state) :
  Forall short (chunks s) -> short (builder s) -> Forall short (flush s).
Proof.
  intros Hc Hb. unfold flush.
  destruct (0 <? length (builder s)); [|exact Hc].
  apply Forall_app. split; [exact Hc|]. now constructor.
Qed.

Lemma hd_error_skipn (A : Type) (n : nat) (l : list A) :
  hd_error (skipn n l) = nth_error l n.
Proof.
  revert l. induction n as [|n IH]; intros [|x l]; cbn; auto.
Qed.

(** *** The rendered stream is what the Segments spell out *)

Lemma stream_iteration (s : loop_state) (t : str) :
  stream (iteration s t) =
  stream s ++ t ++ match linksList s with
                   | [] => []
                   | l :: _ => linkEntity l
                   end.
Proof.
  unfold iteration, stream.
  destruct (add_fragment_spec (chunks s) (builder s) t)
    as (ps & b' & E & Hc & _ & Hb & _).
  rewrite E. cbn [fst snd].
  destruct (linksList s) as [|l rest]; cbn [chunks builder].
  - now rewrite concat_app, app_nil_r, <- !app_assoc, Hc.
  - destruct (add_link_spec (chunks s ++ ps) b' l Hb)
      as (qs & b0 & E' & Hc' & _ & _).
    rewrite E'. cbn [fst snd].
    rewrite !concat_app, <- !app_assoc.
    rewrite (app_assoc (concat qs)), Hc'.
    now rewrite (app_assoc (concat ps)), Hc, <- app_assoc.
Qed.

Lemma stream_fold (frs : list str) :
  forall s,
    stream (fold_left iteration frs s) = stream s ++ rendered frs (linksList s).
Proof.
  induction frs as [|t r IH]; intros s; cbn [fold_left rendered].
  - now rewrite app_nil_r.
  - rewrite IH, stream_iteration, iteration_linksList.
    destruct (linksList s) as [|l q']; cbn [tl];
      now rewrite <- ?app_assoc, ?app_nil_l.
Qed.

Lemma concat_flush (s : loop_state) : concat (flush s) = stream s.
Proof.
  unfold flush, stream.
  destruct (0 <? length (builder s)) eqn:E.
  - rewrite concat_app. cbn [concat]. now rewrite app_nil_r.
  - apply Nat.ltb_ge in E. destruct (builder s); [|simpl in E; lia].
    now rewrite app_nil_r.
Qed.

(** *** Where an entity sits *)

Lemma located_app (cs more : list str) (w e : str) :
  located cs w e -> located (cs ++ more) w e.
Proof.
  intros (cs1 & pre & post & cs2 & E & Hw).
  exists cs1, pre, post, (cs2 ++ more). split; [|exact Hw].
  now rewrite E, <- app_assoc.
Qed.

Lemma prefix_split (A : Type) (a : list A) :
  forall p r c, p ++ r = a ++ c -> length a <= length p -> exists x, p = a ++ x.
Proof.
  induction a as [|y a IH]; intros p r c E L.
  - now exists p.
  - destruct p as [|z p]; [simpl in L; lia|].
    cbn [app] in E. injection E as -> E.
    destruct (IH p r c E) as (x & ->); [simpl in L; lia|].
    now exists x.
Qed.

Lemma add_fragment_placed (cs : list str) (b t w e : str) :
  placed (cs, b) w e -> placed (add_fragment (cs, b) t) w e.
Proof.
  destruct (add_fragment_spec cs b t) as (ps & b' & E & Hc & Hp & Hb & Hs).
  rewrite E. unfold placed. cbn [fst snd].
  intros [H|(pre & post & Eb & Hw & Hl)].
  - left. now apply located_app.
  - destruct ps as [|p ps'].
    + right. rewrite app_nil_r. exists pre, (post ++ t).
      cbn [concat app] in Hc. rewrite Hc, Eb, <- !app_assoc. auto.
    + left. inversion Hp as [|? ? Hp1 Hp2]; subst.
      cbn [concat] in Hc. rewrite <- !app_assoc in Hc.
      rewrite (app_assoc pre) in Hc.
      destruct (prefix_split _ _ _ _ _ Hc) as (x & Ex).
      { rewrite length_app. lia. }
      exists cs, pre, x, ps'. split; [|reflexivity].
      now rewrite Ex, <- app_assoc.
Qed.

Lemma add_link_placed (cs : list str) (b w e : str) (l : descriptor) :
  placed (cs, b) w e -> placed (add_link (cs, b) l) w e.
Proof.
  unfold placed, add_link. cbn [fst snd].
  destruct (MAX <? length b + length (linkEntity l)); cbn [fst snd].
  - intros [H|(pre & post & Eb & Hw & Hl)]; left.
    + now apply located_app.
    + exists cs, pre, post, []. now rewrite Eb.
  - intros [H|(pre & post & Eb & Hw & Hl)]; [now left|right].
    exists pre, (post ++ linkEntity l). now rewrite Eb, <- !app_assoc.
Qed.

(** A fitting entity enters the builder whole and inside its first [MAX]
    characters: appended when it fits, alone after the flush otherwise. *)
Lemma add_link_new (cs : list str) (b : str) (l : descriptor) :
  length (linkEntity l) <= MAX ->
  placed (add_link (cs, b) l) (concat cs ++ b) (linkEntity l).
Proof.
  intros He. unfold placed, add_link. cbn [fst snd]. right.
  destruct (MAX <? length b + length (linkEntity l)) eqn:E; cbn [fst snd].
  - exists [], []. rewrite concat_app. cbn. now rewrite !app_nil_r.
  - apply Nat.ltb_ge in E. exists b, []. now rewrite app_nil_r.
Qed.

Lemma iteration_placed (s : loop_state) (t w e : str) :
  placed_in s w e -> placed_in (iteration s t) w e.
Proof.
  unfold placed_in, iteration. intros H.
  apply add_fragment_placed with (t := t) in H.
  destruct (add_fragment (chunks s, builder s) t) as [cs' b'].
  destruct (linksList s) as [|l rest]; cbn [chunks builder fst snd].
  - exact H.
  - apply add_link_placed with (l := l) in H.
    now destruct (add_link (cs', b') l).
Qed.

Lemma fold_placed (frs : list str) (w e : str) :
  forall s, placed_in s w e -> placed_in (fold_left iteration frs s) w e.
Proof.
  induction frs as [|t r IH]; intros s H; [exact H|].
  cbn [fold_left]. apply IH. now apply iteration_placed.
Qed.

Lemma flush_located (s : loop_state) (w e : str) :
  0 < length e -> placed_in s w e -> located (flush s) w e.
Proof.
  intros He [H|(pre & post & Eb & Hw & Hl)]; cbn [fst snd] in *; unfold flush.
  - destruct (0 <? length (builder s)); [now apply located_app|exact H].
  - destruct (0 <? length (builder s)) eqn:E.
    + exists (chunks s), pre, post, []. now rewrite Eb.
    + apply Nat.ltb_ge in E. rewrite Eb, !length_app in E. lia.
Qed.

Lemma located_fold (frs : list str) :
  forall s i l,
    nth_error (linksList s) i = Some l ->
    i < length frs ->
    length (linkEntity l) <= MAX ->
    located (flush (fold_left iteration frs s))
      (stream s ++ rendered_before frs (linksList s) i) (linkEntity l).
Proof.
  induction frs as [|t r IH]; intros s i l Hn Hi He; [simpl in Hi; lia|].
  cbn [fold_left].
  destruct (linksList s) as [|l0 q'] eqn:Eq; [destruct i; discriminate|].
  destruct i as [|j].
  - injection Hn as ->. cbn [rendered_before].
    apply flush_located; [apply linkEntity_nonempty|].
    apply fold_placed. unfold placed_in, iteration. rewrite Eq.
    destruct (add_fragment_spec (chunks s) (builder s) t)
      as (ps & b' & E & Hc & _ & Hb & _).
    rewrite E. cbn [fst snd].
    pose proof (add_link_new (chunks s ++ ps) b' l He) as H.
    destruct (add_link (chunks s ++ ps, b') l) as [cs2 b2].
    cbn [chunks builder]. unfold stream.
    rewrite concat_app, <- !app_assoc, Hc in H. now rewrite <- app_assoc.
  - cbn [nth_error] in Hn. cbn [length] in Hi.
    specialize (IH (iteration s t) j l).
    rewrite iteration_linksList, Eq in IH. cbn [tl] in IH.
    specialize (IH Hn ltac:(lia) He).
    rewrite stream_iteration, Eq in IH. cbn [rendered_before].
    now rewrite <- !app_assoc in IH.
Qed.

(** *** Where an entity longer than [MAX] is cut *)

Lemma severed_app (cs more : list str) (w e : str) :
  severed cs w e -> severed (cs ++ more) w e.
Proof.
  intros (cs1 & cs2 & E & Hw). exists cs1, (cs2 ++ more).
  split; [|exact Hw]. now rewrite E, <- app_assoc.
Qed.

Lemma iteration_chunks_grow (s : loop_state) (t : str) :
  exists more, chunks (iteration s t) = chunks s ++ more.
Proof.
  unfold iteration.
  destruct (add_fragment_spec (chunks s) (builder s) t)
    as (ps & b' & E & _ & _ & Hb & _).
  rewrite E. cbn [fst snd].
  destruct (linksList s) as [|l rest]; cbn [chunks]; [now exists ps|].
  destruct (add_link_spec (chunks s ++ ps) b' l Hb) as (qs & b0 & E' & _).
  rewrite E'. cbn [fst]. exists (ps ++ qs). now rewrite app_assoc.
Qed.

Lemma fold_chunks_grow (frs : list str) :
  forall s, exists more, chunks (fold_left iteration frs s) = chunks s ++ more.
Proof.
  induction frs as [|t r IH]; intros s; cbn [fold_left].
  - exists []. now rewrite app_nil_r.
  - destruct (IH (iteration s t)) as (m1 & ->).
    destruct (iteration_chunks_grow s t) as (m2 & ->).
    exists (m2 ++ m1). now rewrite app_assoc.
Qed.

Lemma flush_grows (s : loop_state) : exists more, flush s = chunks s ++ more.
Proof.
  unfold flush. destruct (0 <? length (builder s)).
  - now exists [builder s].
  - exists []. now rewrite app_nil_r.
Qed.

(** An entity longer than [MAX] never fits behind the builder: the builder
    is flushed and the entity is the new builder. *)
Lemma add_link_long (cs : list str) (b : str) (l : descriptor) :
  MAX < length (linkEntity l) ->
  add_link (cs, b) l = (cs ++ [b], linkEntity l).
Proof.
  intros H. unfold add_link. cbn [fst snd].
  destruct (MAX <? length b + length (linkEntity l)) eqn:E; [reflexivity|].
  apply Nat.ltb_ge in E. lia.
Qed.

(** The overflow check of the next round cuts a builder that starts with
    more than [MAX] characters of [e] behind the first [MAX] of them. *)
Lemma add_fragment_long (cs : list str) (e t : str) :
  MAX < length e ->
  exists ps b',
    add_fragment (cs, e) t = (cs ++ firstn MAX e :: ps, b')
    /\ length b' <= MAX.
Proof.
  intros He.
  destruct (add_fragment_spec cs e t) as (ps & b' & E & Hc & Hp & Hb & _).
  destruct ps as [|p ps'].
  - cbn [concat app] in Hc. rewrite Hc, length_app in Hb. lia.
  - exists ps', b'. split; [|exact Hb]. rewrite E. do 3 f_equal.
    inversion Hp as [|? ? Hp1 _]; subst. cbn [concat] in Hc.
    rewrite <- app_assoc in Hc.
    assert (Hp' : p = firstn MAX (e ++ t)).
    { rewrite <- Hc, firstn_app, Hp1, Nat.sub_diag. cbn [firstn].
      rewrite app_nil_r, <- Hp1. symmetry. apply firstn_all. }
    rewrite Hp', firstn_app.
    replace (MAX - length e) with 0 by lia.
    cbn [firstn]. now rewrite app_nil_r.
Qed.

Lemma severed_fold (frs : list str) :
  forall s i l,
    nth_error (linksList s) i = Some l ->
    S i < length frs ->
    MAX < length (linkEntity l) ->
    severed (flush (fold_left iteration frs s))
      (stream s ++ rendered_before frs (linksList s) i) (linkEntity l).
Proof.
  induction frs as [|t r IH]; intros s i l Hn Hi He; [simpl in Hi; lia|].
  cbn [fold_left].
  destruct (linksList s) as [|l0 q'] eqn:Eq; [destruct i; discriminate|].
  destruct i as [|j].
  - injection Hn as ->. cbn [rendered_before].
    destruct r as [|t' r']; [simpl in Hi; lia|]. cbn [fold_left].
    destruct (flush_grows (fold_left iteration r' (iteration (iteration s t) t')))
      as (m1 & ->).
    destruct (fold_chunks_grow r' (iteration (iteration s t) t')) as (m2 & ->).
    do 2 apply severed_app.
    assert (E1 : exists cs,
               chunks (iteration s t) = cs
               /\ builder (iteration s t) = linkEntity l
               /\ concat cs = stream s ++ t).
    { unfold iteration. rewrite Eq.
      destruct (add_fragment_spec (chunks s) (builder s) t)
        as (ps & b' & E & Hc & _ & Hb & _).
      rewrite E, (add_link_long _ _ _ He). cbn [fst snd chunks builder].
      eexists. repeat split. unfold stream.
      rewrite !concat_app. cbn [concat]. rewrite app_nil_r.
      now rewrite <- !app_assoc, Hc. }
    destruct E1 as (cs & E1 & E2 & E3).
    unfold iteration at 1. rewrite E1, E2.
    destruct (add_fragment_long cs (linkEntity l) t' He)
      as (ps & b' & -> & Hb').
    cbn [fst snd].
    destruct (linksList (iteration s t)) as [|l1 q1]; cbn [chunks].
    + exists cs, ps. split; [reflexivity|exact E3].
    + destruct (add_link_spec (cs ++ firstn MAX (linkEntity l) :: ps) b' l1 Hb')
        as (qs & b0 & E' & _).
      rewrite E'. cbn [fst]. apply severed_app.
      exists cs, ps. split; [reflexivity|exact E3].
  - cbn [nth_error] in Hn. cbn [length] in Hi.
    specialize (IH (iteration s t) j l).
    rewrite iteration_linksList, Eq in IH. cbn [tl] in IH.
    specialize (IH Hn ltac:(lia) He).
    rewrite stream_iteration, Eq in IH. cbn [rendered_before].
    now rewrite <- !app_assoc in IH.
Qed.

(** Segments that are all shorter than [e] cannot hold it. *)
Lemma too_short_to_hold (cs : list str) (e : str) :
  Forall (fun seg => length seg < length e) cs ->
  ~ exists cs1 pre post cs2, cs = cs1 ++ (pre ++ e ++ post) :: cs2.
Proof.
  intros F (cs1 & pre & post & cs2 & E).
  rewrite E in F. apply Forall_app in F. destruct F as [_ F].
  apply Forall_inv in F. rewrite !length_app in F. lia.
Qed.

Lemma segments_spell_rendered (text : str) (q : list descriptor) :
  concat (segments text q) = rendered (split_linkReplacer text) q.
Proof.
  unfold segments, chunk_loop. now rewrite concat_flush, stream_fold.
Qed.

End ChunkerFacts.

Import ChunkerFacts.

(** ** The transducer *)

Module TransducerFacts.

Import ElementHandler HTMLRewriter.

Lemma hash_free_harmless (s : str) : hash_free s = true -> harmless s.
Proof.
  induction s as [|c r IH]; intros H k Hk; cbn [hits pend]; [lia|].
  cbn [hash_free forallb] in H. apply andb_prop in H. destruct H as [Hc Hr].
  apply negb_true_iff in Hc. rewrite Hc. apply (IH Hr 0). lia.
Qed.

Section Facts.

Variable fires_in_removed : bool.
Variable decode : str -> str.

Abbreviation text := (ElementHandler.text decode).
Abbreviation react := (HTMLRewriter.react fires_in_removed decode).
Abbreviation step := (HTMLRewriter.step fires_in_removed decode).
Abbreviation transform := (HTMLRewriter.transform fires_in_removed decode).
Abbreviation quiet_step := (HTMLRewriter.quiet_step fires_in_removed decode).
Abbreviation quiet := (HTMLRewriter.quiet fires_in_removed decode).
Abbreviation escaped_text := (HTMLRewriter.escaped_text decode).
Abbreviation plain_piece := (HTMLRewriter.plain_piece decode).

(** *** The text callback *)

(** Each call either queues nothing and replaces the chunk, if at all, by a
    harmless text, or queues one descriptor and replaces the chunk by the
    marker. *)
Lemma text_cases (h : this) (q : list descriptor) (t : Text) :
  let '(_, q', m) := text h q t in
  harmless (after m)
  /\ ((q' = q /\ harmless (value (replaced m)))
      \/ (exists d, q' = q ++ [d] /\ replaced m = Some marker)).
Proof.
  unfold ElementHandler.text.
  assert (A : harmless (if eqb_str (tag h) (lit "td") then lit " " else [])).
  { destruct (eqb_str (tag h) (lit "td")); now apply hash_free_harmless. }
  destruct (eqb_str (tag h) (lit "a") && truthy (herf h)).
  { split; [exact A|]. right. eexists. split; reflexivity. }
  destruct (includes media_tags (tag h) && negb (nestedInA h)).
  { destruct (lastInTextNode t && truthy (src h)).
    - split; [exact A|]. right. eexists. split; reflexivity.
    - split; [exact A|]. left. split; [reflexivity|apply harmless_nil]. }
  destruct (includes inline_tags (tag h)); cbn [replaced after value].
  - split; [exact A|]. left. split; [reflexivity|apply escaped_harmless].
  - split; [exact A|]. left. split; [reflexivity|].
    apply harmless_app; [apply escaped_harmless|].
    now apply hash_free_harmless.
Qed.

Lemma text_grows (h : this) (q : list descriptor) (t : Text) :
  exists more, snd (fst (text h q t)) = q ++ more.
Proof.
  pose proof (text_cases h q t) as H.
  destruct (text h q t) as [[h' q'] m]. cbn [fst snd].
  destruct H as [_ [[-> _]|(d & -> & _)]].
  - exists []. now rewrite app_nil_r.
  - now exists [d].
Qed.

(** *** One step of the rewriter *)

Lemma step_output (s : state) (tok : token) :
  output (step s tok) = output s ++ copied (react s tok) ++ written (react s tok).
Proof. reflexivity. Qed.

Lemma step_linksList (s : state) (tok : token) :
  linksList (step s tok) = linksList' (react s tok).
Proof. reflexivity. Qed.

Lemma step_stack (s : state) (tok : token) :
  stack (step s tok) = stack' (react s tok).
Proof. reflexivity. Qed.

(** Only a chunk of text can change the queue or make a callback write. *)
Lemma react_not_text (s : state) (tok : token) :
  is_text tok = false ->
  linksList' (react s tok) = linksList s
  /\ written (react s tok) = []
  /\ (copied (react s tok) = [] \/ copied (react s tok) = source_of tok).
Proof.
  intros H. destruct tok as [el source void|source|t|source|source];
    try discriminate; cbn [HTMLRewriter.react source_of].
  - destruct (emitting (stack s) || fires_in_removed).
    + destruct (element (handler s) el) as [[h act] registered].
      cbn [linksList' written copied tags_kept].
      destruct (emitting (stack s) && _); auto.
    + cbn. auto.
  - destruct (stack s) as [|f rest]; cbn [linksList' written copied]; auto.
    destruct (emitting (f :: rest) && tags_kept f); auto.
  - cbn. auto.
  - cbn [linksList' written copied]. destruct (emitting (stack s)); auto.
Qed.

(** The queue only grows, and so does the output. *)
Lemma react_grows (s : state) (tok : token) :
  exists more, linksList' (react s tok) = linksList s ++ more.
Proof.
  destruct (is_text tok) eqn:E.
  - destruct tok as [| |t| |]; try discriminate. cbn [HTMLRewriter.react].
    destruct (stack s) as [|f rest].
    + exists []. cbn. now rewrite app_nil_r.
    + destruct (emitting (f :: rest) || fires_in_removed).
      * destruct (text_grows (handler s) (linksList s) t) as (more & Hm).
        destruct (text (handler s) (linksList s) t) as [[h q] m].
        cbn [fst snd] in Hm. cbn [linksList']. now exists more.
      * exists []. cbn. now rewrite app_nil_r.
  - destruct (react_not_text s tok E) as (-> & _). exists [].
    now rewrite app_nil_r.
Qed.

Lemma transform_app (t1 t2 : list token) (s : state) :
  transform (t1 ++ t2) s = transform t2 (transform t1 s).
Proof. apply fold_left_app. Qed.

Lemma transform_grows (toks : list token) :
  forall s,
    (exists more, linksList (transform toks s) = linksList s ++ more)
    /\ (exists more, output (transform toks s) = output s ++ more).
Proof.
  induction toks as [|tok r IH]; intros s.
  - split; exists []; now rewrite app_nil_r.
  - cbn [HTMLRewriter.transform fold_left].
    destruct (IH (step s tok)) as [(m1 & H1) (m2 & H2)].
    unfold HTMLRewriter.transform in *. rewrite H1, H2.
    rewrite step_linksList, step_output.
    destruct (react_grows s tok) as (m3 & ->).
    split; eexists; now rewrite <- app_assoc.
Qed.

Lemma quiet_app (t1 t2 : list token) :
  forall s, quiet s (t1 ++ t2) = quiet s t1 && quiet (transform t1 s) t2.
Proof.
  induction t1 as [|tok r IH]; intros s; [reflexivity|].
  cbn [app HTMLRewriter.quiet HTMLRewriter.transform fold_left].
  now rewrite IH, andb_assoc.
Qed.

(** *** Markers and descriptors keep step *)

Lemma in_step_append (s : state) (q : list descriptor) (w : str) (n : nat) :
  in_step s ->
  (forall k, k <= 1 -> hits k w = n /\ pend k w <= 1) ->
  length q = length (linksList s) + n ->
  hits 0 (output s ++ w) = length q /\ pend 0 (output s ++ w) <= 1.
Proof.
  intros [H1 H2] Hw Hq. rewrite hits_app, pend_app.
  destruct (Hw _ H2) as [A B]. lia.
Qed.

Lemma step_in_step (s : state) (tok : token) :
  in_step s -> quiet_step s tok = true -> in_step (step s tok).
Proof.
  intros I Q. unfold HTMLRewriter.quiet_step in Q.
  apply andb_prop in Q. destruct Q as [Qc Qp].
  apply hash_free_harmless in Qc.
  unfold in_step. rewrite step_output, step_linksList.
  destruct (is_text tok) eqn:E.
  2:{ destruct (react_not_text s tok E) as (-> & -> & _).
      rewrite app_nil_r.
      apply in_step_append with (n := 0); [exact I|exact Qc|lia]. }
  destruct tok as [| |t| |]; try discriminate.
  revert Qc Qp. cbn [HTMLRewriter.react].
  destruct (stack s) as [|f rest] eqn:Es.
  { cbn [copied written linksList']. intros Qc _. rewrite app_nil_r.
    apply in_step_append with (n := 0); [exact I|exact Qc|lia]. }
  destruct (emitting (f :: rest)) eqn:Ee; cbn [orb].
  - pose proof (text_cases (handler s) (linksList s) t) as C.
    destruct (text (handler s) (linksList s) t) as [[h q] m].
    cbn [copied written linksList']. intros Qc _.
    destruct C as [Ca [[-> Cr]|(d & -> & Cr)]].
    + apply in_step_append with (n := 0); [exact I| |lia].
      apply harmless_app; [exact Qc|]. now apply harmless_app.
    + rewrite Cr. cbn [app value].
      apply in_step_append with (n := 1);
        [exact I| |rewrite length_app; cbn [length]; lia].
      apply marking_app; [apply marker_marking|exact Ca].
  - destruct fires_in_removed.
    + destruct (text (handler s) (linksList s) t) as [[h q] m].
      cbn [copied written linksList']. intros _ Qp.
      apply Nat.eqb_eq in Qp. cbn [app]. rewrite ?app_nil_r.
      destruct I as [I1 I2]. split; [lia|exact I2].
    + cbn [copied written linksList' app]. intros _ _. rewrite ?app_nil_r.
      exact I.
Qed.

Lemma transform_in_step (toks : list token) :
  forall s, in_step s -> quiet s toks = true -> in_step (transform toks s).
Proof.
  induction toks as [|tok r IH]; intros s I Q; [exact I|].
  cbn [HTMLRewriter.quiet] in Q. apply andb_prop in Q. destruct Q as [Q1 Q2].
  cbn [HTMLRewriter.transform fold_left]. apply IH; [|exact Q2].
  now apply step_in_step.
Qed.

(** *** Inside a removed element *)

Lemma emitting_app (fs base : list frame) :
  emitting (fs ++ base) = emitting fs && emitting base.
Proof. apply forallb_app. Qed.

Lemma silent_run (inner : list token) :
  forall fs s base,
    stack s = fs ++ base ->
    emitting base = false ->
    nested (length fs) inner = true ->
    output (transform inner s) = output s
    /\ stack (transform inner s) = base.
Proof.
  induction inner as [|tok r IH]; intros fs s base Es Eb N.
  - cbn [HTMLRewriter.nested] in N. apply Nat.eqb_eq in N.
    destruct fs; [|discriminate]. cbn. auto.
  - assert (Ee : emitting (stack s) = false).
    { rewrite Es, emitting_app, Eb. apply andb_false_r. }
    cbn [HTMLRewriter.transform fold_left].
    assert (G : exists fs',
               stack (step s tok) = fs' ++ base
               /\ nested (length fs') r = true
               /\ output (step s tok) = output s).
    { rewrite step_output, step_stack.
      destruct tok as [el source void|source|t|source|source];
        cbn [HTMLRewriter.react HTMLRewriter.nested] in *;
        rewrite ?Ee; cbn [orb andb].
      - destruct fires_in_removed.
        + destruct (element (handler s) el) as [[h act] registered].
          cbn [stack' copied written]. rewrite app_nil_r.
          destruct void.
          * exists fs. auto.
          * eexists (_ :: fs). rewrite Es. cbn [app length]. auto.
        + cbn [stack' copied written]. rewrite app_nil_r.
          destruct void.
          * exists fs. auto.
          * eexists (_ :: fs). rewrite Es. cbn [app length]. auto.
      - destruct fs as [|f fs']; [discriminate|].
        rewrite Es. cbn [app stack' copied written]. rewrite Es in Ee.
        cbn [app] in Ee. rewrite ?Ee. cbn [andb]. rewrite app_nil_r.
        exists fs'. auto.
      - destruct (stack s) as [|f rest] eqn:Est.
        { destruct fs; [|discriminate]. cbn [app] in Es. subst base.
          discriminate. }
        destruct fires_in_removed.
        + destruct (text (handler s) (linksList s) t) as [[h q] m].
          cbn [stack' copied written]. rewrite app_nil_r.
          exists fs. auto.
        + cbn [stack' copied written]. rewrite app_nil_r.
          exists fs. auto.
      - cbn [stack' copied written]. rewrite app_nil_r. exists fs. auto.
      - cbn [stack' copied written]. rewrite app_nil_r. exists fs. auto. }
    destruct G as (fs' & G1 & G2 & G3).
    destruct (IH fs' (step s tok) base G1 Eb G2) as (H1 & H3).
    unfold HTMLRewriter.transform in *. rewrite H1, H3. auto.
Qed.

(** *** Text in an anchor that has no target *)

Lemma text_untargeted (h : this) (q : list descriptor) (t : Text) :
  tag h = lit "a" ->
  truthy (herf h) = false ->
  text h q t = (h, q, {| replaced := Some (escaped_text t); after := [] |}).
Proof.
  intros Ht Hh. unfold ElementHandler.text. rewrite Ht, Hh. reflexivity.
Qed.

Lemma untargeted_chunks (chunks : list Text) :
  forall s,
    tag (handler s) = lit "a" ->
    truthy (herf (handler s)) = false ->
    stack s <> [] ->
    handler (transform (map TextChunk chunks) s) = handler s
    /\ linksList (transform (map TextChunk chunks) s) = linksList s
    /\ stack (transform (map TextChunk chunks) s) = stack s
    /\ output (transform (map TextChunk chunks) s) =
       output s ++ (if emitting (stack s)
                    then concat (map escaped_text chunks)
                    else []).
Proof.
  induction chunks as [|t r IH]; intros s Ht Hh Hs.
  - cbn. destruct (emitting (stack s)); now rewrite app_nil_r.
  - cbn [map HTMLRewriter.transform fold_left].
    assert (G : handler (step s (TextChunk t)) = handler s
                /\ linksList (step s (TextChunk t)) = linksList s
                /\ stack (step s (TextChunk t)) = stack s
                /\ output (step s (TextChunk t)) =
                   output s ++ (if emitting (stack s)
                                then escaped_text t else [])).
    { unfold HTMLRewriter.step. cbn [HTMLRewriter.react].
      destruct (stack s) as [|f rest] eqn:Es; [congruence|].
      destruct (emitting (f :: rest)); cbn [orb].
      - rewrite (text_untargeted _ _ _ Ht Hh).
        cbn [handler' linksList' stack' copied written replaced after value
             handler linksList stack output app].
        now rewrite app_nil_r.
      - destruct fires_in_removed.
        + rewrite (text_untargeted _ _ _ Ht Hh).
          cbn [handler' linksList' stack' copied written
               handler linksList stack output app]. auto.
        + cbn [handler' linksList' stack' copied written
               handler linksList stack output app]. auto. }
    destruct G as (G1 & G2 & G3 & G4).
    destruct (IH (step s (TextChunk t))) as (H1 & H2 & H3 & H4);
      [congruence|congruence|congruence|].
    unfold HTMLRewriter.transform in *.
    rewrite H1, H2, H3, H4, G1, G2, G3, G4.
    repeat split; auto.
    destruct (emitting (stack s)); cbn [map concat];
      now rewrite <- ?app_assoc, ?app_nil_r.
Qed.

Lemma escaped_chunks_harmless (chunks : list Text) :
  harmless (concat (map escaped_text chunks)).
Proof.
  induction chunks as [|t r IH]; cbn [map concat].
  - apply harmless_nil.
  - apply harmless_app; [apply escaped_harmless|exact IH].
Qed.

(** *** Tokens that are no text *)

Lemma no_text_run (post : list token) :
  forall s,
    forallb (fun tok => negb (is_text tok)) post = true ->
    linksList (transform post s) = linksList s
    /\ exists kept,
         incl kept post
         /\ output (transform post s) = output s ++ concat (map source_of kept).
Proof.
  induction post as [|tok r IH]; intros s H.
  - split; [reflexivity|]. exists []. split; [apply incl_nil_l|].
    cbn. now rewrite app_nil_r.
  - cbn [forallb] in H. apply andb_prop in H. destruct H as [Ht Hr].
    apply negb_true_iff in Ht.
    cbn [HTMLRewriter.transform fold_left].
    destruct (IH (step s tok) Hr) as (H1 & kept & Hk & H2).
    unfold HTMLRewriter.transform in *.
    rewrite H1, H2, step_linksList, step_output.
    destruct (react_not_text s tok Ht) as (-> & -> & [->| ->]).
    + split; [reflexivity|]. exists kept. split.
      * now apply incl_tl.
      * now rewrite !app_nil_r.
    + split; [reflexivity|]. exists (tok :: kept). split.
      * intros x [->|Hx]; [now left|right; auto].
      * cbn [map concat]. now rewrite app_nil_r, <- app_assoc.
Qed.

(** *** The element callback *)

Lemma element_style_script (h : this) (el : Element) :
  includes (map lit ["style"; "script"]%string) (toLowerCase (tagName el)) = true ->
  element h el = (h, Remove, false).
Proof.
  intros H. apply includes_In in H. unfold element.
  destruct H as [<-|[<-|[]]]; reflexivity.
Qed.

Lemma element_media (h : this) (el : Element) :
  includes media_tags (toLowerCase (tagName el)) = true ->
  exists h' registered, element h el = (h', RemoveAndKeepContent, registered).
Proof.
  intros H. apply includes_In in H. unfold element.
  destruct H as [<-|[<-|[<-|[<-|[]]]]]; cbn [includes existsb removed_tags map];
    cbn; destruct (eqb_str (tagName el) _); do 2 eexists; reflexivity.
Qed.

Lemma element_anchor (h : this) (el : Element) :
  tagName el = lit "a" ->
  element h el =
  ({| tag := lit "a"; herf := getAttribute el (lit "href"); src := src h;
      nestedInA := true |}, RemoveAndKeepContent, true).
Proof. intros H. unfold element. rewrite H. reflexivity. Qed.

Lemma idle_chunks (chunks : list Text) :
  forall s,
    fires_in_removed = false ->
    emitting (stack s) = false ->
    linksList (transform (map TextChunk chunks) s) = linksList s
    /\ stack (transform (map TextChunk chunks) s) = stack s
    /\ output (transform (map TextChunk chunks) s) = output s.
Proof.
  induction chunks as [|t r IH]; intros s Hf He; [cbn; auto|].
  cbn [map HTMLRewriter.transform fold_left].
  assert (G : linksList (step s (TextChunk t)) = linksList s
              /\ stack (step s (TextChunk t)) = stack s
              /\ output (step s (TextChunk t)) = output s).
  { unfold HTMLRewriter.step. cbn [HTMLRewriter.react].
    destruct (stack s) as [|f rest] eqn:Es; [discriminate|].
    rewrite He, Hf. cbn. now rewrite app_nil_r. }
  destruct G as (G1 & G2 & G3).
  destruct (IH (step s (TextChunk t)) Hf) as (H1 & H2 & H3); [congruence|].
  unfold HTMLRewriter.transform in *. rewrite H1, H2, H3. auto.
Qed.

(** *** An anchor and its text *)

Lemma anchor_open (s : state) (el : Element) (source : str) :
  tagName el = lit "a" ->
  exists f h,
    step s (StartTag el source false) =
    {| handler := h; linksList := linksList s; stack := f :: stack s;
       output := output s |}
    /\ tags_kept f = false
    /\ content_removed f = false
    /\ (emitting (stack s) || fires_in_removed = true ->
        tag h = lit "a" /\ herf h = getAttribute el (lit "href")).
Proof.
  intros Ha. unfold HTMLRewriter.step. cbn [HTMLRewriter.react].
  destruct (emitting (stack s) || fires_in_removed).
  - rewrite (element_anchor _ _ Ha).
    cbn [handler' linksList' stack' copied written tags_kept].
    rewrite andb_false_r, !app_nil_r. do 2 eexists.
    split; [reflexivity|]. cbn. auto.
  - cbn [handler' linksList' stack' copied written].
    rewrite !app_nil_r. do 2 eexists.
    split; [reflexivity|]. cbn. repeat split; discriminate.
Qed.

Lemma end_tag_plain (s : state) (f : frame) (rest : list frame) (source : str) :
  stack s = f :: rest ->
  tags_kept f = false ->
  linksList (step s (EndTag source)) = linksList s
  /\ output (step s (EndTag source)) = output s.
Proof.
  intros Es Hk. unfold HTMLRewriter.step. cbn [HTMLRewriter.react].
  rewrite Es. cbn [linksList output linksList' copied written].
  now rewrite Hk, andb_false_r, !app_nil_r.
Qed.

Lemma untargeted_anchor
      (s : state) (el : Element) (source source_end : str) (chunks : list Text) :
  tagName el = lit "a" ->
  truthy (getAttribute el (lit "href")) = false ->
  let s' := transform (StartTag el source false
                         :: map TextChunk chunks ++ [EndTag source_end]) s in
  linksList s' = linksList s
  /\ output s' =
     output s ++ (if emitting (stack s)
                  then concat (map escaped_text chunks) else []).
Proof.
  intros Ha Hh s'. subst s'.
  change (?x :: ?l ++ ?r) with ([x] ++ l ++ r). rewrite !transform_app.
  change (transform [StartTag el source false] s)
    with (step s (StartTag el source false)).
  destruct (anchor_open s el source Ha) as (f & h & E1 & Hk & Hr & Hh').
  set (s1 := step s (StartTag el source false)) in *.
  assert (Ee : emitting (stack s1) = emitting (stack s)).
  { rewrite E1. cbn [stack HTMLRewriter.emitting forallb]. now rewrite Hr. }
  assert (C : linksList (transform (map TextChunk chunks) s1) = linksList s
              /\ stack (transform (map TextChunk chunks) s1) = f :: stack s
              /\ output (transform (map TextChunk chunks) s1) =
                 output s ++ (if emitting (stack s)
                              then concat (map escaped_text chunks) else [])).
  { destruct (emitting (stack s) || fires_in_removed) eqn:Eb.
    - destruct (Hh' eq_refl) as [Gt Gf].
      destruct (untargeted_chunks chunks s1) as (_ & C1 & C2 & C3).
      + rewrite E1. exact Gt.
      + rewrite E1. cbn [handler]. now rewrite Gf.
      + rewrite E1. discriminate.
      + rewrite C1, C2, C3, Ee, E1. auto.
    - apply orb_false_elim in Eb. destruct Eb as [Eb1 Eb2].
      destruct (idle_chunks chunks s1 Eb2) as (C1 & C2 & C3); [congruence|].
      rewrite C1, C2, C3, Eb1, E1, app_nil_r. auto. }
  destruct C as (C1 & C2 & C3).
  destruct (end_tag_plain _ f (stack s) source_end C2 Hk) as (D1 & D2).
  change (transform [EndTag source_end] ?x) with (step x (EndTag source_end)).
  now rewrite D1, D2, C1, C3.
Qed.

(** *** An anchor that has no target, whatever it holds *)

Lemma text_unlinked (h : this) (q : list descriptor) (t : Text) :
  unlinked h ->
  text h q t =
  (h, q,
   {| replaced :=
        Some (escaped_text t
              ++ if includes inline_tags (tag h) then [] else newline);
      after := if eqb_str (tag h) (lit "td") then lit " " else [] |}).
Proof.
  intros [Hh Hn]. unfold ElementHandler.text. rewrite Hh, Hn.
  rewrite !andb_false_r.
  destruct (includes inline_tags (tag h)); [|reflexivity].
  unfold HTMLRewriter.escaped_text. now rewrite app_nil_r.
Qed.

Lemma element_unlinked (h : this) (el : Element) :
  eqb_str (tagName el) (lit "a") = false ->
  unlinked h ->
  exists h' act, element h el = (h', act, false) /\ unlinked h'.
Proof.
  intros Ha U. unfold element. rewrite Ha.
  destruct (includes removed_tags _); [eauto|].
  destruct (includes [lit "br"] _); [eauto|].
  destruct (includes media_tags _); do 2 eexists; (split; [reflexivity|exact U]).
Qed.

Lemma plain_piece_nil (tok : token) : plain_piece tok [].
Proof. now left. Qed.

Lemma plain_piece_source (tok : token) :
  is_text tok = false -> plain_piece tok (source_of tok).
Proof. intros H. right. destruct tok; (discriminate || reflexivity). Qed.

Lemma fires_below (fs base : list frame) :
  emitting (fs ++ base) || fires_in_removed = true ->
  emitting base || fires_in_removed = true.
Proof.
  rewrite emitting_app. destruct fires_in_removed; [now rewrite !orb_true_r|].
  rewrite !orb_false_r. intros H. now apply andb_prop in H.
Qed.

Lemma td_not_inline (name : str) :
  eqb_str name (lit "td") = true -> includes inline_tags name = false.
Proof. intros H. apply eqb_str_eq in H. now subst. Qed.

(** What a chunk adds to the output when no link is pending. *)
Lemma plain_piece_text (h : this) (t : Text) :
  plain_piece (TextChunk t)
    ((escaped_text t ++ if includes inline_tags (tag h) then [] else newline)
     ++ if eqb_str (tag h) (lit "td") then lit " " else []).
Proof.
  right. rewrite <- app_assoc. eexists. split; [|reflexivity].
  destruct (eqb_str (tag h) (lit "td")) eqn:Et.
  - rewrite (td_not_inline _ Et). right. right. now left.
  - rewrite app_nil_r.
    destruct (includes inline_tags (tag h)); [now left|right; now left].
Qed.

(** One token inside an anchor that has no target, the token not opening
    another anchor: [base] holds the frames from the anchor down and [fs]
    the frames of the elements opened since. *)
Lemma plain_step (s : state) (tok : token) (r : list token)
      (fs base : list frame) :
  stack s = fs ++ base ->
  base <> [] ->
  Forall (fun f => end_callback f = false) fs ->
  nested (length fs) (tok :: r) = true ->
  no_anchor [tok] = true ->
  (emitting base || fires_in_removed = true -> unlinked (handler s)) ->
  exists fs',
    stack (step s tok) = fs' ++ base
    /\ Forall (fun f => end_callback f = false) fs'
    /\ nested (length fs') r = true
    /\ linksList (step s tok) = linksList s
    /\ (emitting base || fires_in_removed = true ->
        unlinked (handler (step s tok)))
    /\ plain_piece tok (copied (react s tok) ++ written (react s tok)).
Proof.
  intros Es Hb Hf N A1 U.
  cbn [HTMLRewriter.no_anchor forallb] in A1. rewrite andb_true_r in A1.
  unfold HTMLRewriter.step.
  cbn [stack linksList handler].
  destruct tok as [el source void|source|t|source|source];
    cbn [HTMLRewriter.react HTMLRewriter.nested] in *.
  - apply negb_true_iff in A1.
    destruct (emitting (stack s) || fires_in_removed) eqn:Ef.
    + rewrite Es in Ef. apply fires_below in Ef.
      destruct (element_unlinked (handler s) el A1 (U Ef))
        as (h' & act & -> & U').
      cbn [stack' linksList' handler' copied written tags_kept].
      rewrite app_nil_r.
      assert (P : plain_piece (StartTag el source void)
                    (if emitting (stack s)
                        && match act with Untouched => true | _ => false end
                     then source else [])).
      { destruct (_ && _);
          [now apply plain_piece_source|apply plain_piece_nil]. }
      destruct void.
      * exists fs. split; [exact Es|]. split; [exact Hf|].
        split; [exact N|]. split; [reflexivity|]. split; [auto|exact P].
      * eexists (_ :: fs). rewrite Es in *. cbn [app length].
        split; [reflexivity|]. split; [now constructor|].
        split; [exact N|]. split; [reflexivity|]. split; [auto|exact P].
    + cbn [stack' linksList' handler' copied written app].
      pose proof (plain_piece_nil (StartTag el source void)) as P.
      destruct void.
      * exists fs. split; [exact Es|]. split; [exact Hf|].
        split; [exact N|]. split; [reflexivity|]. split; [auto|exact P].
      * eexists (_ :: fs). rewrite Es in *. cbn [app length].
        split; [reflexivity|]. split; [now constructor|].
        split; [exact N|]. split; [reflexivity|]. split; [auto|exact P].
  - destruct fs as [|f fs']; [discriminate|].
    inversion Hf as [|? ? Hf1 Hf2]; subst.
    rewrite Es. cbn [app stack' linksList' handler' copied written].
    rewrite Hf1, app_nil_r. exists fs'.
    repeat (split; [now auto|]).
    destruct (_ && _); [now apply plain_piece_source|apply plain_piece_nil].
  - destruct (stack s) as [|f0 rest] eqn:Est.
    { destruct fs; [|discriminate]. cbn [app] in Es. congruence. }
    destruct (emitting (f0 :: rest) || fires_in_removed) eqn:Ef.
    + rewrite Es in Ef. pose proof (fires_below _ _ Ef) as Ef'.
      rewrite (text_unlinked _ _ _ (U Ef')).
      cbn [stack' linksList' handler' copied written replaced after value].
      exists fs. repeat (split; [now auto|]).
      destruct (emitting (f0 :: rest)); cbn [app];
        [apply plain_piece_text|apply plain_piece_nil].
    + cbn [stack' linksList' handler' copied written app].
      exists fs. repeat (split; [now auto|]). apply plain_piece_nil.
  - cbn [stack' linksList' handler' copied written app].
    exists fs. repeat (split; [now auto|]). apply plain_piece_nil.
  - cbn [stack' linksList' handler' copied written].
    rewrite app_nil_r. exists fs. repeat (split; [now auto|]).
    destruct (emitting (stack s));
      [now apply plain_piece_source|apply plain_piece_nil].
Qed.

(** The tokens inside the anchor, up to any point. *)
Lemma plain_prefix (pre : list token) :
  forall rest fs s base,
    stack s = fs ++ base ->
    base <> [] ->
    Forall (fun f => end_callback f = false) fs ->
    nested (length fs) (pre ++ rest) = true ->
    no_anchor pre = true ->
    (emitting base || fires_in_removed = true -> unlinked (handler s)) ->
    linksList (transform pre s) = linksList s
    /\ stack (transform pre s) <> []
    /\ (emitting (stack (transform pre s)) || fires_in_removed = true ->
        unlinked (handler (transform pre s))).
Proof.
  induction pre as [|tok r IH]; intros rest fs s base Es Hb Hf N A U.
  - cbn [HTMLRewriter.transform fold_left]. split; [reflexivity|]. split.
    + rewrite Es. destruct fs; [exact Hb|discriminate].
    + rewrite Es. intros H. apply U. now apply fires_below in H.
  - cbn [HTMLRewriter.no_anchor forallb] in A. apply andb_prop in A.
    destruct A as [A1 A2]. fold (no_anchor r) in A2.
    cbn [HTMLRewriter.transform fold_left].
    destruct (plain_step s tok (r ++ rest) fs base Es Hb Hf N)
      as (fs' & G1 & G2 & G3 & G4 & G5 & _); [|exact U|].
    { cbn [HTMLRewriter.no_anchor forallb]. now rewrite A1. }
    destruct (IH rest fs' (step s tok) base G1 Hb G2 G3 A2 G5)
      as (H1 & H2 & H3).
    unfold HTMLRewriter.transform in *. rewrite H1, G4. auto.
Qed.

(** The tokens inside an anchor that has no target, when none of them
    opens another anchor. *)
Lemma plain_run (inner : list token) :
  forall fs s base,
    stack s = fs ++ base ->
    base <> [] ->
    Forall (fun f => end_callback f = false) fs ->
    nested (length fs) inner = true ->
    no_anchor inner = true ->
    (emitting base || fires_in_removed = true -> unlinked (handler s)) ->
    linksList (transform inner s) = linksList s
    /\ stack (transform inner s) = base
    /\ exists pieces,
         Forall2 plain_piece inner pieces
         /\ output (transform inner s) = output s ++ concat pieces.
Proof.
  induction inner as [|tok r IH]; intros fs s base Es Hb Hf N A U.
  - cbn [HTMLRewriter.nested] in N. apply Nat.eqb_eq in N.
    destruct fs; [|discriminate]. cbn [app] in Es.
    repeat split; [exact Es|]. exists []. split; [constructor|].
    cbn. now rewrite app_nil_r.
  - cbn [HTMLRewriter.no_anchor forallb] in A. apply andb_prop in A.
    destruct A as [A1 A2]. fold (no_anchor r) in A2.
    cbn [HTMLRewriter.transform fold_left].
    destruct (plain_step s tok r fs base Es Hb Hf N)
      as (fs' & G1 & G2 & G3 & G4 & G5 & G6); [|exact U|].
    { cbn [HTMLRewriter.no_anchor forallb]. now rewrite A1. }
    destruct (IH fs' (step s tok) base G1 Hb G2 G3 A2 G5)
      as (H1 & H2 & pieces & H3 & H4).
    unfold HTMLRewriter.transform in *. rewrite H1, H2, H4, G4.
    repeat split; auto.
    exists ((copied (react s tok) ++ written (react s tok)) :: pieces).
    split; [now constructor|].
    rewrite step_output. cbn [concat]. now rewrite <- !app_assoc.
Qed.

Lemma plain_piece_unmarked (t : Text) (p : str) :
  plain_piece (TextChunk t) p -> count_markers p = 0.
Proof.
  rewrite count_markers_hits.
  intros [->|(suffix & Hs & ->)]; [reflexivity|].
  apply (harmless_app (escaped_text t) suffix); [apply escaped_harmless| |lia].
  apply hash_free_harmless.
  destruct Hs as [<-|[<-|[<-|[]]]]; reflexivity.
Qed.

Lemma text_pieces_unmarked (inner : list token) (pieces : list str) :
  Forall2 plain_piece inner pieces ->
  forall t p, In (TextChunk t, p) (combine inner pieces) -> count_markers p = 0.
Proof.
  induction 1 as [|tok p0 r ps Hp _ IH]; intros t p Hin; [destruct Hin|].
  destruct Hin as [E|Hin]; [|now apply (IH t)].
  injection E as -> ->. now apply (plain_piece_unmarked t).
Qed.

(** An anchor that has no target, with what it holds. *)
Lemma untargeted_element
      (s : state) (el : Element) (source source_end : str)
      (inner : list token) :
  tagName el = lit "a" ->
  truthy (getAttribute el (lit "href")) = false ->
  nested 0 inner = true ->
  no_anchor inner = true ->
  let s' := transform (StartTag el source false
                         :: inner ++ [EndTag source_end]) s in
  linksList s' = linksList s
  /\ exists pieces,
       Forall2 plain_piece inner pieces
       /\ output s' = output s ++ concat pieces.
Proof.
  intros Ha Hh N A s'. subst s'.
  change (?x :: ?l ++ ?r) with ([x] ++ l ++ r). rewrite !transform_app.
  change (transform [StartTag el source false] s)
    with (step s (StartTag el source false)).
  set (s1 := step s (StartTag el source false)).
  assert (G : exists f,
             stack s1 = f :: stack s
             /\ tags_kept f = false
             /\ content_removed f = false
             /\ linksList s1 = linksList s
             /\ output s1 = output s
             /\ (emitting (stack s) || fires_in_removed = true ->
                 unlinked (handler s1))).
  { subst s1. unfold HTMLRewriter.step. cbn [HTMLRewriter.react].
    destruct (emitting (stack s) || fires_in_removed).
    - rewrite (element_anchor _ _ Ha).
      cbn [handler linksList stack output handler' linksList' stack' copied
           written tags_kept].
      rewrite andb_false_r, !app_nil_r. eexists.
      repeat (split; [reflexivity|]). intros _. split; [exact Hh|reflexivity].
    - cbn [handler linksList stack output handler' linksList' stack' copied
           written].
      rewrite !app_nil_r. eexists.
      repeat (split; [reflexivity|]). discriminate. }
  destruct G as (f & G1 & G2 & G3 & G4 & G5 & G6).
  destruct (plain_run inner [] s1 (f :: stack s)) as (H1 & H2 & pieces & H3 & H4);
    auto; try discriminate.
  { cbn [HTMLRewriter.emitting forallb]. rewrite G3. exact G6. }
  destruct (end_tag_plain _ f (stack s) source_end H2 G2)
    as (D1 & D2).
  change (transform [EndTag source_end] ?x) with (step x (EndTag source_end)).
  rewrite D1, D2, H1, H4, G4, G5. split; [reflexivity|]. now exists pieces.
Qed.

(** A chunk of text anywhere inside such an anchor. *)
Lemma untargeted_chunk
      (s : state) (el : Element) (source : str)
      (pre post : list token) (t : Text) :
  tagName el = lit "a" ->
  truthy (getAttribute el (lit "href")) = false ->
  nested 0 (pre ++ TextChunk t :: post) = true ->
  no_anchor pre = true ->
  let s1 := transform (StartTag el source false :: pre) s in
  output (step s1 (TextChunk t)) =
  output s1
  ++ (if emitting (stack s1)
      then escaped_text t
           ++ (if includes inline_tags (tag (handler s1)) then [] else newline)
           ++ (if eqb_str (tag (handler s1)) (lit "td") then lit " " else [])
      else []).
Proof.
  intros Ha Hh N A s1. subst s1.
  change (?x :: pre) with ([x] ++ pre). rewrite transform_app.
  change (transform [StartTag el source false] s)
    with (step s (StartTag el source false)).
  set (s0 := step s (StartTag el source false)).
  assert (G : exists f,
             stack s0 = f :: stack s
             /\ content_removed f = false
             /\ (emitting (stack s) || fires_in_removed = true ->
                 unlinked (handler s0))).
  { subst s0. unfold HTMLRewriter.step. cbn [HTMLRewriter.react].
    destruct (emitting (stack s) || fires_in_removed).
    - rewrite (element_anchor _ _ Ha). cbn [handler stack handler' stack'].
      eexists. repeat (split; [reflexivity|]). intros _.
      split; [exact Hh|reflexivity].
    - cbn [handler stack handler' stack']. eexists.
      repeat (split; [reflexivity|]). discriminate. }
  destruct G as (f & G1 & G2 & G3).
  destruct (plain_prefix pre (TextChunk t :: post) [] s0 (f :: stack s))
    as (_ & H2 & H3); auto; try discriminate.
  { cbn [HTMLRewriter.emitting forallb]. rewrite G2. exact G3. }
  set (s1 := transform pre s0) in *.
  unfold HTMLRewriter.step at 1. cbn [output HTMLRewriter.react].
  destruct (stack s1) as [|f0 rest] eqn:Es; [congruence|].
  destruct (emitting (f0 :: rest)) eqn:Ee; cbn [orb].
  - rewrite (text_unlinked _ _ _ (H3 eq_refl)).
    cbn [copied written replaced after value app].
    now rewrite <- !app_assoc.
  - destruct fires_in_removed.
    + rewrite (text_unlinked _ _ _ (H3 eq_refl)). reflexivity.
    + reflexivity.
Qed.

(** *** The start tag of a media element *)

Lemma media_open (s : state) (el : Element) (source : str) (void : bool) :
  includes media_tags (toLowerCase (tagName el)) = true ->
  linksList (step s (StartTag el source void)) = linksList s
  /\ output (step s (StartTag el source void)) = output s.
Proof.
  intros Hm. unfold HTMLRewriter.step. cbn [HTMLRewriter.react].
  destruct (emitting (stack s) || fires_in_removed).
  - destruct (element_media (handler s) el Hm) as (h' & registered & ->).
    cbn [linksList output linksList' copied written tags_kept].
    now rewrite andb_false_r, !app_nil_r.
  - cbn [linksList output linksList' copied written].
    now rewrite !app_nil_r.
Qed.

End Facts.

End TransducerFacts.

Import TransducerFacts.

(** ** The worker *)

Module WorkerFacts.

Import Worker.

(** *** A text with a character other than [#] yields a Segment *)

Lemma split_scan_keeps (text : str) (c : ascii) :
  c <> hash ->
  forall cur k,
    In c cur \/ In c text ->
    exists fr, In fr (split_scan cur k text) /\ In c fr.
Proof.
  intros Hc. induction text as [|x r IH]; intros cur k H; cbn [split_scan].
  - destruct H as [H|[]]. exists (cur ++ repeat_char hash k).
    split; [now left|]. apply in_or_app. now left.
  - destruct (Ascii.eqb x hash) eqn:Ex.
    + apply Ascii.eqb_eq in Ex. subst x.
      assert (H' : In c cur \/ In c r).
      { destruct H as [H|[H|H]]; [now left|congruence|now right]. }
      destruct (k =? 14).
      * destruct H' as [H'|H'].
        -- exists cur. split; [now left|exact H'].
        -- destruct (IH [] 0 (or_intror H')) as (fr & F1 & F2).
           exists fr. split; [now right|exact F2].
      * now apply IH.
    + apply IH. destruct H as [H|[H|H]].
      * left. apply in_or_app. now left.
      * left. subst x. apply in_or_app. right. apply in_or_app. right.
        now left.
      * now right.
Qed.

Lemma rendered_keeps (frs : list str) (c : ascii) :
  forall q fr, In fr frs -> In c fr -> In c (rendered frs q).
Proof.
  induction frs as [|t r IH]; intros q fr Hin Hc; [destruct Hin|].
  destruct Hin as [<-|H]; cbn [rendered].
  - apply in_or_app. now left.
  - apply in_or_app. right.
    destruct q as [|l q']; [|apply in_or_app; right]; eapply IH; eauto.
Qed.

Lemma segments_nonempty (text : str) (q : list descriptor) (c : ascii) :
  c <> hash -> In c text -> segments text q <> [].
Proof.
  intros Hc Hin E.
  destruct (split_scan_keeps text c Hc [] 0 (or_intror Hin)) as (fr & F1 & F2).
  pose proof (rendered_keeps _ c q fr F1 F2) as R.
  rewrite <- segments_spell_rendered, E in R. exact R.
Qed.

Section Facts.

Variable respond : nat -> response.
Variable decode : str -> str.
Variable tokens_of : str -> list HTMLRewriter.token.
Variable fires_in_removed : bool.
Variable toLocaleString : str -> str.
Variable banner unknown_sender unknown_recipient no_subject no_content
         body_error : str.
Variable type_error : str.

Abbreviation deliver := (Worker.deliver respond).
Abbreviation sendSplitMessage := (Worker.sendSplitMessage respond).
Abbreviation main :=
  (Worker.main respond decode tokens_of fires_in_removed banner no_content).
Abbreviation email :=
  (Worker.email respond decode tokens_of fires_in_removed toLocaleString
     banner unknown_sender unknown_recipient no_subject no_content body_error
     type_error).
Abbreviation fullMessageText := (Worker.fullMessageText banner).
Abbreviation fallbackText := (Worker.fallbackText banner body_error).

(** *** The delivery loop *)

(** Once a Segment is delivered the loop cannot throw any more. *)
Lemma deliver_replies (chunks : list str) :
  forall id w, exists r w', deliver chunks (Some id) w = (Returned r, w').
Proof.
  induction chunks as [|c rest IH]; intros id w; cbn [Worker.deliver].
  - unfold ret. eauto.
  - destruct (respond (length (sent w))); eauto.
Qed.

Lemma deliver_accepted (c : str) (rest : list str) (w : world) (id : Z) :
  respond (length (sent w)) = Ok id ->
  exists r w', deliver (c :: rest) None w = (Returned r, w').
Proof.
  intros H. cbn [Worker.deliver]. rewrite H. apply deliver_replies.
Qed.

Lemma sendSplitMessage_refused (text : str) (w : world) (d : str) :
  In ElementHandler.newline_char text ->
  respond (length (sent w)) = NotOk d ->
  exists first w',
    sendSplitMessage text w = (Thrown d, w')
    /\ sent w' = sent w ++ [first].
Proof.
  intros Hin H. unfold Worker.sendSplitMessage.
  destruct (segments text (linksList w)) as [|c rest] eqn:E.
  { exfalso. revert E. apply segments_nonempty with (c := ElementHandler.newline_char);
      [discriminate|exact Hin]. }
  cbn [Worker.deliver sent]. rewrite H. do 2 eexists. split; reflexivity.
Qed.

(** A refusal of the first Segment: that one request, no reply, and the
    description is thrown. *)
Lemma sendSplitMessage_refused_first (text : str) (w : world) (d : str) :
  In ElementHandler.newline_char text ->
  respond (length (sent w)) = NotOk d ->
  exists c q,
    sendSplitMessage text w =
    (Thrown d, {| linksList := q; sent := sent w ++ [SendMessage c None] |}).
Proof.
  intros Hin H. unfold Worker.sendSplitMessage.
  destruct (segments text (linksList w)) as [|c rest] eqn:E.
  { exfalso. revert E.
    apply segments_nonempty with (c := ElementHandler.newline_char);
      [discriminate|exact Hin]. }
  cbn [Worker.deliver sent linksList truthy_id]. rewrite H.
  do 2 eexists. reflexivity.
Qed.

Lemma sendSplitMessage_accepted (text : str) (w : world) (id : Z) :
  In ElementHandler.newline_char text ->
  respond (length (sent w)) = Ok id ->
  exists r w', sendSplitMessage text w = (Returned r, w').
Proof.
  intros Hin H. unfold Worker.sendSplitMessage.
  destruct (segments text (linksList w)) as [|c rest] eqn:E.
  { exfalso. revert E. apply segments_nonempty with (c := ElementHandler.newline_char);
      [discriminate|exact Hin]. }
  apply deliver_accepted with (id := id). exact H.
Qed.

Lemma sendAttachments_returns (l : list Attachment) (id : Z) :
  forall w, exists w', sendAttachments l id w = (Returned tt, w').
Proof.
  induction l as [|a rest IH]; intros w; cbn [sendAttachments].
  - unfold ret. eauto.
  - unfold bind, sendAttachment. apply IH.
Qed.

(** *** The templates *)

Lemma header_lines_newline (h : header) :
  In ElementHandler.newline_char (header_lines banner h).
Proof.
  unfold header_lines. apply in_or_app. right. now left.
Qed.

Lemma fullMessageText_newline (h : header) (separate escaped : str) :
  In ElementHandler.newline_char (fullMessageText h separate escaped).
Proof.
  unfold Worker.fullMessageText. apply in_or_app. left.
  apply header_lines_newline.
Qed.

Lemma fallbackText_newline (h : header) (message : str) :
  In ElementHandler.newline_char (fallbackText h message).
Proof. now left. Qed.

(** *** The [try] block *)

(** The block makes its first request with the first Segment of the main
    message; it throws exactly when that request is refused, with
    Telegram's description, and has then made no other request. *)
Lemma main_first_request (p : Email) (h : header) (w : world) :
  match respond (length (sent w)) with
  | Ok _ => exists w', main p h w = (Returned tt, w')
  | NotOk d =>
      exists first w',
        main p h w = (Thrown d, w') /\ sent w' = sent w ++ [first]
  end.
Proof.
  unfold Worker.main, bind.
  set (body := match html p, text p with
               | Some ((_ :: _) as x), _ => _
               | _, _ => _
               end).
  assert (B : exists b w0, body w = (Returned b, w0) /\ sent w0 = sent w).
  { subst body. destruct (html p) as [[|? ?]|]; destruct (text p) as [[|? ?]|];
      unfold processHtml, ret; cbn; eauto. }
  destruct B as (b & w0 & -> & Hs). rewrite <- Hs.
  destruct (respond (length (sent w0))) as [id|d] eqn:R.
  - destruct (sendSplitMessage_accepted
                (fullMessageText h (snd b) (or_else (fst b) no_content)) w0 id
                (fullMessageText_newline _ _ _) R) as (r & w1 & ->).
    destruct ((0 <? length (attachments p)) && truthy_id r).
    + apply sendAttachments_returns.
    + unfold ret. eauto.
  - destruct (sendSplitMessage_refused
                (fullMessageText h (snd b) (or_else (fst b) no_content)) w0 d
                (fullMessageText_newline _ _ _) R) as (first & w1 & -> & Hw).
    eauto.
Qed.

Lemma main_refused (p : Email) (h : header) (w : world) (d : str) :
  respond (length (sent w)) = NotOk d ->
  exists c q,
    main p h w =
    (Thrown d, {| linksList := q; sent := sent w ++ [SendMessage c None] |}).
Proof.
  intros R. unfold Worker.main, bind.
  set (body := match html p, text p with
               | Some ((_ :: _) as x), _ => _
               | _, _ => _
               end).
  assert (B : exists b w0, body w = (Returned b, w0) /\ sent w0 = sent w).
  { subst body. destruct (html p) as [[|? ?]|]; destruct (text p) as [[|? ?]|];
      unfold processHtml, ret; cbn; eauto. }
  destruct B as (b & w0 & -> & Hs). rewrite <- Hs in R.
  destruct (sendSplitMessage_refused_first
              (fullMessageText h (snd b) (or_else (fst b) no_content)) w0 d
              (fullMessageText_newline _ _ _) R) as (c & q & ->).
  rewrite Hs. eauto.
Qed.

(** *** The handler, for an e-mail that has a subject *)

(** With every request answered, the handler throws exactly when the first
    Segment of the main message and the first Segment of the fallback
    notification are both refused; it has then made these two requests. *)
Lemma email_outcome (p : Email) (s : str) (w : world) :
  subject p = Some s ->
  match respond (length (sent w)), respond (S (length (sent w))) with
  | NotOk _, NotOk d' =>
      exists first second q,
        email (Returned p) w =
        (Thrown d',
         {| linksList := q;
            sent := sent w ++ [SendMessage first None;
                               SendMessage second None] |})
  | _, _ => exists w', email (Returned p) w = (Returned tt, w')
  end.
Proof.
  intros Hs. cbn [Worker.email]. rewrite Hs.
  set (h := header_of _ _ _ _ p s). unfold try_catch.
  destruct (respond (length (sent w))) as [id|d] eqn:R.
  - pose proof (main_first_request p h w) as M.
    rewrite R in M. destruct M as (w' & ->). eauto.
  - destruct (main_refused p h w d R) as (c & q & ->).
    set (w1 := {| linksList := q; sent := sent w ++ [SendMessage c None] |}).
    assert (L : length (sent w1) = S (length (sent w))).
    { subst w1. cbn [sent]. rewrite length_app. cbn [length]. lia. }
    rewrite <- L. unfold bind.
    destruct (respond (length (sent w1))) as [id'|d'] eqn:R'.
    + destruct (sendSplitMessage_accepted (fallbackText h d) w1 id'
                  (fallbackText_newline h d) R') as (r & w2 & ->).
      unfold ret. eauto.
    + destruct (sendSplitMessage_refused_first (fallbackText h d) w1 d'
                  (fallbackText_newline h d) R') as (c' & q' & ->).
      subst w1. cbn [sent]. rewrite <- app_assoc. cbn [app]. eauto.
Qed.

End Facts.

End WorkerFacts.

Import WorkerFacts.

(** *** The claims about the chunker *)

(** X6: The bound where it holds: every Segment of [sendSplitMessage] has at
    most [MAX_TELEGRAM_MESSAGE_LENGTH] characters, provided the descriptor
    that is shifted together with the last fragment, if the queue is long
    enough to hold one, renders to an entity of at most that length. So the
    bound holds for every queue that has no more descriptors than the text
    has markers: an entity appended in an earlier round is cut by the
    overflow check of the next. *)
Theorem segments_short :
  forall (text : str) (q : list descriptor),
    (forall l, nth_error q (count_markers text) = Some l ->
               length (linkEntity l) <= MAX) ->
    Forall (fun seg => length seg <= MAX) (segments text q).
Proof.
  intros text q H. unfold segments, chunk_loop, count_markers in *.
  pose proof (split_nonempty text) as Hne.
  destruct (exists_last (l := split_linkReplacer text)) as (init & t & E).
  { intros E. rewrite E in Hne. simpl in Hne. lia. }
  rewrite E in *. rewrite fold_left_app. cbn [fold_left].
  rewrite length_app in H. cbn [length] in H.
  replace (length init + 1 - 1) with (length init) in H by lia.
  set (s0 := {| chunks := []; builder := []; linksList := q |}).
  apply flush_short.
  - apply iteration_chunks_short, fold_chunks_short. constructor.
  - apply iteration_builder_short. intros l Hl. apply H.
    rewrite fold_linksList, hd_error_skipn in Hl. exact Hl.
Qed.

Lemma segments_short_example :
  Forall (fun seg => length seg <= MAX)
    (segments (lit "Hello ###############, bye") [short_link; short_link]).
Proof.
  apply segments_short.
  intros l H. vm_compute in H. injection H as <-.
  apply Nat.leb_le. vm_compute. reflexivity.
Defined.

(** C1, evaluated where it fails: the last round appends an entity longer
    than [MAX_TELEGRAM_MESSAGE_LENGTH] behind the flushed builder, and the
    final flush pushes it without the overflow check of the loop.  With the
    text [Hi] and the long link in the queue the second Segment is the
    entity, of 3517 characters.  The same happens to the mail whose body is
    [one_line_html]: the doctype clean-up removes the first line with its
    marker, the descriptor stays queued, and the second request carries
    3517 characters. *)
Theorem oversized_entity_segment :
  (segments (lit "Hi") [long_link] = [lit "Hi"; linkEntity long_link]
   /\ length (linkEntity long_link) = 3517)
  /\ (let run := email_on one_line_tokens accept_all
                   (Worker.Returned linked_mail) no_requests in
      fst run = Worker.Returned tt
      /\ text_lengths (Worker.sent (snd run)) = [119; 3517]).
Proof. vm_compute. repeat split. Qed.

(** C7: when the queue holds as many descriptors as the text has markers,
    [linksList] is empty once the chunking loop is over. *)
Theorem queue_drained :
  forall (text : str) (q : list descriptor),
    length q = count_markers text ->
    queue_after text q = [].
Proof.
  intros text q H. unfold queue_after, chunk_loop.
  rewrite fold_linksList. cbn [linksList].
  apply skipn_all2. unfold count_markers in H.
  pose proof (split_nonempty text). lia.
Qed.

Lemma queue_drained_witness :
  queue_after (lit "see ############### and ###############.")
    [short_link; long_link] = [].
Proof.
  apply queue_drained. vm_compute. reflexivity.
Defined.

(** C3 (as amended): the Segments spell out the rendered stream.  Every
    entity of at most [MAX_TELEGRAM_MESSAGE_LENGTH] characters that the loop
    renders lies whole inside one Segment, at its place in the stream: the
    Segments before it and the part [pre] of its own Segment are exactly the
    text rendered in front of it.  An entity of more characters that is
    rendered before the last round is cut by the overflow check of the next
    round: a Segment starts where the entity starts and holds its first
    [MAX_TELEGRAM_MESSAGE_LENGTH] characters and nothing else. *)
Theorem link_entities_atomic :
  forall (text : str) (q : list descriptor) (i : nat) (l : descriptor),
    nth_error q i = Some l ->
    i <= count_markers text ->
    concat (segments text q) = rendered (split_linkReplacer text) q
    /\ (length (linkEntity l) <= MAX ->
        exists cs1 pre post cs2,
          segments text q = cs1 ++ (pre ++ linkEntity l ++ post) :: cs2
          /\ concat cs1 ++ pre =
             rendered_before (split_linkReplacer text) q i)
    /\ (MAX < length (linkEntity l) ->
        i < count_markers text ->
        exists cs1 cs2,
          segments text q = cs1 ++ firstn MAX (linkEntity l) :: cs2
          /\ concat cs1 = rendered_before (split_linkReplacer text) q i).
Proof.
  intros text q i l Hn Hi.
  pose proof (split_nonempty text) as Hne. unfold count_markers in *.
  set (s0 := {| chunks := []; builder := []; linksList := q |}).
  split; [apply segments_spell_rendered|]. split.
  - intros He. unfold segments, chunk_loop.
    exact (located_fold (split_linkReplacer text) s0 i l Hn ltac:(lia) He).
  - intros He Hlt. unfold segments, chunk_loop.
    exact (severed_fold (split_linkReplacer text) s0 i l Hn ltac:(lia) He).
Qed.

(** [see ###############, then ###############.] with the long link and the
    short link in the queue: the first entity is cut, the second is whole. *)
Lemma link_entities_atomic_witness :
  let text := lit "see ###############, then ###############." in
  let q := [long_link; short_link] in
  (exists cs1 cs2,
     segments text q = cs1 ++ firstn MAX (linkEntity long_link) :: cs2
     /\ concat cs1 = rendered_before (split_linkReplacer text) q 0)
  /\ (exists cs1 pre post cs2,
        segments text q = cs1 ++ (pre ++ linkEntity short_link ++ post) :: cs2
        /\ concat cs1 ++ pre = rendered_before (split_linkReplacer text) q 1).
Proof.
  intros text q.
  assert (H0 : 0 <= count_markers text) by apply Nat.le_0_l.
  assert (H1 : 1 < count_markers text).
  { apply Nat.ltb_lt. vm_compute. reflexivity. }
  split.
  - apply (link_entities_atomic text q 0 long_link eq_refl H0).
    + apply Nat.ltb_lt. vm_compute. reflexivity.
    + apply Nat.lt_trans with (m := 1); [apply Nat.lt_0_1|exact H1].
  - apply (link_entities_atomic text q 1 short_link eq_refl
             (Nat.lt_le_incl _ _ H1)).
    apply Nat.leb_le. vm_compute. reflexivity.
Defined.

(** Atomicity fails for an entity longer than [MAX]: behind a marker that
    is followed by more text, [splitAndPush] cuts the builder that holds
    it, and no Segment is long enough to hold the entity. *)
Lemma link_entities_atomic_counterexample :
  Forall (fun seg => length seg < length (linkEntity long_link))
    (segments (lit "###############.") [long_link])
  /\ ~ exists cs1 pre post cs2,
         segments (lit "###############.") [long_link] =
         cs1 ++ (pre ++ linkEntity long_link ++ post) :: cs2.
Proof.
  assert (F : Forall (fun seg => length seg < length (linkEntity long_link))
                (segments (lit "###############.") [long_link])).
  { apply Forall_forall. intros seg Hin.
    apply Nat.ltb_lt. revert seg Hin.
    apply (proj1 (forallb_forall
             (fun seg => length seg <? length (linkEntity long_link)) _)).
    vm_compute. reflexivity. }
  split; [exact F|]. now apply too_short_to_hold.
Qed.

(** *** The claims about the transducer *)

(** C8: whatever stands inside a [<style>] or [<script>] element, text and
    nested elements alike, the element adds nothing to the rewriter's
    output. *)
Theorem removed_content_not_emitted :
  forall (fires_in_removed : bool) (decode : str -> str)
         (s : HTMLRewriter.state) (el : ElementHandler.Element)
         (source source_end : str) (inner : list HTMLRewriter.token),
    includes (map lit ["style"; "script"]%string)
      (toLowerCase (ElementHandler.tagName el)) = true ->
    HTMLRewriter.nested 0 inner = true ->
    HTMLRewriter.output
      (HTMLRewriter.transform fires_in_removed decode
         (HTMLRewriter.StartTag el source false
            :: inner ++ [HTMLRewriter.EndTag source_end]) s)
    = HTMLRewriter.output s.
Proof.
  intros b decode s el source source_end inner Hel Hn.
  change (?x :: ?l ++ ?r) with ([x] ++ l ++ r).
  rewrite !transform_app.
  set (s1 := HTMLRewriter.transform b decode [_] s).
  assert (G : exists f,
             HTMLRewriter.stack s1 = f :: HTMLRewriter.stack s
             /\ HTMLRewriter.emitting (f :: HTMLRewriter.stack s) = false
             /\ HTMLRewriter.output s1 = HTMLRewriter.output s).
  { subst s1. unfold HTMLRewriter.transform. cbn [fold_left].
    unfold HTMLRewriter.step. cbn [HTMLRewriter.react].
    destruct (HTMLRewriter.emitting (HTMLRewriter.stack s)) eqn:Ee; cbn [orb].
    - rewrite (element_style_script _ _ Hel).
      cbn [HTMLRewriter.stack HTMLRewriter.output HTMLRewriter.stack'
           HTMLRewriter.copied HTMLRewriter.written HTMLRewriter.tags_kept].
      rewrite andb_false_r, !app_nil_r. eexists. repeat split.
    - destruct b.
      + rewrite (element_style_script _ _ Hel).
        cbn [HTMLRewriter.stack HTMLRewriter.output HTMLRewriter.stack'
             HTMLRewriter.copied HTMLRewriter.written andb].
        rewrite !app_nil_r. eexists. repeat split.
      + cbn [HTMLRewriter.stack HTMLRewriter.output HTMLRewriter.stack'
             HTMLRewriter.copied HTMLRewriter.written].
        rewrite !app_nil_r. eexists. repeat split.
        cbn [HTMLRewriter.emitting forallb HTMLRewriter.content_removed
             negb andb].
        exact Ee. }
  destruct G as (f & G1 & G2 & G3).
  destruct (silent_run b decode inner [] s1 (f :: HTMLRewriter.stack s)
              G1 G2 Hn) as (H1 & H2).
  set (s2 := HTMLRewriter.transform b decode inner s1) in *.
  unfold HTMLRewriter.transform. cbn [fold_left].
  unfold HTMLRewriter.step. cbn [HTMLRewriter.react HTMLRewriter.output].
  rewrite H2, G2. cbn [andb HTMLRewriter.copied HTMLRewriter.written].
  now rewrite !app_nil_r, H1, G3.
Qed.

(** [<style>p { color: red }<b>x</b></style>] *)
Lemma removed_content_not_emitted_witness :
  HTMLRewriter.output
    (HTMLRewriter.transform true (fun s => s)
       (HTMLRewriter.StartTag (element_of "style" []) (lit "<style>") false
          :: [chunk "p { color: red }" false;
              open_tag "b" []; chunk "x" true; close_tag "b"]
          ++ [HTMLRewriter.EndTag (lit "</style>")])
       (HTMLRewriter.start []))
  = HTMLRewriter.output (HTMLRewriter.start []).
Proof.
  apply removed_content_not_emitted; reflexivity.
Defined.



(** What the anchor of the example adds to the output, and the same for an
    anchor that holds text only. *)
Example untargeted_anchor_output :
  let run inner :=
    HTMLRewriter.transform false (fun s => s)
      (open_tag "p" []
         :: open_tag "a" [attr "name" "top"] :: inner ++ [close_tag "a"])
      (HTMLRewriter.start []) in
  (HTMLRewriter.output (run untargeted_content) =
     lit "C\# notes1\.5" ++ ElementHandler.newline ++ lit " "
     ++ ElementHandler.newline ++ lit " <br>"
   /\ HTMLRewriter.linksList (run untargeted_content) = [])
  /\ (HTMLRewriter.output (run [chunk "C# notes" false; chunk "" true]) =
        lit "C\# notes"
      /\ HTMLRewriter.linksList (run [chunk "C# notes" false; chunk "" true])
         = []).
Proof. vm_compute. repeat split. Qed.


(** C10: a media element that no text chunk follows queues no descriptor:
    from its start tag to the end of the document the queue stays as it
    was, and all that reaches the output is source text of later tokens,
    so no callback writes a placeholder marker. *)
Theorem media_without_text :
  forall (fires_in_removed : bool) (decode : str -> str)
         (q : list descriptor) (pre post : list HTMLRewriter.token)
         (el : ElementHandler.Element) (source : str) (void : bool),
    includes ElementHandler.media_tags
      (toLowerCase (ElementHandler.tagName el)) = true ->
    forallb (fun tok => negb (HTMLRewriter.is_text tok)) post = true ->
    let s1 := HTMLRewriter.transform fires_in_removed decode pre
                (HTMLRewriter.start q) in
    let s2 := HTMLRewriter.transform fires_in_removed decode
                (pre ++ HTMLRewriter.StartTag el source void :: post)
                (HTMLRewriter.start q) in
    HTMLRewriter.linksList s2 = HTMLRewriter.linksList s1
    /\ exists kept,
         incl kept post
         /\ HTMLRewriter.output s2 =
            HTMLRewriter.output s1 ++ concat (map HTMLRewriter.source_of kept).
Proof.
  intros b decode q pre post el source void Hm Hp s1 s2. subst s2.
  rewrite transform_app. fold s1.
  change (HTMLRewriter.transform b decode (?x :: post) s1)
    with (HTMLRewriter.transform b decode post (HTMLRewriter.step b decode s1 x)).
  destruct (no_text_run b decode post
              (HTMLRewriter.step b decode s1
                 (HTMLRewriter.StartTag el source void)) Hp)
    as (H1 & kept & Hk & H2).
  destruct (media_open b decode s1 el source void Hm) as (M1 & M2).
  rewrite H1, H2, M1, M2. split; [reflexivity|]. now exists kept.
Qed.

(** [<p>Hi</p><div><img src="cid:logo"><br></div>] *)
Lemma media_without_text_witness :
  let pre := [open_tag "p" []; chunk "Hi" false; chunk "" true; close_tag "p";
              open_tag "div" []] in
  let post := [void_tag "br" []; close_tag "div"] in
  let s1 := HTMLRewriter.transform true (fun s => s) pre (HTMLRewriter.start []) in
  let s2 := HTMLRewriter.transform true (fun s => s)
              (pre ++ void_tag "img" [attr "src" "cid:logo"] :: post)
              (HTMLRewriter.start []) in
  HTMLRewriter.linksList s2 = HTMLRewriter.linksList s1
  /\ exists kept,
       incl kept post
       /\ HTMLRewriter.output s2 =
          HTMLRewriter.output s1 ++ concat (map HTMLRewriter.source_of kept).
Proof.
  apply (media_without_text true (fun s => s)); reflexivity.
Defined.

(** C5, evaluated: for [<a href="X"><img src="Y"></a>] the rewriter calls
    [element] twice and [text] never, so nothing is queued and nothing is
    written, whatever [X] and [Y] are. *)
Theorem linked_image_queues_nothing :
  forall (fires_in_removed : bool) (decode : str -> str) (X Y : str),
    let doc :=
      [HTMLRewriter.StartTag
         {| ElementHandler.tagName := lit "a";
            ElementHandler.attributes := [(lit "href", X)] |}
         (lit "<a href=" ++ X ++ lit ">") false;
       HTMLRewriter.StartTag
         {| ElementHandler.tagName := lit "img";
            ElementHandler.attributes := [(lit "src", Y)] |}
         (lit "<img src=" ++ Y ++ lit ">") true;
       HTMLRewriter.EndTag (lit "</a>")] in
    let s := HTMLRewriter.transform fires_in_removed decode doc
               (HTMLRewriter.start []) in
    HTMLRewriter.linksList s = []
    /\ HTMLRewriter.output s = []
    /\ ElementHandler.herf (HTMLRewriter.handler s) = Some X
    /\ ElementHandler.src (HTMLRewriter.handler s) = Some Y.
Proof.
  intros b decode X Y. destruct b; cbv zeta; repeat split.
Qed.

(** X31: Markers and descriptors keep step where the marker cannot be
    mistaken: when every piece of source text the rewriter copies to the
    output is free of [#] and no descriptor is queued while the output is
    suppressed ([quiet]), then after every token of the document the
    rewriter's output holds as many placeholder markers as descriptors have
    been queued; output and queue only grow, so the i-th marker is written
    in the step that queues the i-th descriptor. *)
Theorem markers_match_queue :
  forall (fires_in_removed : bool) (decode : str -> str)
         (toks : list HTMLRewriter.token),
    HTMLRewriter.quiet fires_in_removed decode (HTMLRewriter.start []) toks
    = true ->
    forall n : nat,
      let s := HTMLRewriter.transform fires_in_removed decode (firstn n toks)
                 (HTMLRewriter.start []) in
      let s_end := HTMLRewriter.transform fires_in_removed decode toks
                     (HTMLRewriter.start []) in
      count_markers (HTMLRewriter.output s) =
      length (HTMLRewriter.linksList s)
      /\ (exists more,
            HTMLRewriter.linksList s_end = HTMLRewriter.linksList s ++ more)
      /\ (exists more,
            HTMLRewriter.output s_end = HTMLRewriter.output s ++ more).
Proof.
  intros b decode toks Q n s s_end.
  rewrite <- (firstn_skipn n toks) in Q. rewrite quiet_app in Q.
  apply andb_prop in Q. destruct Q as [Q1 _].
  split.
  - rewrite count_markers_hits.
    apply (transform_in_step b decode (firstn n toks) (HTMLRewriter.start []));
      [split; cbn; lia|exact Q1].
  - assert (E : s_end = HTMLRewriter.transform b decode (skipn n toks) s).
    { subst s s_end. now rewrite <- transform_app, firstn_skipn. }
    rewrite E. apply transform_grows.
Qed.

Lemma markers_match_queue_witness :
  let s := HTMLRewriter.transform true (fun s => s) (firstn 12 sample_document)
             (HTMLRewriter.start []) in
  let s_end := HTMLRewriter.transform true (fun s => s) sample_document
                 (HTMLRewriter.start []) in
  count_markers (HTMLRewriter.output s) = length (HTMLRewriter.linksList s)
  /\ (exists more,
        HTMLRewriter.linksList s_end = HTMLRewriter.linksList s ++ more)
  /\ (exists more,
        HTMLRewriter.output s_end = HTMLRewriter.output s ++ more).
Proof.
  apply (markers_match_queue true (fun s => s) sample_document).
  vm_compute. reflexivity.
Defined.

(** What the sample document becomes: two markers, two descriptors. *)
Example sample_document_output :
  let s := HTMLRewriter.transform true (fun s => s) sample_document
             (HTMLRewriter.start []) in
  HTMLRewriter.output s =
  lit "<!DOCTYPE html>C\# & more " ++ ElementHandler.newline ++ ElementHandler.newline
  ++ marker ++ lit " tail" ++ marker
  /\ HTMLRewriter.linksList s =
     [{| desc := lit "site"; link := lit "http://a/" |};
      {| desc := lit "img"; link := lit "cid:logo" |}].
Proof. vm_compute. split; reflexivity. Qed.

(** C2, evaluated where it fails.  The placeholder marker is kept apart
    from content only by escaping every [#] the text callback rewrites, and
    two paths miss that: an untouched [<br>] is copied with its attributes,
    and the media branch of [text] returns without replacing a chunk that is
    not the last of its node or has no [src] pending.  For
    [<p><br title='###############'></p>] and for
    [<video>###############</video>] the text [processHtml] returns holds
    one marker and nothing is queued.  The clean-up breaks the
    correspondence the other way: the [.*] of the doctype pattern runs to
    the last [>] of the line, so for the one-line document [one_line_html]
    it removes the marker of the anchor with the doctype, and the descriptor
    stays queued without a marker.  And if the rewriter still runs the
    callbacks inside a removed element, the link of
    [<head><a href='http://a/'>x</a></head>] is queued and no marker is
    written. *)
Theorem markers_out_of_step :
  forall fires_in_removed : bool,
    let s doc :=
      HTMLRewriter.transform fires_in_removed (fun s => s) doc
        (HTMLRewriter.start []) in
    let returned doc := Worker.tidy (HTMLRewriter.output (s doc)) in
    (count_markers (HTMLRewriter.output (s one_line_tokens)) = 1
     /\ count_markers (returned one_line_tokens) = 0
     /\ length (HTMLRewriter.linksList (s one_line_tokens)) = 1)
    /\ (count_markers (returned titled_break) = 1
        /\ HTMLRewriter.linksList (s titled_break) = [])
    /\ (count_markers (returned (video_text true)) = 1
        /\ HTMLRewriter.linksList (s (video_text true)) = [])
    /\ (count_markers (returned (video_text false)) = 1
        /\ HTMLRewriter.linksList (s (video_text false)) = [])
    /\ (fires_in_removed = true ->
        count_markers (returned head_link) = 0
        /\ length (HTMLRewriter.linksList (s head_link)) = 1).
Proof. intros []; vm_compute; repeat split; discriminate. Qed.
(** *** The claim about the entry point *)

(** C9, evaluated where it fails: the handler lets an exception out in
    three ways.  [parser.parse] stands in front of the [try] block: when it
    throws, the exception leaves the handler and no request is made.  So
    does [escapeMarkdownV2(parsedEmail.subject)]: an e-mail without a
    subject throws a [TypeError] before any request.  And the [catch] block
    calls [sendSplitMessage] unguarded: when Telegram refuses the first
    Segment of the main message and then the first Segment of the fallback
    notification, the second description is thrown out of the handler,
    after these two requests, neither of them a reply.  The three ways are
    then evaluated: a Telegram that refuses every request, an e-mail that
    does not parse, an e-mail without a subject. *)
Theorem email_throws :
  (forall (respond : nat -> Worker.response) (decode : str -> str)
          (tokens_of : str -> list HTMLRewriter.token)
          (fires_in_removed : bool) (toLocaleString : str -> str)
          (banner unknown_sender unknown_recipient no_subject no_content
             body_error type_error : str)
          (w : Worker.world),
      let email :=
        Worker.email respond decode tokens_of fires_in_removed toLocaleString
          banner unknown_sender unknown_recipient no_subject no_content
          body_error type_error in
      (forall e, email (Worker.Thrown e) w = (Worker.Thrown e, w))
      /\ (forall p,
            Worker.subject p = None ->
            email (Worker.Returned p) w = (Worker.Thrown type_error, w))
      /\ (forall p s d d',
            Worker.subject p = Some s ->
            respond (length (Worker.sent w)) = Worker.NotOk d ->
            respond (S (length (Worker.sent w))) = Worker.NotOk d' ->
            exists first second q,
              email (Worker.Returned p) w =
              (Worker.Thrown d',
               {| Worker.linksList := q;
                  Worker.sent :=
                    Worker.sent w
                    ++ [Worker.SendMessage first None;
                        Worker.SendMessage second None] |})))
  /\ (let run := email_with refuse_all (Worker.Returned plain_mail)
                   no_requests in
      fst run = Worker.Thrown (lit "Bad Request: chat not found")
      /\ length (Worker.sent (snd run)) = 2)
  /\ email_with accept_all (Worker.Thrown (lit "Invalid MIME")) no_requests
     = (Worker.Thrown (lit "Invalid MIME"), no_requests)
  /\ email_with accept_all (Worker.Returned untitled_mail) no_requests
     = (Worker.Thrown (lit "TypeError"), no_requests).
Proof.
  split; [|vm_compute; repeat split].
  intros respond decode tokens_of fires toLocaleString banner
    unknown_sender unknown_recipient no_subject no_content body_error
    type_error w email. subst email.
  split; [reflexivity|]. split.
  - intros p Hs. cbn [Worker.email]. now rewrite Hs.
  - intros p s d d' Hs R R'.
    pose proof (email_outcome respond decode tokens_of fires toLocaleString
                  banner unknown_sender unknown_recipient no_subject
                  no_content body_error type_error p s w Hs) as O.
    rewrite R, R' in O. exact O.
Qed.
(** * Further properties *)

(** ** The escaper: what its output looks like *)

Module EscaperMore.

Lemma last_char_backslash (s : str) :
  last_char None s = Some backslash -> exists s', s = s' ++ [backslash].
Proof.
  unfold last_char. destruct (rev s) as [|c l] eqn:E; [discriminate|].
  intros [= ->]. exists (rev l).
  rewrite <- (rev_involutive s), E. reflexivity.
Qed.

(** In a guarded text the character in front of a reserved character is a
    backslash. *)
Lemma guarded_behind (t : str) :
  forall prev pre c post,
    guarded prev t = true ->
    t = pre ++ c :: post ->
    reserved c = true ->
    last_char prev pre = Some backslash.
Proof.
  induction t as [|x r IH]; intros prev pre c post G E Hc.
  - destruct pre; discriminate.
  - cbn [guarded] in G. apply andb_prop in G. destruct G as [G1 G2].
    destruct pre as [|y pre'].
    + cbn [app] in E. injection E as -> _.
      rewrite Hc in G1. cbn [andb] in G1. apply negb_true_iff in G1.
      unfold last_char. cbn [rev].
      destruct prev as [p|]; [|discriminate].
      unfold not_after_backslash in G1. apply negb_false_iff in G1.
      apply Ascii.eqb_eq in G1. now subst p.
    + cbn [app] in E. injection E as -> E.
      rewrite last_char_cons. now apply (IH (Some y) pre' c post).
Qed.

Lemma replace_from_length (s : str) :
  forall prev,
    length s <= length (replace_from prev s)
    /\ length (replace_from prev s) <= 2 * length s.
Proof.
  induction s as [|c r IH]; intros prev; cbn [replace_from length]; [lia|].
  destruct (IH (Some c)) as [A B].
  destruct (reserved c && not_after_backslash prev); cbn [length]; lia.
Qed.

(** The scan depends on what stands in front only through the look-behind
    test. *)
Lemma replace_from_prev (s : str) (p q : option ascii) :
  not_after_backslash p = not_after_backslash q ->
  replace_from p s = replace_from q s.
Proof. intros H. destruct s as [|c r]; cbn [replace_from]; now rewrite ?H. Qed.

Lemma not_after_last (a : str) :
  (forall a', a <> a' ++ [backslash]) ->
  not_after_backslash (last_char None a) = true.
Proof.
  intros H. destruct (last_char None a) as [p|] eqn:E; [|reflexivity].
  unfold not_after_backslash. apply negb_true_iff, Ascii.eqb_neq.
  intros ->. destruct (last_char_backslash a E) as (a' & Ea).
  now apply (H a').
Qed.

Lemma escape_app (a b : str) :
  (forall a', a <> a' ++ [backslash]) ->
  escapeMarkdownV2 (a ++ b) = escapeMarkdownV2 a ++ escapeMarkdownV2 b.
Proof.
  intros H. unfold escapeMarkdownV2. rewrite replace_from_app.
  f_equal. apply replace_from_prev. now apply not_after_last.
Qed.

End EscaperMore.

Import EscaperMore.

(** X1: In the output of [escapeMarkdownV2] every reserved character stands
    right behind a backslash: wherever the output is cut in front of a
    reserved character, the part before the cut ends with a backslash. *)
Theorem reserved_behind_backslash :
  forall (s pre post : str) (c : ascii),
    escapeMarkdownV2 s = pre ++ c :: post ->
    reserved c = true ->
    exists pre', pre = pre' ++ [backslash].
Proof.
  intros s pre post c E Hc. apply last_char_backslash.
  apply (guarded_behind (escapeMarkdownV2 s) None pre c post);
    [apply replace_from_guarded|exact E|exact Hc].
Qed.

Lemma reserved_behind_backslash_witness :
  exists pre', lit "C\" = pre' ++ [backslash].
Proof.
  apply (reserved_behind_backslash (lit "C# 2.0") (lit "C\") (lit " 2\.0")
           "#"%char); reflexivity.
Defined.

(** X2: Escaping never shortens a text and at most doubles its length. *)
Theorem escapeMarkdownV2_length :
  forall s : str,
    length s <= length (escapeMarkdownV2 s)
    /\ length (escapeMarkdownV2 s) <= 2 * length s.
Proof. intros s. apply replace_from_length. Qed.

(** X3: Escaping chunk by chunk, as the text callback does, gives the
    escaped whole when no chunk ends with a backslash: the look-behind of
    the regular expression sees across a chunk boundary only in the whole. *)
Theorem escapeMarkdownV2_concat :
  forall pieces : list str,
    Forall (fun a => forall a', a <> a' ++ [backslash]) pieces ->
    escapeMarkdownV2 (concat pieces) = concat (map escapeMarkdownV2 pieces).
Proof.
  induction pieces as [|a r IH]; intros F; [reflexivity|].
  inversion F as [|? ? Fa Fr]; subst. cbn [concat map].
  rewrite escape_app by exact Fa. now rewrite IH.
Qed.

Lemma escapeMarkdownV2_concat_witness :
  escapeMarkdownV2 (concat [lit "1.5 "; lit "> 1"]) =
  concat (map escapeMarkdownV2 [lit "1.5 "; lit "> 1"]).
Proof.
  apply escapeMarkdownV2_concat.
  repeat constructor; intros a' E; apply (f_equal (@rev ascii)) in E;
    rewrite rev_app_distr in E; discriminate.
Defined.

(** ** The chunker: splitting, conservation and edge cases *)

Module ChunkerMore.

(** *** Fragments hold no marker *)

Lemma scan_repeat (k : nat) :
  forall j,
    j + k <= 14 ->
    hits j (repeat_char hash k) = 0 /\ pend j (repeat_char hash k) = j + k.
Proof.
  induction k as [|k IH]; intros j H; cbn [repeat_char repeat hits pend].
  - split; [reflexivity|lia].
  - change (Ascii.eqb hash hash) with true. cbn match.
    destruct (j =? 14) eqn:E; [apply Nat.eqb_eq in E; lia|].
    destruct (IH (S j)) as [A B]; [lia|].
    unfold repeat_char in *. rewrite A, B. split; [reflexivity|lia].
Qed.

Lemma split_scan_marker_free (text : str) :
  forall cur k,
    hits 0 cur = 0 -> pend 0 cur = 0 -> k <= 14 ->
    Forall (fun fr => hits 0 fr = 0) (split_scan cur k text).
Proof.
  induction text as [|c r IH]; intros cur k Hh Hp Hk; cbn [split_scan].
  - constructor; [|constructor]. rewrite hits_app, Hh, Hp.
    now destruct (scan_repeat k 0 Hk) as [-> _].
  - destruct (Ascii.eqb c hash) eqn:Ec.
    + destruct (k =? 14) eqn:Ek.
      * constructor; [exact Hh|]. apply IH; [reflexivity|reflexivity|lia].
      * apply Nat.eqb_neq in Ek. apply IH; [exact Hh|exact Hp|lia].
    + apply IH; [| |lia].
      * rewrite !hits_app, Hh, Hp.
        destruct (scan_repeat k 0 Hk) as [-> ->]. cbn [hits]. now rewrite Ec.
      * rewrite !pend_app. cbn [pend]. now rewrite Ec.
Qed.

(** *** [splitAndPush] in numbers *)

Lemma concat_exact_length (ps : list str) (n : nat) :
  Forall (fun p => length p = n) ps -> length (concat ps) = n * length ps.
Proof.
  induction 1 as [|p ps Hp _ IH]; cbn [concat length]; [lia|].
  rewrite length_app, IH, Hp. lia.
Qed.

(** *** Which descriptors a run uses *)

Lemma rendered_firstn (frs : list str) :
  forall q, rendered frs q = rendered frs (firstn (length frs) q).
Proof.
  induction frs as [|t r IH]; intros q; [reflexivity|].
  destruct q as [|l q']; cbn [rendered length firstn]; [reflexivity|].
  now rewrite <- IH.
Qed.

Lemma rendered_nil (frs : list str) : rendered frs [] = concat frs.
Proof.
  induction frs as [|t r IH]; cbn [rendered concat]; [reflexivity|].
  now rewrite IH.
Qed.

(** *** No Segment is empty when the entities fit *)

Lemma exact_nonempty (ps : list str) :
  Forall (fun p => length p = MAX) ps -> Forall (fun p => p <> []) ps.
Proof.
  pose proof MAX_pos as HM. apply Forall_impl.
  intros p H ->. simpl in H. lia.
Qed.

Lemma iteration_chunks_nonempty (s : loop_state) (t : str) :
  Forall (fun l => length (linkEntity l) <= MAX) (linksList s) ->
  Forall (fun p => p <> []) (chunks s) ->
  Forall (fun l => length (linkEntity l) <= MAX) (linksList (iteration s t))
  /\ Forall (fun p => p <> []) (chunks (iteration s t)).
Proof.
  intros Hq Hc. unfold iteration.
  destruct (add_fragment_spec (chunks s) (builder s) t)
    as (ps & b' & E & _ & Hp & Hb & _).
  rewrite E. cbn [fst snd].
  assert (H1 : Forall (fun p => p <> []) (chunks s ++ ps)).
  { apply Forall_app. split; [exact Hc|now apply exact_nonempty]. }
  destruct (linksList s) as [|l rest]; cbn [chunks linksList].
  - split; [constructor|exact H1].
  - inversion Hq as [|? ? Hl Hrest]; subst. split; [exact Hrest|].
    unfold add_link. cbn [fst snd].
    destruct (MAX <? length b' + length (linkEntity l)) eqn:El;
      cbn [fst]; [|exact H1].
    apply Nat.ltb_lt in El. apply Forall_app. split; [exact H1|].
    constructor; [|constructor]. intros ->. cbn [length] in El. lia.
Qed.

Lemma fold_chunks_nonempty (frs : list str) :
  forall s,
    Forall (fun l => length (linkEntity l) <= MAX) (linksList s) ->
    Forall (fun p => p <> []) (chunks s) ->
    Forall (fun p => p <> []) (chunks (fold_left iteration frs s)).
Proof.
  induction frs as [|t r IH]; intros s Hq Hc; [exact Hc|].
  cbn [fold_left].
  destruct (iteration_chunks_nonempty s t Hq Hc) as [A B]. now apply IH.
Qed.

(** *** When nothing is sent *)

Lemma concat_nil_repeat (frs : list str) :
  concat frs = [] -> frs = repeat [] (length frs).
Proof.
  induction frs as [|t r IH]; intros H; [reflexivity|].
  cbn [concat] in H. apply app_eq_nil in H. destruct H as [-> H].
  cbn [length repeat]. now rewrite <- IH.
Qed.

Lemma join_empty_fragments (n : nat) :
  join marker (repeat [] (S n)) = concat (repeat marker n).
Proof.
  induction n as [|n IH]; [reflexivity|].
  change (repeat [] (S (S n))) with (@nil ascii :: repeat [] (S n)).
  change (join marker ([] :: repeat [] (S n)))
    with ([] ++ marker ++ join marker (repeat [] (S n))).
  now rewrite IH.
Qed.

Lemma rendered_nonempty_queue (frs : list str) (l : descriptor)
      (q : list descriptor) :
  frs <> [] -> rendered frs (l :: q) <> [].
Proof.
  destruct frs as [|t r]; [congruence|]. intros _ H.
  cbn [rendered] in H. apply app_eq_nil in H. destruct H as [_ H].
  pose proof (linkEntity_nonempty l) as L.
  apply app_eq_nil in H. destruct H as [H _]. rewrite H in L.
  simpl in L. lia.
Qed.

Lemma empty_fragments_no_segment (n : nat) :
  forall s,
    linksList s = [] -> builder s = [] ->
    flush (fold_left iteration (repeat [] n) s) = chunks s.
Proof.
  pose proof MAX_pos as HM.
  induction n as [|n IH]; intros s Hq Hb.
  - cbn [repeat fold_left]. unfold flush. now rewrite Hb.
  - cbn [repeat fold_left].
    assert (E : iteration s [] =
                {| chunks := chunks s; builder := []; linksList := [] |}).
    { unfold iteration, add_fragment. rewrite Hq, Hb. cbn [fst snd app length].
      destruct (MAX <? 0) eqn:E0; [apply Nat.ltb_lt in E0; lia|reflexivity]. }
    rewrite E. now rewrite IH.
Qed.

Lemma split_scan_hashes (k : nat) :
  forall cur j r,
    j + S k = 15 ->
    split_scan cur j (repeat_char hash (S k) ++ r) = cur :: split_scan [] 0 r.
Proof.
  induction k as [|k IH]; intros cur j r H;
    cbn [repeat_char repeat app split_scan];
    change (Ascii.eqb hash hash) with true; cbn match.
  - replace j with 14 by lia. reflexivity.
  - destruct (j =? 14) eqn:E; [apply Nat.eqb_eq in E; lia|].
    apply (IH cur (S j) r). lia.
Qed.

Lemma split_markers (n : nat) :
  split_linkReplacer (concat (repeat marker n)) = repeat [] (S n).
Proof.
  unfold split_linkReplacer.
  induction n as [|n IH]; [reflexivity|].
  cbn [repeat concat]. unfold marker at 1.
  rewrite (split_scan_hashes 14 [] 0) by reflexivity.
  now rewrite IH.
Qed.

End ChunkerMore.

Import ChunkerMore.

(** X4: [text.split(linkReplacer)] loses nothing but the markers: joining
    the fragments with the marker gives the text back, and no fragment holds
    a marker of its own. *)
Theorem split_linkReplacer_join :
  forall text : str,
    join marker (split_linkReplacer text) = text
    /\ Forall (fun fr => count_markers fr = 0) (split_linkReplacer text).
Proof.
  intros text. split; [apply split_join|].
  eapply Forall_impl; [|apply split_scan_marker_free; auto; lia].
  intros fr H. now rewrite count_markers_hits.
Qed.

(** X5: [splitAndPush] cuts the text into pieces of exactly
    [MAX_TELEGRAM_MESSAGE_LENGTH] characters, pushes them behind what the
    array holds and returns what is left over: the text is the pieces
    followed by the remainder, there are [length / MAX] pieces and the
    remainder has [length mod MAX] characters, so it is empty when the
    length is a multiple of [MAX]. *)
Theorem splitAndPush_pieces :
  forall (arr : list str) (text : str),
    exists ps rem,
      splitAndPush arr text = (arr ++ ps, rem)
      /\ concat ps ++ rem = text
      /\ Forall (fun p => length p = MAX) ps
      /\ length ps = length text / MAX
      /\ length rem = length text mod MAX.
Proof.
  intros arr text.
  destruct (splitAndPush_spec arr text) as (ps & rem & E & Hc & Hp & Hr).
  exists ps, rem. repeat split; auto.
  - apply Nat.div_unique with (r := length rem); [exact Hr|].
    rewrite <- Hc, length_app, (concat_exact_length ps MAX Hp). lia.
  - apply Nat.mod_unique with (q := length ps); [exact Hr|].
    rewrite <- Hc, length_app, (concat_exact_length ps MAX Hp). lia.
Qed.

(** X7: The chunking loop takes one descriptor from the front of the queue
    for every fragment, as long as there is one: the Segments spell out the
    fragments with the entities of the first [markers + 1] descriptors
    between and behind them, and the queue is left with the descriptors
    beyond these. A descriptor too many in the queue is rendered behind the
    last fragment; descriptors beyond that one stay for the next call. *)
Theorem descriptors_consumed :
  forall (text : str) (q : list descriptor),
    concat (segments text q) =
    rendered (split_linkReplacer text) (firstn (S (count_markers text)) q)
    /\ queue_after text q = skipn (S (count_markers text)) q.
Proof.
  intros text q.
  assert (L : length (split_linkReplacer text) = S (count_markers text)).
  { unfold count_markers. pose proof (split_nonempty text). lia. }
  split.
  - now rewrite segments_spell_rendered, rendered_firstn, L.
  - unfold queue_after, chunk_loop. now rewrite fold_linksList, L.
Qed.

(** X8: When every queued descriptor renders to at most
    [MAX_TELEGRAM_MESSAGE_LENGTH] characters, no Segment is empty. *)
Theorem segments_not_empty :
  forall (text : str) (q : list descriptor),
    Forall (fun l => length (linkEntity l) <= MAX) q ->
    Forall (fun seg => seg <> []) (segments text q).
Proof.
  intros text q H. unfold segments, chunk_loop.
  set (s0 := {| chunks := []; builder := []; linksList := q |}).
  pose proof (fold_chunks_nonempty (split_linkReplacer text) s0 H
                (Forall_nil _)) as F.
  unfold flush. destruct (0 <? length (builder _)) eqn:E; [|exact F].
  apply Forall_app. split; [exact F|]. constructor; [|constructor].
  intros N. rewrite N in E. discriminate.
Qed.

Lemma segments_not_empty_witness :
  Forall (fun seg => seg <> [])
    (segments (lit "see ############### and more") [short_link]).
Proof.
  apply segments_not_empty. constructor; [|constructor].
  apply Nat.leb_le. vm_compute. reflexivity.
Defined.

(** X9: There is no Segment at all exactly when the queue is empty and the
    text consists of markers only; the empty text is such a text.
    [sendSplitMessage] then makes no request, changes nothing and returns
    [null]. *)
Theorem segments_nil_iff :
  forall (respond : nat -> Worker.response) (text : str) (w : Worker.world),
    (segments text (Worker.linksList w) = [] <->
     Worker.linksList w = [] /\ exists n, text = concat (repeat marker n))
    /\ (segments text (Worker.linksList w) = [] ->
        Worker.sendSplitMessage respond text w = (Worker.Returned None, w)).
Proof.
  intros respond text w.
  assert (G : segments text (Worker.linksList w) = [] <->
              Worker.linksList w = []
              /\ exists n, text = concat (repeat marker n)).
  { generalize (Worker.linksList w) as q. intros q. split.
    - intros E.
      assert (L : length (split_linkReplacer text) = S (count_markers text)).
      { unfold count_markers. pose proof (split_nonempty text). lia. }
      pose proof (segments_spell_rendered text q) as R. rewrite E in R.
      cbn [concat] in R. symmetry in R.
      destruct q as [|l q'].
      + split; [reflexivity|]. exists (count_markers text).
        rewrite rendered_nil in R.
        apply concat_nil_repeat in R. rewrite L in R.
        rewrite <- (split_join text) at 1. rewrite R.
        apply join_empty_fragments.
      + exfalso. revert R. apply rendered_nonempty_queue.
        intros N. rewrite N in L. discriminate.
    - intros [-> [n ->]]. unfold segments, chunk_loop.
      rewrite split_markers. now rewrite empty_fragments_no_segment. }
  split; [exact G|]. intros E.
  unfold Worker.sendSplitMessage. rewrite E. cbn [Worker.deliver].
  apply G in E. destruct E as [Eq _]. unfold Worker.ret.
  unfold queue_after, chunk_loop. rewrite fold_linksList.
  cbn [Chunker.linksList]. rewrite Eq, skipn_nil.
  destruct w as [q snt]. cbn [Worker.linksList Worker.sent] in *.
  now rewrite Eq.
Qed.

(** X29: Escaped text holds no placeholder marker: in the output of
    [escapeMarkdownV2] every [#] stands behind a backslash, so no run of
    fifteen can form, not even across the seam of two escaped texts; the
    split of [sendSplitMessage] leaves such a text in one fragment. *)
Theorem escaped_text_holds_no_marker :
  forall x y : str,
    count_markers (escapeMarkdownV2 x) = 0
    /\ count_markers (escapeMarkdownV2 x ++ escapeMarkdownV2 y) = 0
    /\ split_linkReplacer (escapeMarkdownV2 x) = [escapeMarkdownV2 x].
Proof.
  intros x y.
  assert (H : count_markers (escapeMarkdownV2 x) = 0).
  { rewrite count_markers_hits. apply (escaped_harmless x 0). lia. }
  split; [exact H|]. split.
  - rewrite count_markers_hits.
    apply (harmless_app _ _ (escaped_harmless x) (escaped_harmless y) 0). lia.
  - pose proof (split_join (escapeMarkdownV2 x)) as J.
    unfold count_markers in H.
    pose proof (split_nonempty (escapeMarkdownV2 x)) as L.
    destruct (split_linkReplacer (escapeMarkdownV2 x)) as [|fr [|fr2 l]];
      cbn [length] in *; [lia| |lia].
    cbn [join] in J. now rewrite J.
Qed.

(** ** The delivery loop: the reply chain and where it stops *)

Module DeliveryFacts.

Import Worker.

Lemma last_cons (A : Type) (l : list A) :
  forall a d, last (a :: l) d = last l a.
Proof.
  induction l as [|b l IH]; intros a d; [reflexivity|].
  change (last (a :: b :: l) d) with (last (b :: l) d).
  now rewrite !IH.
Qed.

Lemma message_texts_app (l1 l2 : list request) :
  message_texts (l1 ++ l2) = message_texts l1 ++ message_texts l2.
Proof.
  induction l1 as [|[t r|f id] l IH]; cbn [app message_texts];
    now rewrite ?IH.
Qed.

Lemma message_texts_payloads (cs : list str) :
  forall prev ids,
    length ids = length cs ->
    message_texts (payloads_from prev cs ids) = cs.
Proof.
  unfold payloads_from.
  induction cs as [|c r IH]; intros prev ids H; [reflexivity|].
  destruct ids as [|id ids']; [discriminate|].
  cbn [map combine message_texts payload fst snd]. f_equal.
  apply (IH (Some id) ids'). now injection H.
Qed.

Lemma message_texts_uploads (l : list Attachment) (id : Z) :
  message_texts (uploads l id) = [].
Proof. induction l as [|a r IH]; [reflexivity|exact IH]. Qed.

Lemma accepted_tail (respond : nat -> response) (n : nat) (id : Z)
      (ids : list Z) :
  accepted respond n (id :: ids) ->
  respond n = Ok id /\ accepted respond (S n) ids.
Proof.
  intros H. split.
  - rewrite <- (Nat.add_0_r n). now apply H.
  - intros i x Hx. replace (S n + i) with (n + S i) by lia. now apply H.
Qed.

Section Facts.

Variable respond : nat -> response.

Abbreviation deliver := (Worker.deliver respond).
Abbreviation sendSplitMessage := (Worker.sendSplitMessage respond).

(** When every Segment is accepted: one request per Segment, each a reply
    to the one before, and the last identifier is returned. *)
Lemma deliver_run (cs : list str) :
  forall prev ids w,
    length ids = length cs ->
    accepted respond (length (sent w)) ids ->
    deliver cs prev w =
    (Returned (last (map Some ids) prev),
     {| linksList := linksList w;
        sent := sent w ++ payloads_from prev cs ids |}).
Proof.
  induction cs as [|c r IH]; intros prev ids w L A.
  - destruct ids; [|discriminate]. cbn [Worker.deliver map last].
    unfold ret, payloads_from. cbn [combine map]. rewrite app_nil_r.
    now destruct w.
  - destruct ids as [|id ids']; [discriminate|].
    apply accepted_tail in A. destruct A as [A1 A2].
    cbn [Worker.deliver]. rewrite A1.
    rewrite (IH (Some id) ids').
    + cbn [linksList sent map]. rewrite last_cons.
      unfold payloads_from. cbn [combine map fst snd].
      now rewrite <- app_assoc.
    + now injection L.
    + cbn [sent]. rewrite length_app. cbn [length].
      now replace (length (sent w) + 1) with (S (length (sent w))) by lia.
Qed.

(** When the Segments [pre] are accepted and the next one is refused: the
    loop stops there; it throws if nothing was delivered and returns the
    last identifier otherwise. *)
Lemma deliver_stop (pre : list str) (c : str) (post : list str) (d : str) :
  forall prev ids w,
    length ids = length pre ->
    accepted respond (length (sent w)) ids ->
    respond (length (sent w) + length pre) = NotOk d ->
    deliver (pre ++ c :: post) prev w =
    (match last (map Some ids) prev with
     | None => Thrown d
     | Some id => Returned (Some id)
     end,
     {| linksList := linksList w;
        sent := sent w ++ payloads_from prev (pre ++ [c]) ids |}).
Proof.
  induction pre as [|p r IH]; intros prev ids w L A R.
  - destruct ids; [|discriminate]. cbn [app Worker.deliver map last].
    cbn [length] in R. rewrite Nat.add_0_r in R. rewrite R.
    unfold payloads_from. cbn [combine map fst snd].
    now destruct prev.
  - destruct ids as [|id ids']; [discriminate|].
    apply accepted_tail in A. destruct A as [A1 A2].
    cbn [app Worker.deliver]. rewrite A1.
    rewrite (IH (Some id) ids').
    + cbn [linksList sent map]. rewrite last_cons.
      unfold payloads_from. cbn [app combine map fst snd].
      now rewrite <- app_assoc.
    + now injection L.
    + cbn [sent]. rewrite length_app. cbn [length].
      now replace (length (sent w) + 1) with (S (length (sent w))) by lia.
    + cbn [sent]. rewrite length_app. cbn [length] in *.
      now replace (length (sent w) + 1 + length r)
        with (length (sent w) + S (length r)) by lia.
Qed.

Lemma sendAttachments_uploads (l : list Attachment) (id : Z) :
  forall w,
    sendAttachments l id w =
    (Returned tt,
     {| linksList := linksList w; sent := sent w ++ uploads l id |}).
Proof.
  induction l as [|a r IH]; intros w; cbn [sendAttachments uploads map].
  - unfold ret. rewrite app_nil_r. now destruct w.
  - unfold bind, sendAttachment. rewrite IH. cbn [linksList sent].
    now rewrite <- app_assoc.
Qed.

End Facts.

End DeliveryFacts.

Import DeliveryFacts.

(** X10: When Telegram accepts every Segment, [sendSplitMessage] makes one
    request per Segment, in order; the first is no reply and every other is
    a reply to the message of the one before; the call returns the
    identifier of the last message. The queue was shifted before the first
    request. *)
Theorem sendSplitMessage_reply_chain :
  forall (respond : nat -> Worker.response) (text : str) (w : Worker.world)
         (ids : list Z),
    length ids = length (segments text (Worker.linksList w)) ->
    accepted respond (length (Worker.sent w)) ids ->
    Worker.sendSplitMessage respond text w =
    (Worker.Returned (last (map Some ids) None),
     {| Worker.linksList := queue_after text (Worker.linksList w);
        Worker.sent :=
          Worker.sent w
          ++ payloads (segments text (Worker.linksList w)) ids |}).
Proof.
  intros respond text w ids L A. unfold Worker.sendSplitMessage.
  now rewrite (deliver_run respond _ None ids).
Qed.

Lemma sendSplitMessage_reply_chain_witness :
  Worker.sendSplitMessage accept_all (lit "Hi") no_requests =
  (Worker.Returned (last (map Some [1%Z]) None),
   {| Worker.linksList := queue_after (lit "Hi") (Worker.linksList no_requests);
      Worker.sent :=
        Worker.sent no_requests
        ++ payloads (segments (lit "Hi") (Worker.linksList no_requests))
             [1%Z] |}).
Proof.
  apply (sendSplitMessage_reply_chain accept_all (lit "Hi") no_requests [1%Z]).
  - reflexivity.
  - intros [|[|i]] id H; try discriminate. now injection H as <-.
Defined.

(** X11: When Telegram refuses a Segment, [sendSplitMessage] stops with that
    request: the Segments behind it are never sent. If it was the first
    Segment the call throws Telegram's description; otherwise it returns the
    identifier of the last message delivered. *)
Theorem sendSplitMessage_stops_at_refusal :
  forall (respond : nat -> Worker.response) (text : str) (w : Worker.world)
         (pre : list str) (c : str) (post : list str) (ids : list Z) (d : str),
    segments text (Worker.linksList w) = pre ++ c :: post ->
    length ids = length pre ->
    accepted respond (length (Worker.sent w)) ids ->
    respond (length (Worker.sent w) + length pre) = Worker.NotOk d ->
    Worker.sendSplitMessage respond text w =
    (match last (map Some ids) None with
     | None => Worker.Thrown d
     | Some id => Worker.Returned (Some id)
     end,
     {| Worker.linksList := queue_after text (Worker.linksList w);
        Worker.sent := Worker.sent w ++ payloads (pre ++ [c]) ids |}).
Proof.
  intros respond text w pre c post ids d E L A R.
  unfold Worker.sendSplitMessage. rewrite E.
  now rewrite (deliver_stop respond pre c post d None ids).
Qed.

Lemma sendSplitMessage_stops_at_refusal_witness :
  Worker.sendSplitMessage refuse_second (lit "Hi") crowded =
  (match last (map Some [7%Z]) None with
   | None => Worker.Thrown (lit "Too Many Requests")
   | Some id => Worker.Returned (Some id)
   end,
   {| Worker.linksList := queue_after (lit "Hi") (Worker.linksList crowded);
      Worker.sent :=
        Worker.sent crowded
        ++ payloads ([lit "Hi"] ++ [linkEntity long_link]) [7%Z] |}).
Proof.
  apply (sendSplitMessage_stops_at_refusal refuse_second (lit "Hi") crowded
           [lit "Hi"] (linkEntity long_link) [] [7%Z]
           (lit "Too Many Requests")).
  - vm_compute. reflexivity.
  - reflexivity.
  - intros [|[|i]] id H; try discriminate. now injection H as <-.
  - reflexivity.
Defined.

(** ** The entry point: what is sent, and in which order *)

Module WorkerMore.

Import Worker.

Lemma accepted_all (respond : nat -> response) (id_at : nat -> Z) (k : nat) :
  (forall n, respond n = Ok (id_at n)) ->
  forall n, accepted respond n (map id_at (seq n k)).
Proof.
  intros H. induction k as [|k IH]; intros n i id Hi.
  - destruct i; discriminate.
  - destruct i as [|i]; cbn [seq map nth_error] in Hi.
    + injection Hi as <-. now rewrite Nat.add_0_r.
    + replace (n + S i) with (S n + i) by lia. now apply (IH (S n)).
Qed.

Lemma last_identifier (id_at : nat -> Z) (k : nat) :
  forall n prev,
    last (map Some (map id_at (seq n (S k)))) prev = Some (id_at (n + k)).
Proof.
  induction k as [|k IH]; intros n prev.
  - cbn. now rewrite Nat.add_0_r.
  - change (seq n (S (S k))) with (n :: seq (S n) (S k)).
    cbn [map]. rewrite last_cons, IH. f_equal. f_equal. lia.
Qed.

Section Facts.

Variable respond : nat -> response.
Variable decode : str -> str.
Variable tokens_of : str -> list HTMLRewriter.token.
Variable fires_in_removed : bool.
Variable toLocaleString : str -> str.
Variable banner unknown_sender unknown_recipient no_subject no_content
         body_error : str.
Variable type_error : str.

Abbreviation deliver := (Worker.deliver respond).
Abbreviation sendSplitMessage := (Worker.sendSplitMessage respond).
Abbreviation main :=
  (Worker.main respond decode tokens_of fires_in_removed banner no_content).
Abbreviation fullMessageText := (Worker.fullMessageText banner).

(** *** The requests of a call are appended to those made before *)

Lemma deliver_grows (cs : list str) :
  forall prev w,
    exists r new,
      deliver cs prev w =
      (r, {| linksList := linksList w; sent := sent w ++ new |}).
Proof.
  induction cs as [|c rest IH]; intros prev w; cbn [Worker.deliver].
  - exists (Returned prev), []. unfold ret. rewrite app_nil_r. now destruct w.
  - destruct (respond (length (sent w))) as [id|d].
    + destruct (IH (Some id)
                  {| linksList := linksList w;
                     sent := sent w ++ [payload c prev] |})
        as (r & new & E).
      unfold payload in E. rewrite E. cbn [linksList sent].
      exists r, (payload c prev :: new). now rewrite <- app_assoc.
    + destruct prev as [id|].
      * exists (Returned (Some id)), [payload c (Some id)]. reflexivity.
      * exists (Thrown d), [payload c None]. reflexivity.
Qed.

Lemma deliver_first (c : str) (rest : list str) (w : world) :
  exists r more,
    deliver (c :: rest) None w =
    (r, {| linksList := linksList w;
           sent := sent w ++ SendMessage c None :: more |}).
Proof.
  cbn [Worker.deliver truthy_id].
  destruct (respond (length (sent w))) as [id|d].
  - destruct (deliver_grows rest (Some id)
                {| linksList := linksList w;
                   sent := sent w ++ [SendMessage c None] |})
      as (r & new & ->).
    cbn [linksList sent]. exists r, new. now rewrite <- app_assoc.
  - eexists. exists []. reflexivity.
Qed.

Lemma sendSplitMessage_grows (text : str) (w : world) :
  exists r q new,
    sendSplitMessage text w =
    (r, {| linksList := q; sent := sent w ++ new |}).
Proof.
  unfold Worker.sendSplitMessage.
  destruct (deliver_grows (segments text (linksList w)) None
              {| linksList := queue_after text (linksList w);
                 sent := sent w |}) as (r & new & ->).
  cbn [linksList sent]. eauto.
Qed.

Lemma sendSplitMessage_first (text : str) (w : world) :
  In ElementHandler.newline_char text ->
  exists r q c more,
    sendSplitMessage text w =
    (r, {| linksList := q; sent := sent w ++ SendMessage c None :: more |}).
Proof.
  intros Hin. unfold Worker.sendSplitMessage.
  destruct (segments text (linksList w)) as [|c rest] eqn:E.
  { exfalso. revert E.
    apply segments_nonempty with (c := ElementHandler.newline_char);
      [discriminate|exact Hin]. }
  destruct (deliver_first c rest
              {| linksList := queue_after text (linksList w);
                 sent := sent w |}) as (r & more & ->).
  cbn [linksList sent]. eauto.
Qed.

(** *** The body of the main message *)

(** What the [try] block sends first: the text it builds and the world in
    which it calls [sendSplitMessage]. *)
Lemma main_body (p : Email) (h : header) (w : world) :
  exists separate escaped q0,
    main p h w =
    bind (sendSplitMessage (fullMessageText h separate escaped))
      (fun firstMessageId =>
         if (0 <? length (attachments p)) && truthy_id firstMessageId
         then sendAttachments (attachments p) (id_of firstMessageId)
         else ret tt)
      {| linksList := q0; sent := sent w |}
    /\ (truthy (html p) = false -> q0 = linksList w)
    /\ (truthy (html p) = false ->
        forall x, text p = Some x -> x <> [] ->
                  separate = lit "text"
                  /\ escaped =
                     or_else (escapeMarkdownV2 (decode x)) no_content).
Proof.
  unfold Worker.main.
  destruct (html p) as [[|c0 x0]|] eqn:Eh;
    destruct (text p) as [[|c1 x1]|] eqn:Et;
    unfold bind at 1; unfold processHtml, ret; cbn [fst snd truthy];
    do 3 eexists;
    (split; [reflexivity|]);
    (split; [try discriminate; now destruct w|]);
    try discriminate; intros _ x Hx Hn;
    try discriminate; try (injection Hx as <-; try congruence; auto).
Qed.

Lemma main_body_html (p : Email) (h : header) (w : world) (x : str) :
  html p = Some x ->
  x <> [] ->
  let st :=
    HTMLRewriter.transform fires_in_removed decode (tokens_of x)
      (HTMLRewriter.start (linksList w)) in
  main p h w =
  bind (sendSplitMessage
          (fullMessageText h (lit "html")
             (or_else (tidy (HTMLRewriter.output st)) no_content)))
    (fun firstMessageId =>
       if (0 <? length (attachments p)) && truthy_id firstMessageId
       then sendAttachments (attachments p) (id_of firstMessageId)
       else ret tt)
    {| linksList := HTMLRewriter.linksList st; sent := sent w |}.
Proof.
  intros Hh Hx st. unfold Worker.main. rewrite Hh.
  destruct x as [|c r]; [congruence|].
  unfold bind at 1. unfold bind at 1. unfold processHtml, ret.
  reflexivity.
Qed.

End Facts.

End WorkerMore.

Import WorkerMore.

(** X12: When Telegram accepts every request, with identifiers other than 0,
    the handler sends the Segments of the main message as a reply chain and
    then one upload for every attachment, in the order of the e-mail, each a
    reply to the message of the last Segment; nothing else is sent and the
    handler returns. *)
Theorem attachments_follow_chain :
  forall (respond : nat -> Worker.response) (decode : str -> str)
         (tokens_of : str -> list HTMLRewriter.token) (fires_in_removed : bool)
         (toLocaleString : str -> str)
         (banner unknown_sender unknown_recipient no_subject no_content
            body_error type_error : str)
         (id_at : nat -> Z) (p : Worker.Email) (s : str) (w : Worker.world),
    Worker.subject p = Some s ->
    (forall n, respond n = Worker.Ok (id_at n)) ->
    (forall n, id_at n <> 0%Z) ->
    exists separate escaped q0,
      let segs :=
        segments
          (Worker.fullMessageText banner
             (Worker.header_of toLocaleString unknown_sender unknown_recipient
                no_subject p s)
             separate escaped) q0 in
      segs <> []
      /\ Worker.email respond decode tokens_of fires_in_removed toLocaleString
           banner unknown_sender unknown_recipient no_subject no_content
           body_error type_error (Worker.Returned p) w =
         (Worker.Returned tt,
          {| Worker.linksList :=
               queue_after
                 (Worker.fullMessageText banner
                    (Worker.header_of toLocaleString unknown_sender
                       unknown_recipient no_subject p s)
                    separate escaped) q0;
             Worker.sent :=
               Worker.sent w
               ++ payloads segs
                    (map id_at (seq (length (Worker.sent w)) (length segs)))
               ++ uploads (Worker.attachments p)
                    (id_at (length (Worker.sent w) + length segs - 1)) |}).
Proof.
  intros respond decode tokens_of fires toLocaleString banner
    unknown_sender unknown_recipient no_subject no_content body_error
    type_error id_at p s w Hs Hok Hid.
  unfold Worker.email, Worker.try_catch. rewrite Hs.
  set (h := Worker.header_of _ _ _ _ p s).
  destruct (main_body respond decode tokens_of fires banner no_content p h w)
    as (separate & escaped & q0 & -> & _).
  exists separate, escaped, q0.
  set (T := Worker.fullMessageText banner h separate escaped).
  set (segs := segments T q0). cbv zeta.
  assert (Hne : segs <> []).
  { apply segments_nonempty with (c := ElementHandler.newline_char);
      [discriminate|apply fullMessageText_newline]. }
  split; [exact Hne|].
  unfold Worker.bind, Worker.sendSplitMessage.
  cbn [Worker.linksList Worker.sent]. fold segs.
  rewrite (deliver_run respond segs None
             (map id_at (seq (length (Worker.sent w)) (length segs)))).
  2:{ now rewrite length_map, length_seq. }
  2:{ apply accepted_all. exact Hok. }
  cbn [Worker.linksList Worker.sent].
  destruct (length segs) as [|k] eqn:Ek.
  { destruct segs; [congruence|discriminate]. }
  rewrite last_identifier.
  replace (length (Worker.sent w) + S k - 1)
    with (length (Worker.sent w) + k) by lia.
  cbn [Worker.truthy_id Worker.id_of].
  destruct (Z.eqb_spec (id_at (length (Worker.sent w) + k)) 0) as [E|_];
    [now apply Hid in E|].
  cbn [negb]. rewrite andb_true_r.
  destruct (Worker.attachments p) as [|a l] eqn:Ea;
    cbn [length Nat.ltb Nat.leb].
  - unfold Worker.ret, uploads. cbn [map]. now rewrite app_nil_r.
  - rewrite sendAttachments_uploads. cbn [Worker.linksList Worker.sent].
    unfold payloads. now rewrite <- app_assoc.
Qed.

Lemma attachments_follow_chain_witness :
  exists separate escaped q0,
    let segs :=
      segments
        (Worker.fullMessageText (lit "New mail")
           (Worker.header_of (fun s => s) (lit "unknown sender")
              (lit "unknown recipient") (lit "(no subject)") report_mail
              (lit "Report"))
           separate escaped) q0 in
    segs <> []
    /\ email_with accept_all (Worker.Returned report_mail) no_requests =
       (Worker.Returned tt,
        {| Worker.linksList :=
             queue_after
               (Worker.fullMessageText (lit "New mail")
                  (Worker.header_of (fun s => s) (lit "unknown sender")
                     (lit "unknown recipient") (lit "(no subject)") report_mail
                     (lit "Report"))
                  separate escaped) q0;
           Worker.sent :=
             Worker.sent no_requests
             ++ payloads segs
                  (map (fun n => Z.of_nat (S n))
                     (seq (length (Worker.sent no_requests)) (length segs)))
             ++ uploads (Worker.attachments report_mail)
                  (Z.of_nat
                     (S (length (Worker.sent no_requests) + length segs
                         - 1))) |}).
Proof.
  apply (attachments_follow_chain accept_all (fun s => s) (fun _ => []) false
           (fun s => s) (lit "New mail") (lit "unknown sender")
           (lit "unknown recipient") (lit "(no subject)") (lit "(no content)")
           (lit "(body error)") (lit "TypeError")
           (fun n => Z.of_nat (S n)) report_mail (lit "Report") no_requests).
  - reflexivity.
  - reflexivity.
  - intros n. lia.
Defined.

(** X13: An e-mail that has no subject makes the handler throw a [TypeError]
    before any request is made. For every other parsed e-mail the handler
    makes at least one request, whatever Telegram answers, and the first one
    is a [sendMessage] that is no reply. *)
Theorem email_first_request :
  forall (respond : nat -> Worker.response) (decode : str -> str)
         (tokens_of : str -> list HTMLRewriter.token) (fires_in_removed : bool)
         (toLocaleString : str -> str)
         (banner unknown_sender unknown_recipient no_subject no_content
            body_error type_error : str)
         (p : Worker.Email) (w : Worker.world),
    let run :=
      Worker.email respond decode tokens_of fires_in_removed toLocaleString
        banner unknown_sender unknown_recipient no_subject no_content
        body_error type_error (Worker.Returned p) w in
    match Worker.subject p with
    | None => run = (Worker.Thrown type_error, w)
    | Some _ =>
        exists c more,
          Worker.sent (snd run) =
          Worker.sent w ++ Worker.SendMessage c None :: more
    end.
Proof.
  intros respond decode tokens_of fires toLocaleString banner
    unknown_sender unknown_recipient no_subject no_content body_error
    type_error p w run. subst run.
  unfold Worker.email. destruct (Worker.subject p) as [s|]; [|reflexivity].
  set (h := Worker.header_of _ _ _ _ p s).
  unfold Worker.try_catch.
  destruct (main_body respond decode tokens_of fires banner no_content p h w)
    as (separate & escaped & q0 & -> & _).
  unfold Worker.bind at 1.
  destruct (sendSplitMessage_first respond
              (Worker.fullMessageText banner h separate escaped)
              {| Worker.linksList := q0; Worker.sent := Worker.sent w |}
              (fullMessageText_newline banner h separate escaped))
    as (r & q & c & more & ->).
  cbn [Worker.sent]. exists c.
  destruct r as [id|e].
  - destruct ((0 <? length (Worker.attachments p)) && Worker.truthy_id id).
    + rewrite sendAttachments_uploads. cbn [snd Worker.sent].
      eexists. now rewrite <- app_assoc.
    + unfold Worker.ret. cbn [snd Worker.sent]. eauto.
  - unfold Worker.bind.
    destruct (sendSplitMessage_grows respond
                (Worker.fallbackText banner body_error h e)
                {| Worker.linksList := q;
                   Worker.sent :=
                     Worker.sent w ++ Worker.SendMessage c None :: more |})
      as (r' & q' & new & ->).
    cbn [Worker.sent].
    destruct r'; cbn [snd Worker.sent]; unfold Worker.ret;
      cbn [snd Worker.sent]; eexists; now rewrite <- app_assoc.
Qed.

(** X14: A mail that has a plain-text body and no HTML body never reaches
    the transducer. Starting from an empty link queue and with a Telegram
    that accepts every request, the handler returns, the queue is empty
    afterwards, and the texts of the messages it sends are the Segments of
    the header followed by the escaped text: each of at most
    [MAX_TELEGRAM_MESSAGE_LENGTH] characters, and together the whole message
    without its placeholder markers, if it has any. *)
Theorem plain_text_mail :
  forall (respond : nat -> Worker.response) (decode : str -> str)
         (tokens_of : str -> list HTMLRewriter.token) (fires_in_removed : bool)
         (toLocaleString : str -> str)
         (banner unknown_sender unknown_recipient no_subject no_content
            body_error type_error : str)
         (id_at : nat -> Z) (p : Worker.Email) (s x : str) (w : Worker.world),
    Worker.subject p = Some s ->
    truthy (Worker.html p) = false ->
    Worker.text p = Some x ->
    x <> [] ->
    Worker.linksList w = [] ->
    (forall n, respond n = Worker.Ok (id_at n)) ->
    let T :=
      Worker.fullMessageText banner
        (Worker.header_of toLocaleString unknown_sender unknown_recipient
           no_subject p s)
        (lit "text")
        (Worker.or_else (escapeMarkdownV2 (decode x)) no_content) in
    exists new w',
      Worker.email respond decode tokens_of fires_in_removed toLocaleString
        banner unknown_sender unknown_recipient no_subject no_content
        body_error type_error (Worker.Returned p) w = (Worker.Returned tt, w')
      /\ Worker.linksList w' = []
      /\ Worker.sent w' = Worker.sent w ++ new
      /\ message_texts new = segments T []
      /\ Forall (fun seg => length seg <= MAX) (message_texts new)
      /\ concat (message_texts new) = concat (split_linkReplacer T).
Proof.
  intros respond decode tokens_of fires toLocaleString banner
    unknown_sender unknown_recipient no_subject no_content body_error
    type_error id_at p s x w Hs Hh Ht Hx Hq Hok T.
  unfold Worker.email, Worker.try_catch. rewrite Hs.
  set (h := Worker.header_of _ _ _ _ p s) in *.
  destruct (main_body respond decode tokens_of fires banner no_content p h w)
    as (separate & escaped & q0 & -> & Q & B).
  destruct (B Hh x Ht Hx) as [-> ->]. rewrite (Q Hh), Hq. fold T.
  unfold Worker.bind, Worker.sendSplitMessage.
  cbn [Worker.linksList Worker.sent].
  set (segs := segments T []).
  rewrite (deliver_run respond segs None
             (map id_at (seq (length (Worker.sent w)) (length segs)))).
  2:{ now rewrite length_map, length_seq. }
  2:{ apply accepted_all. exact Hok. }
  cbn [Worker.linksList Worker.sent].
  assert (Hq' : queue_after T [] = []).
  { unfold queue_after, chunk_loop. rewrite fold_linksList.
    apply skipn_nil. }
  assert (Hm : message_texts
                 (payloads_from None segs
                    (map id_at (seq (length (Worker.sent w)) (length segs))))
               = segs).
  { apply message_texts_payloads. now rewrite length_map, length_seq. }
  assert (Hshort : Forall (fun seg => length seg <= MAX) segs).
  { subst segs. unfold segments, chunk_loop.
    pose proof (split_nonempty T) as Hne.
    destruct (exists_last (l := split_linkReplacer T)) as (init & t & E).
    { intros E. rewrite E in Hne. simpl in Hne. lia. }
    rewrite E, fold_left_app. cbn [fold_left].
    apply flush_short.
    - apply iteration_chunks_short, fold_chunks_short. constructor.
    - apply iteration_builder_short. intros l Hl.
      rewrite fold_linksList in Hl. cbn [Chunker.linksList] in Hl.
      rewrite skipn_nil in Hl. discriminate. }
  assert (Hcat : concat segs = concat (split_linkReplacer T)).
  { subst segs. now rewrite segments_spell_rendered, rendered_nil. }
  destruct ((0 <? length (Worker.attachments p))
            && Worker.truthy_id
                 (last (map Some
                          (map id_at
                             (seq (length (Worker.sent w)) (length segs))))
                    None)).
  - rewrite sendAttachments_uploads. cbn [Worker.linksList Worker.sent].
    eexists. eexists. split; [reflexivity|].
    cbn [Worker.linksList Worker.sent]. split; [exact Hq'|].
    split; [now rewrite <- app_assoc|].
    rewrite message_texts_app, message_texts_uploads, app_nil_r, Hm.
    auto.
  - unfold Worker.ret. eexists. eexists. split; [reflexivity|].
    cbn [Worker.linksList Worker.sent]. split; [exact Hq'|].
    split; [reflexivity|]. rewrite Hm. auto.
Qed.

Lemma plain_text_mail_witness :
  let T :=
    Worker.fullMessageText (lit "New mail")
      (Worker.header_of (fun s => s) (lit "unknown sender")
         (lit "unknown recipient") (lit "(no subject)") plain_mail (lit "Hi!"))
      (lit "text")
      (Worker.or_else (escapeMarkdownV2 (lit "Hello Bob."))
         (lit "(no content)"))
  in
  exists new w',
    email_with accept_all (Worker.Returned plain_mail) no_requests
    = (Worker.Returned tt, w')
    /\ Worker.linksList w' = []
    /\ Worker.sent w' = Worker.sent no_requests ++ new
    /\ message_texts new = segments T []
    /\ Forall (fun seg => length seg <= MAX) (message_texts new)
    /\ concat (message_texts new) = concat (split_linkReplacer T).
Proof.
  apply (plain_text_mail accept_all (fun s => s) (fun _ => []) false
           (fun s => s) (lit "New mail") (lit "unknown sender")
           (lit "unknown recipient") (lit "(no subject)") (lit "(no content)")
           (lit "(body error)") (lit "TypeError")
           (fun n => Z.of_nat (S n)) plain_mail (lit "Hi!") (lit "Hello Bob.")
           no_requests); try reflexivity.
  discriminate.
Defined.

(** X30: A mail with an HTML body, starting from an empty link queue and
    with a Telegram that accepts every request.  When the full message has
    as many placeholder markers as the transducer queued descriptors, and
    every descriptor renders to at most [MAX_TELEGRAM_MESSAGE_LENGTH]
    characters, then the handler returns, the texts of the messages it
    sends are the Segments of the full message, each of at most
    [MAX_TELEGRAM_MESSAGE_LENGTH] characters, together they are the message
    with every marker replaced by the entity of its descriptor, in order,
    and the queue is empty afterwards. *)
Theorem html_mail :
  forall (respond : nat -> Worker.response) (decode : str -> str)
         (tokens_of : str -> list HTMLRewriter.token) (fires_in_removed : bool)
         (toLocaleString : str -> str)
         (banner unknown_sender unknown_recipient no_subject no_content
            body_error type_error : str)
         (id_at : nat -> Z) (p : Worker.Email) (s x : str) (w : Worker.world),
    Worker.subject p = Some s ->
    Worker.html p = Some x ->
    x <> [] ->
    Worker.linksList w = [] ->
    (forall n, respond n = Worker.Ok (id_at n)) ->
    let st :=
      HTMLRewriter.transform fires_in_removed decode (tokens_of x)
        (HTMLRewriter.start []) in
    let T :=
      Worker.fullMessageText banner
        (Worker.header_of toLocaleString unknown_sender unknown_recipient
           no_subject p s)
        (lit "html")
        (Worker.or_else (Worker.tidy (HTMLRewriter.output st)) no_content) in
    count_markers T = length (HTMLRewriter.linksList st) ->
    Forall (fun l => length (linkEntity l) <= MAX)
      (HTMLRewriter.linksList st) ->
    exists new w',
      Worker.email respond decode tokens_of fires_in_removed toLocaleString
        banner unknown_sender unknown_recipient no_subject no_content
        body_error type_error (Worker.Returned p) w = (Worker.Returned tt, w')
      /\ Worker.linksList w' = []
      /\ Worker.sent w' = Worker.sent w ++ new
      /\ message_texts new = segments T (HTMLRewriter.linksList st)
      /\ Forall (fun seg => length seg <= MAX) (message_texts new)
      /\ concat (message_texts new) =
         rendered (split_linkReplacer T) (HTMLRewriter.linksList st).
Proof.
  intros respond decode tokens_of fires toLocaleString banner
    unknown_sender unknown_recipient no_subject no_content body_error
    type_error id_at p s x w Hs Hh Hx Hq Hok st T Hc Hf.
  unfold Worker.email, Worker.try_catch. rewrite Hs.
  set (h := Worker.header_of _ _ _ _ p s) in *.
  rewrite (main_body_html respond decode tokens_of fires banner no_content
             p h w x Hh Hx).
  rewrite Hq. fold st. fold T.
  set (q := HTMLRewriter.linksList st) in *.
  unfold Worker.bind, Worker.sendSplitMessage.
  cbn [Worker.linksList Worker.sent].
  set (segs := segments T q).
  rewrite (deliver_run respond segs None
             (map id_at (seq (length (Worker.sent w)) (length segs)))).
  2:{ now rewrite length_map, length_seq. }
  2:{ apply accepted_all. exact Hok. }
  cbn [Worker.linksList Worker.sent].
  assert (L : length (split_linkReplacer T) = S (count_markers T)).
  { unfold count_markers. pose proof (split_nonempty T). lia. }
  assert (Hq' : queue_after T q = []).
  { unfold queue_after, chunk_loop. rewrite fold_linksList.
    cbn [Chunker.linksList]. apply skipn_all2. lia. }
  assert (Hm : message_texts
                 (payloads_from None segs
                    (map id_at (seq (length (Worker.sent w)) (length segs))))
               = segs).
  { apply message_texts_payloads. now rewrite length_map, length_seq. }
  assert (Hshort : Forall (fun seg => length seg <= MAX) segs).
  { subst segs. unfold segments, chunk_loop.
    pose proof (split_nonempty T) as Hne.
    destruct (exists_last (l := split_linkReplacer T)) as (init & t & E).
    { intros E. rewrite E in Hne. simpl in Hne. lia. }
    rewrite E, fold_left_app. cbn [fold_left].
    apply flush_short.
    - apply iteration_chunks_short, fold_chunks_short. constructor.
    - apply iteration_builder_short. intros l Hl.
      rewrite fold_linksList, hd_error_skipn in Hl.
      cbn [Chunker.linksList] in Hl. apply nth_error_In in Hl.
      now apply (proj1 (Forall_forall _ _) Hf). }
  assert (Hcat : concat segs = rendered (split_linkReplacer T) q).
  { subst segs. apply segments_spell_rendered. }
  destruct ((0 <? length (Worker.attachments p))
            && Worker.truthy_id
                 (last (map Some
                          (map id_at
                             (seq (length (Worker.sent w)) (length segs))))
                    None)).
  - rewrite sendAttachments_uploads. cbn [Worker.linksList Worker.sent].
    eexists. eexists. split; [reflexivity|].
    cbn [Worker.linksList Worker.sent]. split; [exact Hq'|].
    split; [now rewrite <- app_assoc|].
    rewrite message_texts_app, message_texts_uploads, app_nil_r, Hm.
    auto.
  - unfold Worker.ret. eexists. eexists. split; [reflexivity|].
    cbn [Worker.linksList Worker.sent]. split; [exact Hq'|].
    split; [reflexivity|]. rewrite Hm. auto.
Qed.

Lemma html_mail_witness :
  let st :=
    HTMLRewriter.transform false (fun s => s) sample_document
      (HTMLRewriter.start []) in
  let T :=
    Worker.fullMessageText (lit "New mail")
      (Worker.header_of (fun s => s) (lit "unknown sender")
         (lit "unknown recipient") (lit "(no subject)") offer_mail
         (lit "Offer"))
      (lit "html")
      (Worker.or_else (Worker.tidy (HTMLRewriter.output st))
         (lit "(no content)")) in
  exists new w',
    email_on sample_document accept_all (Worker.Returned offer_mail)
      no_requests = (Worker.Returned tt, w')
    /\ Worker.linksList w' = []
    /\ Worker.sent w' = Worker.sent no_requests ++ new
    /\ message_texts new = segments T (HTMLRewriter.linksList st)
    /\ Forall (fun seg => length seg <= MAX) (message_texts new)
    /\ concat (message_texts new) =
       rendered (split_linkReplacer T) (HTMLRewriter.linksList st).
Proof.
  apply (html_mail accept_all (fun s => s) (fun _ => sample_document) false
           (fun s => s) (lit "New mail") (lit "unknown sender")
           (lit "unknown recipient") (lit "(no subject)") (lit "(no content)")
           (lit "(body error)") (lit "TypeError")
           (fun n => Z.of_nat (S n)) offer_mail (lit "Offer")
           (lit "<!DOCTYPE html><p>...</p>") no_requests).
  - reflexivity.
  - reflexivity.
  - discriminate.
  - reflexivity.
  - intros n. reflexivity.
  - vm_compute. reflexivity.
  - apply Forall_forall. intros l Hl. apply Nat.leb_le. revert l Hl.
    apply (proj1 (forallb_forall
             (fun l => length (linkEntity l) <=? MAX) _)).
    vm_compute. reflexivity.
Defined.

(** ** The transducer: removed elements, anchors, media and what is queued *)

Module TransducerMore.

Import ElementHandler HTMLRewriter.

(** *** Trimming keeps a text guarded *)

Lemma is_space_plain (c : ascii) :
  is_space c = true -> reserved c = false /\ Ascii.eqb c backslash = false.
Proof.
  destruct c as [[] [] [] [] [] [] [] []]; cbn; intros H;
    try discriminate; split; reflexivity.
Qed.

Lemma guarded_weaken (t : str) (p q : option ascii) :
  guarded p t = true ->
  (not_after_backslash q = true -> not_after_backslash p = true) ->
  guarded q t = true.
Proof.
  destruct t as [|c r]; [reflexivity|]. cbn [guarded]. intros G H.
  apply andb_prop in G. destruct G as [G1 G2]. rewrite G2, andb_true_r.
  destruct (reserved c); [|reflexivity]. cbn [andb] in *.
  destruct (not_after_backslash q); [|reflexivity].
  now rewrite H in G1.
Qed.

Lemma guarded_trimStart (t : str) :
  forall prev,
    not_after_backslash prev = true ->
    guarded prev t = true -> guarded prev (trimStart t) = true.
Proof.
  induction t as [|c r IH]; intros prev Hp G; [reflexivity|].
  cbn [trimStart]. destruct (is_space c) eqn:Ec; [|exact G].
  cbn [guarded] in G. apply andb_prop in G. destruct G as [_ G].
  destruct (is_space_plain c Ec) as [_ Hb].
  apply IH; [exact Hp|]. apply (guarded_weaken r (Some c)); [exact G|].
  intros _. unfold not_after_backslash. now rewrite Hb.
Qed.

Lemma guarded_app_l (t1 t2 : str) :
  forall prev, guarded prev (t1 ++ t2) = true -> guarded prev t1 = true.
Proof.
  induction t1 as [|c r IH]; intros prev G; [reflexivity|].
  cbn [app guarded] in *. apply andb_prop in G. destruct G as [G1 G2].
  now rewrite G1, (IH _ G2).
Qed.

(** [trimStart] drops a prefix. *)
Lemma trimStart_suffix (t : str) : exists pre, t = pre ++ trimStart t.
Proof.
  induction t as [|c r IH]; [now exists []|].
  cbn [trimStart]. destruct (is_space c).
  - destruct IH as (pre & E). exists (c :: pre). cbn [app]. now rewrite <- E.
  - now exists [].
Qed.

Lemma guarded_trim (t : str) :
  guarded None t = true -> guarded None (trim t) = true.
Proof.
  intros G. unfold trim.
  apply (guarded_trimStart t None eq_refl) in G.
  destruct (trimStart_suffix (rev (trimStart t))) as (pre & E).
  apply (f_equal (@rev ascii)) in E. rewrite rev_involutive, rev_app_distr in E.
  rewrite E in G. now apply guarded_app_l in G.
Qed.

(** *** What a descriptor looks like *)

Lemma media_tag_plain (name : str) :
  includes media_tags name = true -> name <> [] /\ guarded None name = true.
Proof.
  intros H. apply includes_In in H.
  destruct H as [<-|[<-|[<-|[<-|[]]]]]; split; (discriminate || reflexivity).
Qed.

Lemma truthy_value (o : option str) : truthy o = true -> value o <> [].
Proof. destruct o as [[|c r]|]; cbn; intros H; congruence. Qed.

Section Facts.

Variable fires_in_removed : bool.
Variable decode : str -> str.

Abbreviation text := (ElementHandler.text decode).
Abbreviation react := (HTMLRewriter.react fires_in_removed decode).
Abbreviation step := (HTMLRewriter.step fires_in_removed decode).
Abbreviation transform := (HTMLRewriter.transform fires_in_removed decode).
Abbreviation escaped_text := (HTMLRewriter.escaped_text decode).

(** Every descriptor [text] queues has a description and a target, and
    the description is guarded. *)
Lemma text_queues (h : this) (q : list descriptor) (t : Text) :
  exists new,
    snd (fst (text h q t)) = q ++ new
    /\ Forall (fun d => desc d <> [] /\ link d <> []
                        /\ guarded None (desc d) = true) new.
Proof.
  unfold ElementHandler.text.
  destruct (eqb_str (tag h) (lit "a") && truthy (herf h)) eqn:Ea.
  { apply andb_prop in Ea. destruct Ea as [_ Eh]. cbn [fst snd].
    eexists [_]. split; [reflexivity|]. constructor; [|constructor].
    cbn [desc link]. split; [|split; [now apply truthy_value|]].
    - destruct (trim _); discriminate.
    - pose proof (guarded_trim (escapeMarkdownV2 (decode (text_ t)))
                    (replace_from_guarded _ None)) as G.
      destruct (trim _); [reflexivity|exact G]. }
  destruct (includes media_tags (tag h) && negb (nestedInA h)) eqn:Em.
  { apply andb_prop in Em. destruct Em as [Em _].
    destruct (lastInTextNode t && truthy (src h)) eqn:El; cbn [fst snd].
    - apply andb_prop in El. destruct El as [_ Es].
      destruct (media_tag_plain _ Em) as [M1 M2].
      eexists [_]. split; [reflexivity|]. constructor; [|constructor].
      cbn [desc link]. split; [exact M1|].
      split; [now apply truthy_value|exact M2].
    - exists []. now rewrite app_nil_r. }
  destruct (includes inline_tags (tag h)); cbn [fst snd];
    exists []; now rewrite app_nil_r.
Qed.

Lemma react_queues (s : state) (tok : token) :
  exists new,
    linksList' (react s tok) = linksList s ++ new
    /\ Forall (fun d => desc d <> [] /\ link d <> []
                        /\ guarded None (desc d) = true) new.
Proof.
  destruct (is_text tok) eqn:E.
  - destruct tok as [| |t| |]; try discriminate. cbn [HTMLRewriter.react].
    destruct (stack s) as [|f rest].
    + exists []. cbn. now rewrite app_nil_r.
    + destruct (emitting (f :: rest) || fires_in_removed).
      * destruct (text_queues (handler s) (linksList s) t) as (new & Hn & F).
        destruct (text (handler s) (linksList s) t) as [[h q] m].
        cbn [fst snd] in Hn. cbn [linksList']. now exists new.
      * exists []. cbn. now rewrite app_nil_r.
  - destruct (react_not_text fires_in_removed decode s tok E) as (-> & _).
    exists []. now rewrite app_nil_r.
Qed.

(** *** Removed elements *)

Lemma element_removed (h : this) (el : Element) :
  includes removed_tags (toLowerCase (tagName el)) = true ->
  element h el = (h, Remove, false).
Proof. intros H. unfold ElementHandler.element. now rewrite H. Qed.

Lemma removed_open (s : state) (el : Element) (source : str) (void : bool) :
  includes removed_tags (toLowerCase (tagName el)) = true ->
  output (step s (StartTag el source void)) = output s
  /\ (void = true -> stack (step s (StartTag el source void)) = stack s)
  /\ (void = false ->
      exists f,
        stack (step s (StartTag el source void)) = f :: stack s
        /\ emitting (f :: stack s) = false).
Proof.
  intros Hel. unfold HTMLRewriter.step. cbn [HTMLRewriter.react].
  destruct (emitting (stack s)) eqn:Ee; cbn [orb].
  - rewrite (element_removed _ _ Hel).
    cbn [stack output stack' copied written tags_kept].
    rewrite andb_false_r, !app_nil_r. split; [reflexivity|].
    split; intros ->; [reflexivity|]. eexists. split; reflexivity.
  - destruct fires_in_removed.
    + rewrite (element_removed _ _ Hel).
      cbn [stack output stack' copied written andb].
      rewrite !app_nil_r. split; [reflexivity|].
      split; intros ->; [reflexivity|]. eexists. split; reflexivity.
    + cbn [stack output stack' copied written].
      rewrite !app_nil_r. split; [reflexivity|].
      split; intros ->; [reflexivity|]. eexists. split; [reflexivity|].
      cbn [emitting forallb content_removed negb andb]. exact Ee.
Qed.

(** *** The first chunk of an anchor that has a target *)

Lemma text_targeted (h : this) (q : list descriptor) (t : Text) (href : str) :
  tag h = lit "a" ->
  herf h = Some href ->
  href <> [] ->
  text h q t =
  ({| tag := lit "a"; herf := Some []; src := src h;
      nestedInA := nestedInA h |},
   q ++ [{| desc := Worker.or_else (trim (escapeMarkdownV2 (decode (text_ t))))
                      (lit "link\-\>");
            link := href |}],
   {| replaced := Some marker; after := [] |}).
Proof.
  intros Ht Hh Hn. unfold ElementHandler.text. rewrite Ht, Hh.
  destruct href as [|c r]; [congruence|]. cbn [eqb_str truthy andb value].
  change (eqb_str (lit "a") (lit "a")) with true.
  change (eqb_str (lit "a") (lit "td")) with false. cbn match.
  unfold Worker.or_else. reflexivity.
Qed.

(** *** Text in an element that is neither an anchor nor a media element *)

(** What [text] writes for a chunk in an element called [name]. *)
Lemma text_plain (h : this) (q : list descriptor) (t : Text) :
  eqb_str (tag h) (lit "a") = false ->
  includes media_tags (tag h) = false ->
  text h q t =
  (h, q,
   {| replaced :=
        Some (escapeMarkdownV2 (decode (text_ t))
              ++ if includes inline_tags (tag h) then [] else newline);
      after := if eqb_str (tag h) (lit "td") then lit " " else [] |}).
Proof.
  intros Ha Hm. unfold ElementHandler.text. rewrite Ha, Hm. cbn [andb].
  destruct (includes inline_tags (tag h)); [|reflexivity].
  now rewrite app_nil_r.
Qed.

Lemma plain_chunks (chunks : list Text) :
  forall s,
    eqb_str (tag (handler s)) (lit "a") = false ->
    includes media_tags (tag (handler s)) = false ->
    stack s <> [] ->
    emitting (stack s) = true ->
    transform (map TextChunk chunks) s =
    {| handler := handler s; linksList := linksList s; stack := stack s;
       output :=
         output s
         ++ concat
              (map (fun t =>
                      escapeMarkdownV2 (decode (text_ t))
                      ++ (if includes inline_tags (tag (handler s))
                          then [] else newline)
                      ++ (if eqb_str (tag (handler s)) (lit "td")
                          then lit " " else []))
                 chunks) |}.
Proof.
  induction chunks as [|t r IH]; intros s Ha Hm Hs He.
  - cbn. rewrite app_nil_r. now destruct s.
  - cbn [map HTMLRewriter.transform fold_left].
    assert (G : step s (TextChunk t) =
                {| handler := handler s; linksList := linksList s;
                   stack := stack s;
                   output :=
                     output s
                     ++ escapeMarkdownV2 (decode (text_ t))
                     ++ (if includes inline_tags (tag (handler s))
                         then [] else newline)
                     ++ (if eqb_str (tag (handler s)) (lit "td")
                         then lit " " else []) |}).
    { unfold HTMLRewriter.step. cbn [HTMLRewriter.react].
      destruct (stack s) as [|f rest] eqn:Es; [congruence|].
      rewrite He. cbn [orb]. rewrite (text_plain _ _ _ Ha Hm).
      cbn [handler' linksList' stack' copied written replaced after value app].
      now rewrite <- app_assoc. }
    rewrite G. unfold HTMLRewriter.transform in IH. rewrite IH; auto.
    cbn [handler linksList stack output map concat].
    now rewrite <- !app_assoc.
Qed.

(** *** Text behind a media element *)

Lemma text_media_waiting (h : this) (q : list descriptor) (t : Text) :
  includes media_tags (tag h) = true ->
  nestedInA h = false ->
  lastInTextNode t = false ->
  text h q t = (h, q, {| replaced := None; after := [] |}).
Proof.
  intros Hm Hn Hl. unfold ElementHandler.text. rewrite Hm, Hn, Hl.
  apply includes_In in Hm.
  destruct Hm as [<-|[<-|[<-|[<-|[]]]]]; reflexivity.
Qed.

Lemma text_media_last (h : this) (q : list descriptor) (t : Text)
      (target : str) :
  includes media_tags (tag h) = true ->
  nestedInA h = false ->
  lastInTextNode t = true ->
  src h = Some target ->
  target <> [] ->
  text h q t =
  ({| tag := []; herf := herf h; src := src h; nestedInA := false |},
   q ++ [{| desc := tag h; link := target |}],
   {| replaced := Some marker; after := [] |}).
Proof.
  intros Hm Hn Hl Hs Ht. unfold ElementHandler.text.
  rewrite Hm, Hn, Hl, Hs.
  destruct target as [|c r]; [congruence|]. cbn [truthy andb negb value].
  apply includes_In in Hm.
  destruct Hm as [<-|[<-|[<-|[<-|[]]]]]; reflexivity.
Qed.

Lemma waiting_chunks (chunks : list Text) :
  forall s,
    includes media_tags (tag (handler s)) = true ->
    nestedInA (handler s) = false ->
    stack s <> [] ->
    emitting (stack s) = true ->
    Forall (fun t => lastInTextNode t = false) chunks ->
    transform (map TextChunk chunks) s =
    {| handler := handler s; linksList := linksList s; stack := stack s;
       output := output s ++ concat (map text_ chunks) |}.
Proof.
  induction chunks as [|t r IH]; intros s Hm Hn Hs He F.
  - cbn. rewrite app_nil_r. now destruct s.
  - inversion F as [|? ? Ft Fr]; subst.
    cbn [map HTMLRewriter.transform fold_left].
    assert (G : step s (TextChunk t) =
                {| handler := handler s; linksList := linksList s;
                   stack := stack s; output := output s ++ text_ t |}).
    { unfold HTMLRewriter.step. cbn [HTMLRewriter.react].
      destruct (stack s) as [|f rest] eqn:Es; [congruence|].
      rewrite He. cbn [orb].
      rewrite (text_media_waiting _ _ _ Hm Hn Ft).
      cbn [handler' linksList' stack' copied written replaced after value].
      now rewrite !app_nil_r. }
    rewrite G. unfold HTMLRewriter.transform in IH. rewrite IH; auto.
    cbn [handler linksList stack output map concat].
    now rewrite <- app_assoc.
Qed.

End Facts.

End TransducerMore.

Import TransducerMore.

(** X16: Every element the handler removes, [<style>], [<script>], [<meta>],
    [<xml>] or [<head>] in any spelling of upper and lower case, adds
    nothing to the output: neither its tags nor anything that stands inside
    it, and a void one nothing at all. *)
Theorem removed_elements_silent :
  forall (fires_in_removed : bool) (decode : str -> str)
         (s : HTMLRewriter.state) (el : ElementHandler.Element)
         (source source_end : str) (inner : list HTMLRewriter.token),
    includes ElementHandler.removed_tags
      (toLowerCase (ElementHandler.tagName el)) = true ->
    HTMLRewriter.nested 0 inner = true ->
    HTMLRewriter.output
      (HTMLRewriter.transform fires_in_removed decode
         (HTMLRewriter.StartTag el source false
            :: inner ++ [HTMLRewriter.EndTag source_end]) s)
    = HTMLRewriter.output s
    /\ HTMLRewriter.output
         (HTMLRewriter.transform fires_in_removed decode
            [HTMLRewriter.StartTag el source true] s)
       = HTMLRewriter.output s.
Proof.
  intros b decode s el source source_end inner Hel Hn. split.
  - change (?x :: ?l ++ ?r) with ([x] ++ l ++ r).
    rewrite !transform_app.
    change (HTMLRewriter.transform b decode
              [HTMLRewriter.StartTag el source false] s)
      with (HTMLRewriter.step b decode s
              (HTMLRewriter.StartTag el source false)).
    destruct (removed_open b decode s el source false Hel) as (G3 & _ & G).
    destruct (G eq_refl) as (f & G1 & G2).
    set (s1 := HTMLRewriter.step b decode s _) in *.
    destruct (silent_run b decode inner [] s1 (f :: HTMLRewriter.stack s)
                G1 G2 Hn) as (H1 & H2).
    set (s2 := HTMLRewriter.transform b decode inner s1) in *.
    unfold HTMLRewriter.transform. cbn [fold_left].
    unfold HTMLRewriter.step. cbn [HTMLRewriter.react HTMLRewriter.output].
    rewrite H2, G2. cbn [andb HTMLRewriter.copied HTMLRewriter.written].
    now rewrite !app_nil_r, H1, G3.
  - now destruct (removed_open b decode s el source true Hel) as (G3 & _).
Qed.

(** [<head><title>Offer</title><meta charset="utf-8"></head>] *)
Lemma removed_elements_silent_witness :
  HTMLRewriter.output
    (HTMLRewriter.transform true (fun s => s)
       (HTMLRewriter.StartTag (element_of "HEAD" []) (lit "<HEAD>") false
          :: [open_tag "title" []; chunk "Offer" true; close_tag "title";
              void_tag "meta" [attr "charset" "utf-8"]]
          ++ [HTMLRewriter.EndTag (lit "</HEAD>")])
       (HTMLRewriter.start []))
  = HTMLRewriter.output (HTMLRewriter.start [])
  /\ HTMLRewriter.output
       (HTMLRewriter.transform true (fun s => s)
          [HTMLRewriter.StartTag (element_of "HEAD" []) (lit "<HEAD>") true]
          (HTMLRewriter.start []))
     = HTMLRewriter.output (HTMLRewriter.start []).
Proof.
  apply removed_elements_silent; reflexivity.
Defined.

(** X17: Whatever the document, every descriptor the transducer queues has a
    description that is not empty and a target that is not empty, and in the
    description every reserved character stands behind a backslash; the
    descriptors that were queued before stay in front, untouched. *)
Theorem queued_descriptors_wellformed :
  forall (fires_in_removed : bool) (decode : str -> str)
         (toks : list HTMLRewriter.token) (s : HTMLRewriter.state),
    exists new,
      HTMLRewriter.linksList
        (HTMLRewriter.transform fires_in_removed decode toks s)
      = HTMLRewriter.linksList s ++ new
      /\ Forall (fun d => desc d <> [] /\ link d <> []
                          /\ guarded None (desc d) = true) new.
Proof.
  intros b decode toks. induction toks as [|tok r IH]; intros s.
  - exists []. cbn. now rewrite app_nil_r.
  - cbn [HTMLRewriter.transform fold_left].
    destruct (IH (HTMLRewriter.step b decode s tok)) as (new2 & E2 & F2).
    destruct (react_queues b decode s tok) as (new1 & E1 & F1).
    exists (new1 ++ new2). split.
    + unfold HTMLRewriter.transform in E2. rewrite E2, step_linksList, E1.
      now rewrite <- app_assoc.
    + apply Forall_app. now split.
Qed.

(** X18: An anchor with a target, where the output is not suppressed: the
    first chunk of its text becomes the description of one descriptor with
    that target, escaped and trimmed, or [link\-\>] if nothing is left of
    it, and is replaced by the placeholder marker; the chunks behind it are
    written as escaped text and queue nothing. *)
Theorem anchor_with_target :
  forall (fires_in_removed : bool) (decode : str -> str)
         (s : HTMLRewriter.state) (el : ElementHandler.Element)
         (source source_end href : str)
         (t : ElementHandler.Text) (rest : list ElementHandler.Text),
    ElementHandler.tagName el = lit "a" ->
    ElementHandler.getAttribute el (lit "href") = Some href ->
    href <> [] ->
    HTMLRewriter.emitting (HTMLRewriter.stack s) = true ->
    let s' :=
      HTMLRewriter.transform fires_in_removed decode
        (HTMLRewriter.StartTag el source false
           :: HTMLRewriter.TextChunk t
           :: map HTMLRewriter.TextChunk rest
           ++ [HTMLRewriter.EndTag source_end]) s in
    HTMLRewriter.linksList s' =
    HTMLRewriter.linksList s
    ++ [{| desc :=
             Worker.or_else
               (trim (escapeMarkdownV2 (decode (ElementHandler.text_ t))))
               (lit "link\-\>");
           link := href |}]
    /\ HTMLRewriter.output s' =
       HTMLRewriter.output s ++ marker
       ++ concat
            (map (fun c => escapeMarkdownV2 (decode (ElementHandler.text_ c)))
               rest)
    /\ HTMLRewriter.stack s' = HTMLRewriter.stack s.
Proof.
  intros b decode s el source source_end href t rest Ha Hh Hn He s'. subst s'.
  change (?x :: ?y :: ?l ++ ?r) with ([x] ++ [y] ++ l ++ r).
  rewrite !transform_app.
  change (HTMLRewriter.transform b decode [HTMLRewriter.StartTag el source false] s)
    with (HTMLRewriter.step b decode s (HTMLRewriter.StartTag el source false)).
  destruct (anchor_open b decode s el source Ha) as (f & h & E1 & Hk & Hr & Hh').
  rewrite E1. clear E1. rewrite He in Hh'. destruct (Hh' eq_refl) as [Gt Gf].
  rewrite Hh in Gf.
  set (s1 := {| HTMLRewriter.handler := h;
                HTMLRewriter.linksList := HTMLRewriter.linksList s;
                HTMLRewriter.stack := f :: HTMLRewriter.stack s;
                HTMLRewriter.output := HTMLRewriter.output s |}).
  assert (Ee : HTMLRewriter.emitting (f :: HTMLRewriter.stack s) = true).
  { cbn [HTMLRewriter.emitting forallb]. rewrite Hr. exact He. }
  change (HTMLRewriter.transform b decode [HTMLRewriter.TextChunk t] s1)
    with (HTMLRewriter.step b decode s1 (HTMLRewriter.TextChunk t)).
  assert (E2 : exists h2,
             HTMLRewriter.step b decode s1 (HTMLRewriter.TextChunk t) =
             {| HTMLRewriter.handler := h2;
                HTMLRewriter.linksList :=
                  HTMLRewriter.linksList s
                  ++ [{| desc :=
                           Worker.or_else
                             (trim (escapeMarkdownV2
                                      (decode (ElementHandler.text_ t))))
                             (lit "link\-\>");
                         link := href |}];
                HTMLRewriter.stack := f :: HTMLRewriter.stack s;
                HTMLRewriter.output := HTMLRewriter.output s ++ marker |}
             /\ ElementHandler.tag h2 = lit "a"
             /\ truthy (ElementHandler.herf h2) = false).
  { unfold HTMLRewriter.step, s1.
    cbn [HTMLRewriter.react HTMLRewriter.stack HTMLRewriter.handler
         HTMLRewriter.linksList HTMLRewriter.output].
    rewrite Ee. cbn [orb].
    rewrite (text_targeted decode h _ t href Gt Gf Hn).
    cbn [HTMLRewriter.handler' HTMLRewriter.linksList' HTMLRewriter.stack'
         HTMLRewriter.copied HTMLRewriter.written ElementHandler.replaced
         ElementHandler.after ElementHandler.value app].
    rewrite app_nil_r. eexists. split; [reflexivity|]. split; reflexivity. }
  destruct E2 as (h2 & -> & Ht2 & Hf2).
  set (s2 := {| HTMLRewriter.handler := h2;
                HTMLRewriter.linksList := _;
                HTMLRewriter.stack := f :: HTMLRewriter.stack s;
                HTMLRewriter.output := HTMLRewriter.output s ++ marker |}).
  destruct (untargeted_chunks b decode rest s2 Ht2 Hf2)
    as (_ & C1 & C2 & C3); [discriminate|].
  cbn [s2 HTMLRewriter.stack HTMLRewriter.linksList HTMLRewriter.output]
    in C1, C2, C3.
  rewrite Ee in C3.
  change (HTMLRewriter.transform b decode [HTMLRewriter.EndTag source_end] ?x)
    with (HTMLRewriter.step b decode x (HTMLRewriter.EndTag source_end)).
  destruct (end_tag_plain b decode _ f (HTMLRewriter.stack s) source_end C2 Hk)
    as (D1 & D2).
  rewrite D1, D2, C1, C3. split; [reflexivity|].
  split; [now rewrite <- app_assoc|].
  unfold HTMLRewriter.step. cbn [HTMLRewriter.react HTMLRewriter.stack].
  now rewrite C2.
Qed.

(** [<p>] is open, then [<a href="http://a/">our <b>site</b></a>] up to the
    inner tag: [<a href="http://a/">our </a>]. *)
Lemma anchor_with_target_witness :
  let s := HTMLRewriter.transform false (fun s => s) [open_tag "p" []]
             (HTMLRewriter.start []) in
  let s' :=
    HTMLRewriter.transform false (fun s => s)
      (HTMLRewriter.StartTag (element_of "a" [attr "href" "http://a/"])
         (lit "<a>") false
         :: HTMLRewriter.TextChunk (text_of " our site" false)
         :: map HTMLRewriter.TextChunk [text_of "" true]
         ++ [HTMLRewriter.EndTag (lit "</a>")]) s in
  HTMLRewriter.linksList s' =
  HTMLRewriter.linksList s
  ++ [{| desc :=
           Worker.or_else
             (trim (escapeMarkdownV2
                      (ElementHandler.text_ (text_of " our site" false))))
             (lit "link\-\>");
         link := lit "http://a/" |}]
  /\ HTMLRewriter.output s' =
     HTMLRewriter.output s ++ marker
     ++ concat (map (fun c => escapeMarkdownV2 (ElementHandler.text_ c))
                  [text_of "" true])
  /\ HTMLRewriter.stack s' = HTMLRewriter.stack s.
Proof.
  apply (anchor_with_target false (fun s => s));
    (reflexivity || discriminate).
Defined.

(** X28: An element that is neither removed nor a [<br>], an anchor or a
    media element, where the output is not suppressed, with the chunks of
    its text: its tags are dropped, nothing is queued, and every chunk, the
    empty last chunk of a text node too, is written decoded and escaped,
    followed by a line feed unless the element is one of the ten inline
    elements, and by a space if it is a [<td>]. *)
Theorem plain_element_text :
  forall (fires_in_removed : bool) (decode : str -> str)
         (s : HTMLRewriter.state) (el : ElementHandler.Element)
         (source source_end : str) (pieces : list ElementHandler.Text),
    let name := toLowerCase (ElementHandler.tagName el) in
    includes ElementHandler.removed_tags name = false ->
    includes (lit "br" :: lit "a" :: ElementHandler.media_tags) name = false ->
    HTMLRewriter.emitting (HTMLRewriter.stack s) = true ->
    let s' :=
      HTMLRewriter.transform fires_in_removed decode
        (HTMLRewriter.StartTag el source false
           :: map HTMLRewriter.TextChunk pieces
           ++ [HTMLRewriter.EndTag source_end]) s in
    HTMLRewriter.linksList s' = HTMLRewriter.linksList s
    /\ HTMLRewriter.stack s' = HTMLRewriter.stack s
    /\ HTMLRewriter.output s' =
       HTMLRewriter.output s
       ++ concat
            (map (fun t =>
                    escapeMarkdownV2 (decode (ElementHandler.text_ t))
                    ++ (if includes ElementHandler.inline_tags name
                        then [] else ElementHandler.newline)
                    ++ (if eqb_str name (lit "td") then lit " " else []))
               pieces).
Proof.
  intros b decode s el source source_end pieces name Hr Hn He s'. subst s'.
  change (?x :: ?l ++ ?r) with ([x] ++ l ++ r). rewrite !transform_app.
  change (HTMLRewriter.transform b decode
            [HTMLRewriter.StartTag el source false] s)
    with (HTMLRewriter.step b decode s (HTMLRewriter.StartTag el source false)).
  cbn [includes existsb] in Hn. fold (includes ElementHandler.media_tags name) in Hn.
  apply orb_false_elim in Hn. destruct Hn as [Hbr Hn].
  apply orb_false_elim in Hn. destruct Hn as [Ha Hm].
  assert (Na : eqb_str (ElementHandler.tagName el) (lit "a") = false).
  { destruct (eqb_str (ElementHandler.tagName el) (lit "a")) eqn:E;
      [|reflexivity].
    apply eqb_str_eq in E. subst name. rewrite E in Ha. discriminate. }
  assert (E1 : HTMLRewriter.step b decode s
                 (HTMLRewriter.StartTag el source false) =
               {| HTMLRewriter.handler :=
                    {| ElementHandler.tag := name;
                       ElementHandler.herf :=
                         ElementHandler.herf (HTMLRewriter.handler s);
                       ElementHandler.src :=
                         ElementHandler.src (HTMLRewriter.handler s);
                       ElementHandler.nestedInA :=
                         ElementHandler.nestedInA (HTMLRewriter.handler s) |};
                  HTMLRewriter.linksList := HTMLRewriter.linksList s;
                  HTMLRewriter.stack :=
                    {| HTMLRewriter.content_removed := false;
                       HTMLRewriter.tags_kept := false;
                       HTMLRewriter.end_callback := false |}
                    :: HTMLRewriter.stack s;
                  HTMLRewriter.output := HTMLRewriter.output s |}).
  { unfold HTMLRewriter.step. cbn [HTMLRewriter.react]. rewrite He. cbn [orb].
    unfold ElementHandler.element. fold name.
    rewrite Hr, Na, Hm.
    assert (Hb : includes [lit "br"] name = false).
    { cbn [includes existsb]. now rewrite Hbr. }
    rewrite Hb.
    cbn [HTMLRewriter.handler' HTMLRewriter.linksList' HTMLRewriter.stack'
         HTMLRewriter.copied HTMLRewriter.written HTMLRewriter.tags_kept
         ElementHandler.tag ElementHandler.herf ElementHandler.src
         ElementHandler.nestedInA].
    now rewrite andb_false_r, !app_nil_r. }
  rewrite E1. clear E1.
  rewrite (plain_chunks b decode pieces); cbn [HTMLRewriter.handler
    HTMLRewriter.stack ElementHandler.tag]; auto; try discriminate.
  change (HTMLRewriter.transform b decode [HTMLRewriter.EndTag source_end] ?x)
    with (HTMLRewriter.step b decode x (HTMLRewriter.EndTag source_end)).
  unfold HTMLRewriter.step.
  cbn [HTMLRewriter.react HTMLRewriter.stack HTMLRewriter.linksList
       HTMLRewriter.output HTMLRewriter.linksList' HTMLRewriter.stack'
       HTMLRewriter.copied HTMLRewriter.written HTMLRewriter.tags_kept
       HTMLRewriter.end_callback].
  rewrite andb_false_r, !app_nil_r. repeat split.
Qed.

(** [<table>] and [<tr>] are open, then [<TD>3.5</TD>]. *)
Lemma plain_element_text_witness :
  let s := HTMLRewriter.transform false (fun s => s)
             [open_tag "table" []; open_tag "tr" []] (HTMLRewriter.start []) in
  let name := toLowerCase (ElementHandler.tagName (element_of "TD" [])) in
  let pieces := [text_of "3.5" false; text_of "" true] in
  let s' :=
    HTMLRewriter.transform false (fun s => s)
      (HTMLRewriter.StartTag (element_of "TD" []) (lit "<TD>") false
         :: map HTMLRewriter.TextChunk pieces
         ++ [HTMLRewriter.EndTag (lit "</TD>")]) s in
  HTMLRewriter.linksList s' = HTMLRewriter.linksList s
  /\ HTMLRewriter.stack s' = HTMLRewriter.stack s
  /\ HTMLRewriter.output s' =
     HTMLRewriter.output s
     ++ concat
          (map (fun t =>
                  escapeMarkdownV2 (ElementHandler.text_ t)
                  ++ (if includes ElementHandler.inline_tags name
                      then [] else ElementHandler.newline)
                  ++ (if eqb_str name (lit "td") then lit " " else []))
             pieces).
Proof.
  apply (plain_element_text false (fun s => s)); reflexivity.
Defined.

(** X19: A media element with a source, outside every anchor and where the
    output is not suppressed, followed by the chunks of one text node: the
    chunks before the last are copied as they are, not escaped; the last
    chunk is replaced by the placeholder marker and queues one descriptor,
    described by the tag name and aimed at the source. *)
Theorem media_with_text :
  forall (fires_in_removed : bool) (decode : str -> str)
         (s : HTMLRewriter.state) (el : ElementHandler.Element)
         (source target : str) (void : bool)
         (waiting : list ElementHandler.Text) (final : ElementHandler.Text),
    includes ElementHandler.media_tags
      (toLowerCase (ElementHandler.tagName el)) = true ->
    ElementHandler.getAttribute el (lit "src") = Some target ->
    target <> [] ->
    ElementHandler.nestedInA (HTMLRewriter.handler s) = false ->
    HTMLRewriter.emitting (HTMLRewriter.stack s) = true ->
    (void = true -> HTMLRewriter.stack s <> []) ->
    Forall (fun t => ElementHandler.lastInTextNode t = false) waiting ->
    ElementHandler.lastInTextNode final = true ->
    let s' :=
      HTMLRewriter.transform fires_in_removed decode
        (HTMLRewriter.StartTag el source void
           :: map HTMLRewriter.TextChunk waiting
           ++ [HTMLRewriter.TextChunk final]) s in
    HTMLRewriter.linksList s' =
    HTMLRewriter.linksList s
    ++ [{| desc := toLowerCase (ElementHandler.tagName el); link := target |}]
    /\ HTMLRewriter.output s' =
       HTMLRewriter.output s
       ++ concat (map ElementHandler.text_ waiting) ++ marker
    /\ ElementHandler.tag (HTMLRewriter.handler s') = [].
Proof.
  intros b decode s el source target void waiting final
    Hm Hs Ht Hn He Hv Fw Hl s'. subst s'.
  change (?x :: ?l ++ ?r) with ([x] ++ l ++ r). rewrite !transform_app.
  change (HTMLRewriter.transform b decode [HTMLRewriter.StartTag el source void] s)
    with (HTMLRewriter.step b decode s (HTMLRewriter.StartTag el source void)).
  assert (E1 : exists h st,
             HTMLRewriter.step b decode s (HTMLRewriter.StartTag el source void) =
             {| HTMLRewriter.handler := h;
                HTMLRewriter.linksList := HTMLRewriter.linksList s;
                HTMLRewriter.stack := st;
                HTMLRewriter.output := HTMLRewriter.output s |}
             /\ ElementHandler.tag h = toLowerCase (ElementHandler.tagName el)
             /\ ElementHandler.src h = Some target
             /\ ElementHandler.nestedInA h = false
             /\ st <> [] /\ HTMLRewriter.emitting st = true).
  { unfold HTMLRewriter.step. cbn [HTMLRewriter.react]. rewrite He. cbn [orb].
    assert (El : ElementHandler.element (HTMLRewriter.handler s) el =
                 ({| ElementHandler.tag := toLowerCase (ElementHandler.tagName el);
                     ElementHandler.herf :=
                       ElementHandler.herf (HTMLRewriter.handler s);
                     ElementHandler.src := Some target;
                     ElementHandler.nestedInA := false |},
                  ElementHandler.RemoveAndKeepContent, false)).
    { unfold ElementHandler.element. rewrite Hm, Hs, Hn.
      pose proof Hm as Hin. apply includes_In in Hin.
      assert (Na : eqb_str (ElementHandler.tagName el) (lit "a") = false).
      { destruct (eqb_str (ElementHandler.tagName el) (lit "a")) eqn:Ea;
          [|reflexivity].
        apply eqb_str_eq in Ea. rewrite Ea in Hin.
        destruct Hin as [H|[H|[H|[H|[]]]]]; discriminate. }
      rewrite Na.
      destruct Hin as [<-|[<-|[<-|[<-|[]]]]]; reflexivity. }
    rewrite El.
    cbn [HTMLRewriter.handler' HTMLRewriter.linksList' HTMLRewriter.stack'
         HTMLRewriter.copied HTMLRewriter.written HTMLRewriter.tags_kept].
    rewrite andb_false_r, !app_nil_r. do 2 eexists.
    split; [reflexivity|]. cbn [ElementHandler.tag ElementHandler.src
                                  ElementHandler.nestedInA].
    repeat split.
    - destruct void; [now apply Hv|discriminate].
    - destruct void; [exact He|].
      cbn [HTMLRewriter.emitting forallb HTMLRewriter.content_removed negb andb].
      exact He. }
  destruct E1 as (h & st & -> & Gt & Gs & Gn & Gst & Ge).
  assert (Gm : includes ElementHandler.media_tags (ElementHandler.tag h) = true)
    by now rewrite Gt.
  rewrite (waiting_chunks b decode waiting); auto.
  cbn [HTMLRewriter.handler HTMLRewriter.linksList HTMLRewriter.stack
       HTMLRewriter.output].
  change (HTMLRewriter.transform b decode [HTMLRewriter.TextChunk final] ?x)
    with (HTMLRewriter.step b decode x (HTMLRewriter.TextChunk final)).
  unfold HTMLRewriter.step.
  cbn [HTMLRewriter.react HTMLRewriter.stack HTMLRewriter.handler
       HTMLRewriter.linksList HTMLRewriter.output].
  destruct st as [|f rest]; [congruence|].
  rewrite Ge. cbn [orb].
  rewrite (text_media_last decode h _ final target Gm Gn Hl Gs Ht).
  cbn [HTMLRewriter.handler' HTMLRewriter.linksList' HTMLRewriter.stack'
       HTMLRewriter.copied HTMLRewriter.written ElementHandler.replaced
       ElementHandler.after ElementHandler.value ElementHandler.tag app].
  rewrite Gt, app_nil_r, <- app_assoc. repeat split.
Qed.

(** [<p>] is open, then [<img src="cid:logo"> tail]. *)
Lemma media_with_text_witness :
  let s := HTMLRewriter.transform false (fun s => s) [open_tag "p" []]
             (HTMLRewriter.start []) in
  let s' :=
    HTMLRewriter.transform false (fun s => s)
      (void_tag "img" [attr "src" "cid:logo"]
         :: map HTMLRewriter.TextChunk [text_of " tail" false]
         ++ [HTMLRewriter.TextChunk (text_of "" true)]) s in
  HTMLRewriter.linksList s' =
  HTMLRewriter.linksList s
  ++ [{| desc :=
           toLowerCase
             (ElementHandler.tagName
                (element_of "img" [attr "src" "cid:logo"]));
         link := lit "cid:logo" |}]
  /\ HTMLRewriter.output s' =
     HTMLRewriter.output s
     ++ concat (map ElementHandler.text_ [text_of " tail" false]) ++ marker
  /\ ElementHandler.tag (HTMLRewriter.handler s') = [].
Proof.
  apply (media_with_text false (fun s => s)
           (HTMLRewriter.transform false (fun s => s) [open_tag "p" []]
              (HTMLRewriter.start []))
           (element_of "img" [attr "src" "cid:logo"]) (lit "<img>")
           (lit "cid:logo") true [text_of " tail" false] (text_of "" true));
    try reflexivity; try discriminate.
  repeat constructor.
Defined.

(** ** The clean-up of [processHtml]: no blank line is left *)

Module TidyFacts.

Import Worker.

Abbreviation LF := ElementHandler.newline_char.

(** *** The scan is sound *)

Lemma blank_free_gap (ws post : str) :
  forallb is_space ws = true -> blank_free true (ws ++ LF :: post) = false.
Proof.
  induction ws as [|c r IH]; intros H; cbn [app blank_free].
  - now rewrite Ascii.eqb_refl.
  - cbn [forallb] in H. apply andb_prop in H. destruct H as [Hc Hr].
    destruct (Ascii.eqb c LF); [reflexivity|]. rewrite Hc. now apply IH.
Qed.

Lemma blank_free_sound (pre : str) :
  forall a s ws post,
    blank_free a s = true ->
    forallb is_space ws = true ->
    s <> pre ++ LF :: ws ++ LF :: post.
Proof.
  induction pre as [|x pre IH]; intros a s ws post B H E; subst s.
  - cbn [app blank_free] in B. rewrite Ascii.eqb_refl in B.
    rewrite (blank_free_gap ws post H) in B. now rewrite andb_false_r in B.
  - cbn [app blank_free] in B.
    destruct (Ascii.eqb x LF).
    + apply andb_prop in B. destruct B as [_ B].
      now apply (IH true _ ws post B H).
    + destruct (is_space x); now apply (IH _ _ ws post B H).
Qed.

(** *** Matches of the blank-line pattern *)

Lemma upto_last_found (c : ascii) (l : str) :
  0 < count_occ ascii_dec l c -> exists n, upto_last c l = Some (S n).
Proof.
  induction l as [|x r IH]; cbn [count_occ upto_last]; [lia|].
  intros H. destruct (upto_last c r) as [n|] eqn:E; [now exists n|].
  destruct (ascii_dec x c) as [->|N].
  - rewrite Ascii.eqb_refl. now exists 0.
  - destruct (IH H) as (n & Hn). discriminate.
Qed.

Lemma upto_last_rest (c : ascii) (l : str) :
  forall m,
    upto_last c l = Some m ->
    m <= length l /\ count_occ ascii_dec (skipn m l) c = 0.
Proof.
  induction l as [|x r IH]; intros m H; cbn [upto_last] in H; [discriminate|].
  destruct (upto_last c r) as [n|] eqn:E.
  - injection H as <-. destruct (IH n eq_refl) as [A B].
    cbn [length skipn]. split; [lia|exact B].
  - destruct (Ascii.eqb x c); [|discriminate]. injection H as <-.
    cbn [length skipn]. split; [lia|].
    clear IH. induction r as [|y r IHr]; [reflexivity|].
    cbn [upto_last] in E. destruct (upto_last c r) as [n|]; [discriminate|].
    destruct (Ascii.eqb y c) eqn:Ey; [discriminate|].
    apply Ascii.eqb_neq in Ey. cbn [count_occ].
    destruct (ascii_dec y c); [congruence|]. now apply IHr.
Qed.

Lemma spaces_of_skipn (s : str) :
  forall m,
    m <= length (spaces_of s) ->
    spaces_of (skipn m s) = skipn m (spaces_of s).
Proof.
  induction s as [|c r IH]; intros m H.
  - now rewrite !skipn_nil.
  - destruct m as [|m]; [reflexivity|].
    cbn [spaces_of] in *. destruct (is_space c); cbn [length] in H; [|lia].
    cbn [skipn]. apply IH. lia.
Qed.

Lemma blank_lines_match_rest (s : str) (m : nat) :
  blank_lines_match s = Some m ->
  2 <= count_occ ascii_dec (spaces_of s) LF
  /\ count_occ ascii_dec (spaces_of (skipn m s)) LF = 0.
Proof.
  unfold blank_lines_match.
  destruct (2 <=? count_occ ascii_dec (spaces_of s) "010"%char) eqn:E;
    [|discriminate].
  apply Nat.leb_le in E. intros H. split; [exact E|].
  destruct (upto_last_rest _ _ _ H) as [A B].
  now rewrite spaces_of_skipn.
Qed.

Lemma blank_lines_match_none (s : str) :
  match blank_lines_match s with
  | Some (S _) => False
  | _ => True
  end ->
  count_occ ascii_dec (spaces_of s) LF < 2.
Proof.
  unfold blank_lines_match.
  destruct (2 <=? count_occ ascii_dec (spaces_of s) "010"%char) eqn:E.
  - apply Nat.leb_le in E.
    destruct (upto_last_found "010"%char (spaces_of s)) as (n & ->); [lia|].
    intros [].
  - apply Nat.leb_gt in E. intros _. exact E.
Qed.

(** *** The replacement *)

Lemma replace_all_skip (matcher : str -> option nat) (replacement : str) :
  forall n s,
    replace_all matcher replacement n s =
    replace_all matcher replacement 0 (skipn n s).
Proof.
  induction n as [|n IH]; intros s; [reflexivity|].
  destruct s as [|c r]; [reflexivity|]. cbn [replace_all skipn]. apply IH.
Qed.

Lemma collapse_blank_free (n : nat) :
  forall s a,
    length s <= n ->
    (a = true -> count_occ ascii_dec (spaces_of s) LF = 0) ->
    blank_free a (replace_all blank_lines_match ElementHandler.newline 0 s)
    = true.
Proof.
  induction n as [|n IH]; intros s a L Ha.
  - destruct s; [reflexivity|simpl in L; lia].
  - destruct s as [|c r]; [reflexivity|].
    cbn [replace_all].
    destruct (blank_lines_match (c :: r)) as [[|m]|] eqn:E.
    + (* an empty match: the character is copied *)
      pose proof (blank_lines_match_rest _ _ E) as [A _].
      pose proof (blank_lines_match_none (c :: r)) as B. rewrite E in B.
      specialize (B I). lia.
    + destruct (blank_lines_match_rest _ _ E) as [A B].
      assert (a = false) as ->.
      { destruct a; [|reflexivity]. rewrite (Ha eq_refl) in A. lia. }
      cbn [ElementHandler.newline app blank_free].
      rewrite Ascii.eqb_refl. cbn [negb andb].
      rewrite replace_all_skip. apply IH.
      * cbn [length] in L. rewrite length_skipn. lia.
      * intros _. exact B.
    + pose proof (blank_lines_match_none (c :: r)) as B. rewrite E in B.
      specialize (B I). cbn [blank_free].
      cbn [spaces_of] in B, Ha. cbn [length] in L.
      destruct (Ascii.eqb c LF) eqn:Ec.
      * apply Ascii.eqb_eq in Ec. subst c.
        change (is_space LF) with true in B, Ha. cbn match in B, Ha.
        cbn [count_occ] in B, Ha.
        destruct (ascii_dec LF LF) as [_|N]; [|congruence].
        assert (a = false) as ->.
        { destruct a; [|reflexivity]. specialize (Ha eq_refl). lia. }
        cbn [negb andb]. apply IH; [lia|]. intros _. lia.
      * apply Ascii.eqb_neq in Ec.
        destruct (is_space c) eqn:Es.
        -- apply IH; [lia|]. intros Et. specialize (Ha Et).
           cbn [count_occ] in Ha.
           destruct (ascii_dec c LF); [congruence|exact Ha].
        -- apply IH; [lia|]. discriminate.
Qed.

Lemma tidy_blank_free (s : str) : blank_free false (tidy s) = true.
Proof.
  unfold tidy. apply (collapse_blank_free _ _ false (le_n _)). discriminate.
Qed.

End TidyFacts.

Import TidyFacts.

(** X20: The text [processHtml] returns has no blank line: nowhere in it do
    two line feeds stand with nothing, or nothing but white space, between
    them. *)
Theorem processHtml_no_blank_line :
  forall (decode : str -> str) (tokens_of : str -> list HTMLRewriter.token)
         (fires_in_removed : bool) (html out : str) (w w' : Worker.world)
         (pre ws post : str),
    Worker.processHtml decode tokens_of fires_in_removed html w
    = (Worker.Returned out, w') ->
    forallb is_space ws = true ->
    out <> pre ++ ElementHandler.newline_char :: ws
               ++ ElementHandler.newline_char :: post.
Proof.
  intros decode tokens_of fires html out w w' pre ws post E H.
  unfold Worker.processHtml in E. injection E as <- _.
  apply (blank_free_sound pre false _ ws post); [|exact H].
  apply tidy_blank_free.
Qed.

Lemma processHtml_no_blank_line_witness :
  Worker.tidy
    (HTMLRewriter.output
       (HTMLRewriter.transform false (fun s => s) sample_document
          (HTMLRewriter.start [])))
  <> lit "C\# & more " ++ ElementHandler.newline_char :: lit " "
       ++ ElementHandler.newline_char :: lit "tail".
Proof.
  apply (processHtml_no_blank_line (fun s => s) (fun _ => sample_document)
           false [] _ no_requests
           {| Worker.linksList :=
                HTMLRewriter.linksList
                  (HTMLRewriter.transform false (fun s => s) sample_document
                     (HTMLRewriter.start []));
              Worker.sent := [] |});
    reflexivity.
Defined.

(** ** The request body of an upload *)

Module MultipartFacts.

Import Multipart.

Lemma length_zeros (n : nat) : length (zeros n) = n.
Proof. apply repeat_length. Qed.

Lemma skipn_zeros (n m : nat) : skipn n (zeros (n + m)) = zeros m.
Proof. induction n as [|n IH]; [reflexivity|exact IH]. Qed.

(** Writing at the end of what is written already, into a buffer that has
    room for the source: the source follows, the zeros behind it stay. *)
Lemma set_next (written source : Uint8Array) (m : nat) :
  set (written ++ zeros (length source + m)) source (length written) =
  Some ((written ++ source) ++ zeros m).
Proof.
  unfold set. rewrite length_app, length_zeros.
  destruct (length written + length source
            <=? length written + (length source + m)) eqn:E.
  - f_equal. rewrite firstn_app, Nat.sub_diag, firstn_all.
    cbn [firstn]. rewrite app_nil_r, <- app_assoc. f_equal. f_equal.
    rewrite skipn_app.
    replace (length written + length source - length written)
      with (length source) by lia.
    rewrite skipn_all2 by lia. apply skipn_zeros.
  - apply Nat.leb_gt in E. lia.
Qed.

End MultipartFacts.

Import MultipartFacts.

(** X21: The four calls of [set] in [sendAttachment] never raise a
    [RangeError], and they fill the buffer exactly: the request body is the
    two form fields, the header of the file part, the bytes of the
    attachment and the closing boundary, in this order, with no byte of the
    zero-filled buffer left between them; so the attachment's bytes stand
    unchanged behind the two headers. *)
Theorem requestBody_layout :
  forall (random CHAT_ID : str) (replyToMessageId : Z)
         (attachment : Worker.Attachment)
         (attachmentData : Multipart.Uint8Array),
    let header := Multipart.headerBytes random CHAT_ID replyToMessageId in
    let fileHeader := Multipart.fileHeaderBytes random attachment in
    let footer := Multipart.fileFooterBytes random in
    Multipart.requestBody random CHAT_ID replyToMessageId attachment
      attachmentData
    = Some (header ++ fileHeader ++ attachmentData ++ footer)
    /\ firstn (length attachmentData)
         (skipn (length header + length fileHeader)
            (header ++ fileHeader ++ attachmentData ++ footer))
       = attachmentData.
Proof.
  intros random CHAT_ID reply attachment data header fileHeader footer.
  split.
  - unfold Multipart.requestBody. fold header fileHeader footer.
    cbn zeta.
    replace (length header + length fileHeader + length data + length footer)
      with (length header
            + (length fileHeader + (length data + (length footer + 0))))
      by lia.
    pose proof (set_next [] header) as S1. cbn [app length] in S1.
    rewrite S1. cbn [Nat.add].
    rewrite (set_next header fileHeader).
    replace (length header + length fileHeader)
      with (length (header ++ fileHeader)) by apply length_app.
    rewrite (set_next (header ++ fileHeader) data).
    replace (length (header ++ fileHeader) + length data)
      with (length ((header ++ fileHeader) ++ data))
      by (rewrite !length_app; lia).
    rewrite (set_next ((header ++ fileHeader) ++ data) footer 0).
    f_equal. cbn [Multipart.zeros repeat].
    now rewrite app_nil_r, <- !app_assoc.
  - rewrite app_assoc.
    replace (length header + length fileHeader)
      with (length (header ++ fileHeader)) by apply length_app.
    rewrite skipn_app, Nat.sub_diag, skipn_all. cbn [skipn app].
    rewrite firstn_app, Nat.sub_diag, firstn_all. cbn [firstn].
    apply app_nil_r.
Qed.

(** ** The earlier versions, and how the current one relates to them *)

Module LegacyFacts.

Import Worker.

(** *** The escaper *)

Lemma replace_from_plain (s : str) :
  forall prev,
    ~ In backslash s ->
    not_after_backslash prev = true ->
    replace_from prev s = Legacy.escapeMarkdownV2 s.
Proof.
  induction s as [|c r IH]; intros prev H Hp; [reflexivity|].
  cbn [replace_from Legacy.escapeMarkdownV2 flat_map].
  rewrite Hp, andb_true_r.
  assert (Hc : not_after_backslash (Some c) = true).
  { unfold not_after_backslash. apply negb_true_iff, Ascii.eqb_neq.
    intros ->. apply H. now left. }
  rewrite (IH (Some c)); [|intros N; apply H; now right|exact Hc].
  destruct (reserved c); reflexivity.
Qed.

Lemma legacy_escape_length (s : str) :
  length (Legacy.escapeMarkdownV2 s) =
  length s + length (filter reserved s).
Proof.
  induction s as [|c r IH]; [reflexivity|].
  cbn [Legacy.escapeMarkdownV2 flat_map filter].
  rewrite length_app. fold (Legacy.escapeMarkdownV2 r). rewrite IH.
  destruct (reserved c); cbn [length]; lia.
Qed.

(** *** The splitting by length *)

Lemma push_loop_spec (text : str) (fuel : nat) :
  forall i arr,
    length text < i + fuel ->
    Legacy.push_loop fuel i arr text =
    (let '(arr', rest) := splitAndPush_loop fuel i arr text in
     if 0 <? length rest then arr' ++ [rest] else arr').
Proof.
  pose proof MAX_pos as HM.
  induction fuel as [|f IH]; intros i arr Hf;
    cbn [Legacy.push_loop splitAndPush_loop]; [reflexivity|].
  destruct (i <? length text) eqn:Ei; [|reflexivity].
  apply Nat.ltb_lt in Ei.
  destruct (length (substring i (i + MAX) text) <? MAX) eqn:El.
  - apply Nat.ltb_lt in El.
    assert (Hn : 0 < length (substring i (i + MAX) text)).
    { unfold substring. rewrite length_firstn, length_skipn. lia. }
    apply Nat.ltb_lt in Hn. rewrite Hn.
    assert (Hend : length text <= i + MAX).
    { unfold substring in El. rewrite length_firstn, length_skipn in El. lia. }
    destruct f as [|f']; cbn [Legacy.push_loop]; [reflexivity|].
    destruct (i + MAX <? length text) eqn:E2; [|reflexivity].
    apply Nat.ltb_lt in E2. lia.
  - apply IH. lia.
Qed.

Lemma legacy_chunks_shape (text : str) :
  exists ps rest,
    Legacy.chunks_of text =
    (if length text <=? MAX then [text]
     else if 0 <? length rest then ps ++ [rest] else ps)
    /\ splitAndPush [] text = (ps, rest)
    /\ concat ps ++ rest = text
    /\ Forall (fun p => length p = MAX) ps
    /\ length rest < MAX.
Proof.
  destruct (splitAndPush_spec [] text) as (ps & rest & E & Hc & Hp & Hr).
  exists ps, rest. cbn [app] in E. repeat split; auto.
  unfold Legacy.chunks_of. destruct (length text <=? MAX); [reflexivity|].
  rewrite push_loop_spec by lia.
  unfold splitAndPush in E. now rewrite E.
Qed.

Lemma split_unmarked (text : str) :
  count_markers text = 0 -> split_linkReplacer text = [text].
Proof.
  intros H. pose proof (split_join text) as J.
  unfold count_markers in H. pose proof (split_nonempty text) as L.
  destruct (split_linkReplacer text) as [|fr [|fr2 l]];
    cbn [length] in *; [lia| |lia].
  cbn [join] in J. now rewrite J.
Qed.

Lemma filter_reserved_escaped (s : str) :
  filter reserved (Legacy.escapeMarkdownV2 s) = filter reserved s.
Proof.
  induction s as [|c r IH]; [reflexivity|].
  cbn [Legacy.escapeMarkdownV2 flat_map]. rewrite filter_app.
  fold (Legacy.escapeMarkdownV2 r). rewrite IH.
  destruct (reserved c) eqn:E; cbn [filter app].
  - rewrite backslash_not_reserved, E. reflexivity.
  - rewrite E. reflexivity.
Qed.

Lemma legacy_escape_plain (s : str) :
  filter reserved s = [] -> Legacy.escapeMarkdownV2 s = s.
Proof.
  induction s as [|c r IH]; [reflexivity|].
  cbn [filter Legacy.escapeMarkdownV2 flat_map].
  destruct (reserved c); [discriminate|]. intros H. cbn [app].
  f_equal. now apply IH.
Qed.

(** *** The delivery loop *)

Lemma legacy_deliver_relation (respond : nat -> response) (cs : list str) :
  forall prev w,
    match Worker.deliver respond cs prev w with
    | (Returned r, w') => Legacy.deliver respond cs prev w = (Returned r, w')
    | (Thrown _, w') =>
        prev = None /\ Legacy.deliver respond cs prev w = (Returned None, w')
    end.
Proof.
  induction cs as [|c rest IH]; intros prev w.
  - reflexivity.
  - cbn [Worker.deliver Legacy.deliver].
    destruct (respond (length (sent w))) as [id|d].
    + match goal with
      | |- context [Worker.deliver respond rest (Some id) ?w1] =>
          specialize (IH (Some id) w1);
          destruct (Worker.deliver respond rest (Some id) w1) as [[r|e] w']
      end; [exact IH|destruct IH as [N _]; discriminate].
    + destruct prev as [id|]; [reflexivity|]. split; reflexivity.
Qed.

Lemma accept_ids (respond : nat -> response) :
  (forall n, exists id, respond n = Ok id) ->
  forall n k, exists ids, length ids = k /\ accepted respond n ids.
Proof.
  intros H n k. revert n. induction k as [|k IH]; intros n.
  - exists []. split; [reflexivity|]. intros [|i] id Hi; discriminate.
  - destruct (H n) as (id & Hid). destruct (IH (S n)) as (ids & L & A).
    exists (id :: ids). split; [cbn [length]; now rewrite L|].
    intros [|i] x Hx; cbn [nth_error] in Hx.
    + injection Hx as <-. now rewrite Nat.add_0_r.
    + replace (n + S i) with (S n + i) by lia. now apply A.
Qed.

Lemma legacy_chunks_facts (text : str) :
  concat (Legacy.chunks_of text) = text
  /\ Forall (fun c => length c <= MAX) (Legacy.chunks_of text).
Proof.
  pose proof MAX_pos as HM.
  destruct (legacy_chunks_shape text) as (ps & rest & E & _ & Hc & Hp & Hr).
  rewrite E. clear E.
  assert (Hs : Forall (fun c => length c <= MAX) ps).
  { revert Hp. apply Forall_impl. intros p H. lia. }
  destruct (length text <=? MAX) eqn:El.
  - apply Nat.leb_le in El. cbn [concat]. rewrite app_nil_r.
    split; [reflexivity|]. constructor; [exact El|constructor].
  - destruct (0 <? length rest) eqn:Er.
    + rewrite concat_app. cbn [concat]. rewrite app_nil_r.
      split; [exact Hc|]. apply Forall_app. split; [exact Hs|].
      constructor; [lia|constructor].
    + apply Nat.ltb_ge in Er.
      assert (rest = []) as ->
          by (destruct rest; [reflexivity|simpl in Er; lia]).
      rewrite app_nil_r in Hc. now split.
Qed.

End LegacyFacts.


Import LegacyFacts.

(** X22: On a text without a backslash the escaper agrees with the one of
    the earlier versions, which has no look-behind: both put a backslash in
    front of every reserved character. *)
Theorem escaper_agrees_with_legacy :
  forall s : str,
    ~ In backslash s ->
    escapeMarkdownV2 s = Legacy.escapeMarkdownV2 s.
Proof.
  intros s H. now apply replace_from_plain.
Qed.

Lemma escaper_agrees_with_legacy_witness :
  escapeMarkdownV2 (lit "a_b (c)") = Legacy.escapeMarkdownV2 (lit "a_b (c)").
Proof.
  apply escaper_agrees_with_legacy.
  cbn. intuition discriminate.
Defined.

(** X23: The escaper of the earlier versions puts one backslash in front of
    every reserved character, so the text grows by their number; it escapes
    a concatenation part by part; and escaping twice escapes the result
    again: it is idempotent on the texts without a reserved character and on
    no other. *)
Theorem legacy_escaper_escapes_all :
  forall s : str,
    length (Legacy.escapeMarkdownV2 s) = length s + length (filter reserved s)
    /\ (forall t : str,
          Legacy.escapeMarkdownV2 (s ++ t) =
          Legacy.escapeMarkdownV2 s ++ Legacy.escapeMarkdownV2 t)
    /\ (Legacy.escapeMarkdownV2 (Legacy.escapeMarkdownV2 s) =
        Legacy.escapeMarkdownV2 s
        <-> filter reserved s = []).
Proof.
  intros s. split; [apply legacy_escape_length|]. split.
  - intros t. apply flat_map_app.
  - split.
    + intros E. apply (f_equal (@length ascii)) in E.
      rewrite (legacy_escape_length (Legacy.escapeMarkdownV2 s)) in E.
      rewrite filter_reserved_escaped in E.
      destruct (filter reserved s); [reflexivity|cbn [length] in E; lia].
    + intros E. now rewrite !(legacy_escape_plain s E).
Qed.

(** X24: The splitting of the earlier versions: the chunks are the text cut
    every [MAX_TELEGRAM_MESSAGE_LENGTH] characters, so they spell the text
    and none is longer. There is always a chunk; it is the empty one for the
    empty text, which is then sent as an empty message, and no chunk of any
    other text is empty. *)
Theorem legacy_chunks :
  forall text : str,
    concat (Legacy.chunks_of text) = text
    /\ Forall (fun c => length c <= MAX) (Legacy.chunks_of text)
    /\ Legacy.chunks_of text <> []
    /\ (text = [] -> Legacy.chunks_of text = [[]])
    /\ (text <> [] -> Forall (fun c => c <> []) (Legacy.chunks_of text)).
Proof.
  intros text. pose proof MAX_pos as HM.
  destruct (legacy_chunks_shape text) as (ps & rest & E & _ & Hc & Hp & Hr).
  rewrite E. clear E.
  assert (Hs : Forall (fun c => length c <= MAX) ps).
  { revert Hp. apply Forall_impl. intros p H. lia. }
  assert (Hn : Forall (fun c : str => c <> []) ps).
  { revert Hp. apply Forall_impl. intros p H ->. simpl in H. lia. }
  destruct (length text <=? MAX) eqn:El.
  - apply Nat.leb_le in El. cbn [concat]. rewrite app_nil_r.
    repeat split; try discriminate.
    + constructor; [exact El|constructor].
    + now intros ->.
    + intros H. constructor; [exact H|constructor].
  - apply Nat.leb_gt in El.
    assert (Ht : text <> []) by (intros ->; simpl in El; lia).
    destruct (0 <? length rest) eqn:Er.
    + apply Nat.ltb_lt in Er. rewrite concat_app. cbn [concat].
      rewrite app_nil_r. repeat split; auto.
      * apply Forall_app. split; [exact Hs|].
        constructor; [lia|constructor].
      * intros N. apply app_eq_nil in N. destruct N as [_ N]. discriminate.
      * congruence.
      * intros _. apply Forall_app. split; [exact Hn|].
        constructor; [|constructor]. intros ->. simpl in Er. lia.
    + apply Nat.ltb_ge in Er.
      assert (rest = []) as -> by (destruct rest; [reflexivity|simpl in Er; lia]).
      rewrite app_nil_r in Hc. repeat split; auto.
      * intros ->. cbn [concat] in Hc. congruence.
      * congruence.
Qed.

(** X25: On a text that is not empty and holds no placeholder marker, and
    with an empty link queue, the chunker produces the very chunks of the
    earlier versions. *)
Theorem chunker_agrees_with_legacy :
  forall text : str,
    text <> [] ->
    count_markers text = 0 ->
    segments text [] = Legacy.chunks_of text.
Proof.
  intros text Ht Hm. pose proof MAX_pos as HM.
  destruct (legacy_chunks_shape text) as (ps & rest & E & Es & Hc & Hp & Hr).
  rewrite E. clear E.
  unfold segments, chunk_loop. rewrite (split_unmarked text Hm).
  cbn [fold_left]. unfold iteration, add_fragment, flush.
  cbn [Chunker.linksList Chunker.chunks Chunker.builder fst snd app].
  destruct (length text <=? MAX) eqn:El.
  - apply Nat.leb_le in El.
    destruct (MAX <? length text) eqn:E2; [apply Nat.ltb_lt in E2; lia|].
    cbn [fst snd].
    destruct (0 <? length text) eqn:E3; [reflexivity|].
    apply Nat.ltb_ge in E3. destruct text; [congruence|simpl in E3; lia].
  - apply Nat.leb_gt in El.
    destruct (MAX <? length text) eqn:E2; [|apply Nat.ltb_ge in E2; lia].
    rewrite Es. reflexivity.
Qed.

Lemma chunker_agrees_with_legacy_witness :
  segments (lit "Hello Bob\.") [] = Legacy.chunks_of (lit "Hello Bob\.").
Proof.
  apply chunker_agrees_with_legacy; [discriminate|reflexivity].
Defined.

(** X26: The delivery loop of the earlier versions makes the same requests
    as the current one and returns the same identifier; it differs only
    where the current loop throws, on a refusal of the first Segment: there
    the earlier loop returns [null]. *)
Theorem legacy_delivery_never_throws :
  forall (respond : nat -> Worker.response) (chunks : list str)
         (lastMessageId : option Z) (w : Worker.world),
    match Worker.deliver respond chunks lastMessageId w with
    | (Worker.Returned r, w') =>
        Legacy.deliver respond chunks lastMessageId w = (Worker.Returned r, w')
    | (Worker.Thrown _, w') =>
        lastMessageId = None
        /\ Legacy.deliver respond chunks lastMessageId w
           = (Worker.Returned None, w')
    end.
Proof.
  intros respond cs prev w. apply legacy_deliver_relation.
Qed.

(** X27: The handler of the first version never throws: an e-mail that does
    not parse is logged and nothing is sent. For an e-mail that parses, when
    Telegram accepts every request, the texts of the messages sent are the
    chunks of the full message, so together they are the full message, each
    of at most [MAX_TELEGRAM_MESSAGE_LENGTH] characters. *)
Theorem legacy_handler :
  forall (respond : nat -> Worker.response) (decode : str -> str)
         (banner unknown_sender unknown_recipient no_subject no_content : str)
         (parsed : Worker.outcome Worker.Email) (w : Worker.world),
    exists w',
      Legacy.email respond decode banner unknown_sender unknown_recipient
        no_subject no_content parsed w = (Worker.Returned tt, w')
      /\ match parsed with
         | Worker.Thrown _ => w' = w
         | Worker.Returned p =>
             (forall n, exists id, respond n = Worker.Ok id) ->
             exists new,
               Worker.sent w' = Worker.sent w ++ new
               /\ message_texts new =
                  Legacy.chunks_of
                    (Legacy.fullMessageText decode banner unknown_sender
                       unknown_recipient no_subject no_content p)
               /\ concat (message_texts new) =
                  Legacy.fullMessageText decode banner unknown_sender
                    unknown_recipient no_subject no_content p
               /\ Forall (fun c => length c <= MAX) (message_texts new)
         end.
Proof.
  intros respond decode banner unknown_sender unknown_recipient no_subject
    no_content parsed w.
  unfold Legacy.email, Worker.try_catch.
  destruct parsed as [p|e].
  2:{ exists w. split; reflexivity. }
  set (T := Legacy.fullMessageText _ _ _ _ _ _ p).
  unfold Worker.bind, Legacy.sendSplitMessage.
  pose proof (legacy_deliver_relation respond (Legacy.chunks_of T) None w) as R.
  assert (G : (forall n, exists id, respond n = Worker.Ok id) ->
              exists ids,
                length ids = length (Legacy.chunks_of T)
                /\ Worker.deliver respond (Legacy.chunks_of T) None w =
                   (Worker.Returned (last (map Some ids) None),
                    {| Worker.linksList := Worker.linksList w;
                       Worker.sent :=
                         Worker.sent w ++ payloads (Legacy.chunks_of T) ids |})).
  { intros Hok.
    destruct (accept_ids respond Hok (length (Worker.sent w))
                (length (Legacy.chunks_of T))) as (ids & Li & Ai).
    exists ids. split; [exact Li|]. now apply deliver_run. }
  destruct (legacy_chunks_facts T) as (C1 & C2).
  destruct (Worker.deliver respond (Legacy.chunks_of T) None w)
    as [[r|d] w1] eqn:D.
  - rewrite R.
    destruct ((0 <? length (Worker.attachments p)) && Worker.truthy_id r).
    + rewrite sendAttachments_uploads. eexists. split; [reflexivity|].
      intros Hok. destruct (G Hok) as (ids & Li & E).
      injection E as -> ->. cbn [Worker.sent Worker.linksList].
      eexists. split; [now rewrite <- app_assoc|].
      rewrite message_texts_app, message_texts_uploads, app_nil_r.
      unfold payloads. rewrite (message_texts_payloads _ None ids Li). auto.
    + unfold Worker.ret. eexists. split; [reflexivity|].
      intros Hok. destruct (G Hok) as (ids & Li & E).
      injection E as -> ->. cbn [Worker.sent].
      eexists. split; [reflexivity|].
      unfold payloads. rewrite (message_texts_payloads _ None ids Li). auto.
  - destruct R as [_ R]. rewrite R.
    cbn [Worker.truthy_id]. rewrite andb_false_r. unfold Worker.ret.
    eexists. split; [reflexivity|]. intros Hok.
    destruct (G Hok) as (ids & _ & E). discriminate.
Qed.

